(** * edit-stream-manager: the application reducer, the dashboard header,
      the settings page and the SQL schema of the README, embedded in Rocq.

    Layout of the development:
    - [JS]          JavaScript strings as lists of UTF-16 code units, with the
                    few built-ins the sources call ([split], [slice], [trim],
                    [Number.prototype.toString]);
    - [AppContext]  [appReducer] of src/contexts/AppContext.tsx;
    - [DashboardHeader]  [getInitials];
    - [Settings]    [handleUpdateApiKey] of the settings page;
    - [Sql], [Schema]  the tables, column defaults, keys, row-level-security
                    policies and [next_scene_ordinal] of README.md;
    - [SettingsStore]  the update request of the settings page at the
                    [profiles] table;
    - [Engine]      create-scene requests over the schema, alone and
                    interleaved;
    - [Lifecycle]   the scene state machine, job tracking and the version
                    store over the schema;
    - [SettingsPassword], [Admin], [AppProvider]  the other handlers of
                    src/contexts/AppContext.tsx;
    - [Analytics]   the hooks of src/hooks/useAnalytics.ts;
    - [SchemaTriggers]  the sign-up trigger of README.md.

    The definitions come first; the theorems follow, from [JSFacts] on. *)

From Stdlib Require Import ZArith NArith List String Ascii Bool Lia.
From Stdlib Require Import DecimalString Sorted FinFun.
Import ListNotations.

Local Open Scope Z_scope.

(* ------------------------------------------------------------------ *)
(** ** JavaScript strings *)

Module JS.

(** A JavaScript string is a sequence of UTF-16 code units. *)
Definition jsstring := list N.

(** An ASCII literal of the sources as a [jsstring]. *)
Fixpoint lit (s : string) : jsstring :=
  match s with
  | EmptyString => []
  | String c s' => N_of_ascii c :: lit s'
  end.

(** [a === b] on strings: code unit by code unit. *)
Fixpoint strict_eq (a b : jsstring) : bool :=
  match a, b with
  | [], [] => true
  | x :: a', y :: b' => N.eqb x y && strict_eq a' b'
  | _, _ => false
  end.

(** [n.toString()] for an integral Number: decimal digits, a leading
    [-] for negatives. *)
Definition toString (n : Z) : jsstring :=
  lit (NilZero.string_of_int (Z.to_int n)).

(** [s.slice(0, n)]: the first [n] code units. *)
Definition slice0 (n : nat) (s : jsstring) : jsstring := firstn n s.

(** [s.split(sep)] for a separator of one code unit: the pieces between
    the occurrences of [sep], in order. The result always has at least
    one piece. *)
Fixpoint split (sep : N) (s : jsstring) : list jsstring :=
  match s with
  | [] => [[]]
  | c :: s' =>
      if N.eqb c sep then [] :: split sep s'
      else match split sep s' with
           | [] => [[c]]
           | p :: ps => (c :: p) :: ps
           end
  end.

(** WhiteSpace and LineTerminator code units of ECMAScript, the ones
    [trim] strips. *)
Definition is_whitespace (c : N) : bool :=
  match c with
  | 9 | 10 | 11 | 12 | 13 | 32 | 160 | 5760
  | 8192 | 8193 | 8194 | 8195 | 8196 | 8197 | 8198 | 8199 | 8200
  | 8201 | 8202 | 8232 | 8233 | 8239 | 8287 | 12288 | 65279 => true
  | _ => false
  end%N.

Fixpoint trimStart (s : jsstring) : jsstring :=
  match s with
  | c :: s' => if is_whitespace c then trimStart s' else s
  | [] => []
  end.

Definition trimEnd (s : jsstring) : jsstring := rev (trimStart (rev s)).

Definition trim (s : jsstring) : jsstring := trimEnd (trimStart s).

(** Truthiness of a string: the empty string is the only falsy one. *)
Definition truthy (s : jsstring) : bool :=
  match s with [] => false | _ => true end.

(** [toUpperCase] on the ASCII range: [a]..[z] map to [A]..[Z], every
    other code unit below 128 is unchanged. Code units from 128 on are
    left to the Unicode tables of the engine; see
    [DashboardHeader.getInitials], which takes the conversion as an
    argument. *)
Definition ascii_upper_unit (c : N) : N :=
  if (N.leb 97 c && N.leb c 122)%N then (c - 32)%N else c.

Definition toUpperCase_ascii (s : jsstring) : jsstring :=
  map ascii_upper_unit s.

End JS.

(* ------------------------------------------------------------------ *)
(** ** src/contexts/AppContext.tsx: application state and reducer *)

Module AppContext.
Import JS.

(** The fields of supabase's [User] that this repository reads. *)
Record User := mkUser { user_id : jsstring; user_email : option jsstring }.

Record Profile := mkProfile {
  profile_id : jsstring;
  profile_email : jsstring;
  profile_role : jsstring;
  profile_status : jsstring;
  luma_api_key : option jsstring;
  profile_created_at : jsstring;
  profile_updated_at : jsstring
}.

Inductive Theme := light | dark | system.
Inductive ExportFormat := mp4 | mov | avi.
Inductive Quality := low | medium | high.

Record UserPreferences := mkPreferences {
  autoSave : bool;
  emailNotifications : bool;
  keyboardShortcuts : bool;
  defaultShotType : jsstring;
  exportFormat : ExportFormat;
  quality : Quality
}.

(** [Partial<UserPreferences>]: every key may be absent. *)
Record PartialPreferences := mkPartial {
  p_autoSave : option bool;
  p_emailNotifications : option bool;
  p_keyboardShortcuts : option bool;
  p_defaultShotType : option jsstring;
  p_exportFormat : option ExportFormat;
  p_quality : option Quality
}.

Inductive NotificationType := info | success | warning | error.

Record Notification := mkNotification {
  id : jsstring;
  type : NotificationType;
  title : jsstring;
  message : jsstring;
  timestamp : Z;
  read : bool
}.

(** [Omit<Notification, 'id' | 'timestamp' | 'read'>] *)
Record NotificationPayload := mkPayload {
  payload_type : NotificationType;
  payload_title : jsstring;
  payload_message : jsstring
}.

Record AppState := mkState {
  user : option User;
  profile : option Profile;
  loading : bool;
  theme : Theme;
  sidebarOpen : bool;
  notifications : list Notification;
  preferences : UserPreferences
}.

Inductive AppAction :=
| SET_USER (payload : option User)
| SET_PROFILE (payload : option Profile)
| SET_LOADING (payload : bool)
| SET_THEME (payload : Theme)
| TOGGLE_SIDEBAR
| ADD_NOTIFICATION (payload : NotificationPayload)
| MARK_NOTIFICATION_READ (payload : jsstring)
| CLEAR_NOTIFICATIONS
| UPDATE_PREFERENCES (payload : PartialPreferences)
| RESET_STATE.

Definition initialState : AppState := {|
  user := None;
  profile := None;
  loading := true;
  theme := system;
  sidebarOpen := false;
  notifications := [];
  preferences := {|
    autoSave := true;
    emailNotifications := true;
    keyboardShortcuts := true;
    defaultShotType := lit "wide";
    exportFormat := mp4;
    quality := medium
  |}
|}.

(** The two clock readings the reducer takes while it handles one
    action: [Date.now()] and [new Date()], in milliseconds. *)
Record Clock := mkClock { Date_now : Z; new_Date : Z }.

(** [{ ...action.payload, id: Date.now().toString(),
       timestamp: new Date(), read: false }] *)
Definition newNotification (clk : Clock) (payload : NotificationPayload)
  : Notification := {|
  id := toString (Date_now clk);
  type := payload_type payload;
  title := payload_title payload;
  message := payload_message payload;
  timestamp := new_Date clk;
  read := false
|}.

(** [{ ...notification, read: true }] *)
Definition mark_read (n : Notification) : Notification := {|
  id := id n;
  type := type n;
  title := title n;
  message := message n;
  timestamp := timestamp n;
  read := true
|}.

Definition or_else {A} (o : option A) (d : A) : A :=
  match o with Some a => a | None => d end.

(** [{ ...state.preferences, ...action.payload }] *)
Definition merge_preferences (p : UserPreferences) (q : PartialPreferences)
  : UserPreferences := {|
  autoSave := or_else (p_autoSave q) (autoSave p);
  emailNotifications := or_else (p_emailNotifications q) (emailNotifications p);
  keyboardShortcuts := or_else (p_keyboardShortcuts q) (keyboardShortcuts p);
  defaultShotType := or_else (p_defaultShotType q) (defaultShotType p);
  exportFormat := or_else (p_exportFormat q) (exportFormat p);
  quality := or_else (p_quality q) (quality p)
|}.

Definition set_notifications (s : AppState) (l : list Notification)
  : AppState := {|
  user := user s;
  profile := profile s;
  loading := loading s;
  theme := theme s;
  sidebarOpen := sidebarOpen s;
  notifications := l;
  preferences := preferences s
|}.

(** [appReducer]. The [default: return state] branch of the [switch] has
    no action of type [AppAction] that reaches it. *)
Definition appReducer (clk : Clock) (state : AppState) (action : AppAction)
  : AppState :=
  match action with
  | SET_USER payload =>
      {| user := payload; profile := profile state;
         loading := loading state; theme := theme state;
         sidebarOpen := sidebarOpen state;
         notifications := notifications state;
         preferences := preferences state |}
  | SET_PROFILE payload =>
      {| user := user state; profile := payload;
         loading := loading state; theme := theme state;
         sidebarOpen := sidebarOpen state;
         notifications := notifications state;
         preferences := preferences state |}
  | SET_LOADING payload =>
      {| user := user state; profile := profile state;
         loading := payload; theme := theme state;
         sidebarOpen := sidebarOpen state;
         notifications := notifications state;
         preferences := preferences state |}
  | SET_THEME payload =>
      {| user := user state; profile := profile state;
         loading := loading state; theme := payload;
         sidebarOpen := sidebarOpen state;
         notifications := notifications state;
         preferences := preferences state |}
  | TOGGLE_SIDEBAR =>
      {| user := user state; profile := profile state;
         loading := loading state; theme := theme state;
         sidebarOpen := negb (sidebarOpen state);
         notifications := notifications state;
         preferences := preferences state |}
  | ADD_NOTIFICATION payload =>
      set_notifications state
        (firstn 50 (newNotification clk payload :: notifications state))
  | MARK_NOTIFICATION_READ payload =>
      set_notifications state
        (map (fun notification =>
                if strict_eq (id notification) payload
                then mark_read notification
                else notification)
             (notifications state))
  | CLEAR_NOTIFICATIONS => set_notifications state []
  | UPDATE_PREFERENCES payload =>
      {| user := user state; profile := profile state;
         loading := loading state; theme := theme state;
         sidebarOpen := sidebarOpen state;
         notifications := notifications state;
         preferences := merge_preferences (preferences state) payload |}
  | RESET_STATE => initialState
  end.

(** [useReducer(appReducer, initialState)]: the state after a sequence of
    dispatched actions, each handled under its own clock readings. *)
Definition dispatch_all (s : AppState) (acts : list (Clock * AppAction))
  : AppState :=
  fold_left (fun st ca => appReducer (fst ca) st (snd ca)) acts s.

End AppContext.

(* ------------------------------------------------------------------ *)
(** ** src/components/dashboard/DashboardHeader.tsx *)

Module DashboardHeader.
Import JS.

(** The code unit of ["@"]. *)
Definition at_sign : N := 64%N.

(** [email.split("@")[0].slice(0, 2).toUpperCase()].

    [toUpperCase] is the engine's Unicode conversion, taken as an
    argument ([JS.toUpperCase_ascii] is its ASCII instance). Indexing the
    array returns [undefined] out of range, on which [.slice] throws: the
    result is [None] then. *)
Definition getInitials (toUpperCase : jsstring -> jsstring)
    (email : jsstring) : option jsstring :=
  match nth_error (split at_sign email) 0 with
  | Some first => Some (toUpperCase (slice0 2 first))
  | None => None
  end.

End DashboardHeader.

(* ------------------------------------------------------------------ *)
(** ** The settings page: [handleUpdateApiKey] *)

Module Settings.
Import JS.
Import AppContext.

Record FormData := mkFormData {
  lumaApiKey : jsstring;
  newPassword : jsstring;
  confirmPassword : jsstring
}.

(** The component state the handler reads and writes. *)
Record State := mkSettings {
  st_user : option User;
  st_profile : option Profile;
  st_saving : bool;
  st_formData : FormData
}.

(** [supabase.from(table).update(values).eq(column, value)] *)
Record UpdateRequest := mkUpdate {
  req_table : jsstring;
  req_values : list (jsstring * jsstring);
  req_eq_column : jsstring;
  req_eq_value : option jsstring
}.

(** What the awaited request yields: [{ error: null }], [{ error }], or
    a rejected promise. *)
Inductive Response := resolved_ok | resolved_error | rejected.

Inductive Toast :=
| toast_error (msg : jsstring)
| toast_success (msg : jsstring).

Record Outcome := mkOutcome {
  out_state : State;
  out_request : option UpdateRequest;
  out_toasts : list Toast
}.

Definition setSaving (b : bool) (s : State) : State :=
  {| st_user := st_user s; st_profile := st_profile s;
     st_saving := b; st_formData := st_formData s |}.

(** [setProfile(prev => prev ? { ...prev, luma_api_key: key } : null)] *)
Definition setProfile_key (key : jsstring) (s : State) : State :=
  {| st_user := st_user s;
     st_profile :=
       match st_profile s with
       | Some prev =>
           Some {| profile_id := profile_id prev;
                   profile_email := profile_email prev;
                   profile_role := profile_role prev;
                   profile_status := profile_status prev;
                   luma_api_key := Some key;
                   profile_created_at := profile_created_at prev;
                   profile_updated_at := profile_updated_at prev |}
       | None => None
       end;
     st_saving := st_saving s; st_formData := st_formData s |}.

(** [handleUpdateApiKey]. [toISOString] is [new Date().toISOString()] as
    read when the request is built; [respond] is the answer of the hosted
    store to the request. *)
Definition handleUpdateApiKey (toISOString : jsstring)
    (respond : UpdateRequest -> Response) (s : State) : Outcome :=
  if negb (truthy (trim (lumaApiKey (st_formData s)))) then
    {| out_state := s; out_request := None;
       out_toasts := [toast_error (lit "API key is required")] |}
  else
    let req := {|
      req_table := lit "profiles";
      req_values := [ (lit "luma_api_key", lumaApiKey (st_formData s));
                      (lit "updated_at", toISOString) ];
      req_eq_column := lit "id";
      req_eq_value := option_map user_id (st_user s) |} in
    match respond req with
    | resolved_error =>
        {| out_state := setSaving false (setSaving true s);
           out_request := Some req;
           out_toasts := [toast_error (lit "Failed to update API key")] |}
    | resolved_ok =>
        {| out_state :=
             setSaving false
               (setProfile_key (lumaApiKey (st_formData s))
                  (setSaving true s));
           out_request := Some req;
           out_toasts := [toast_success (lit "API key updated successfully")] |}
    | rejected =>
        {| out_state := setSaving false (setSaving true s);
           out_request := Some req;
           out_toasts := [toast_error (lit "An error occurred")] |}
    end.

End Settings.

(* ------------------------------------------------------------------ *)
(** ** PostgreSQL values and errors used by the schema of README.md *)

Module Sql.

Inductive error :=
| integer_out_of_range      (* 22003 *)
| unique_violation          (* 23505 *)
| foreign_key_violation     (* 23503 *)
| rls_violation             (* 42501: new row violates row-level security *)
| infinite_recursion        (* 42P17: infinite recursion detected in policy *)
| undefined_column          (* 42703: column does not exist *)
| statement_too_complex.    (* 54001: stack depth limit exceeded *)

Inductive result (A : Type) :=
| Ok (a : A)
| Err (e : error).
Arguments Ok {A} a.
Arguments Err {A} e.

Definition bind {A B} (r : result A) (k : A -> result B) : result B :=
  match r with Ok a => k a | Err e => Err e end.

(** [INTEGER] is a signed 32-bit integer. *)
Definition int4_min : Z := -2147483648.
Definition int4_max : Z := 2147483647.

Definition in_int4 (z : Z) : bool := (int4_min <=? z) && (z <=? int4_max).

(** [a + b] on [INTEGER]: an error, not a wrap-around, out of range. *)
Definition int4pl (a b : Z) : result Z :=
  if in_int4 (a + b) then Ok (a + b) else Err integer_out_of_range.

(** [MAX(col)] over the selected rows: NULL when there is none. *)
Fixpoint MAX (l : list Z) : option Z :=
  match l with
  | [] => None
  | x :: l' =>
      match MAX l' with
      | None => Some x
      | Some m => Some (Z.max x m)
      end
  end.

Definition COALESCE {A} (v : option A) (d : A) : A :=
  match v with Some a => a | None => d end.

(** A column of an [INSERT]: left out (its [DEFAULT] applies) or given. *)
Inductive col (A : Type) :=
| DEFAULT
| VALUE (v : A).
Arguments DEFAULT {A}.
Arguments VALUE {A} v.

Definition col_or {A} (c : col A) (d : A) : A :=
  match c with DEFAULT => d | VALUE v => v end.

End Sql.

(* ------------------------------------------------------------------ *)
(** ** README.md, "Full SQL Setup for Supabase": types, tables, policies
       and functions.

    Rows are records with the column names of the tables; a nullable column
    is an [option]. A table is the list of its rows; the order of the
    list stands for nothing a statement can rely on. The tables
    [admin_approvals] and [error_events] hold no row that a statement on
    [scenes] reads: of them only the policies appear, in [policies]. The
    [storage] schema is left out. *)

Module Schema.
Import Sql.

Definition uuid := N.
Definition timestamptz := Z.

Module user_role.
Inductive t := user | admin.
End user_role.

Module user_status.
Inductive t := pending | approved | rejected.
Definition eqb (a b : t) : bool :=
  match a, b with
  | pending, pending | approved, approved | rejected, rejected => true
  | _, _ => false
  end.
End user_status.

Module scene_status.
Inductive t := queued | processing | ready | error.
Definition eqb (a b : t) : bool :=
  match a, b with
  | queued, queued | processing, processing
  | ready, ready | error, error => true
  | _, _ => false
  end.
End scene_status.

Module luma_status.
Inductive t := pending | processing | completed | failed.
End luma_status.

Module profiles.
Record row := mk {
  id : uuid;
  email : string;
  role : option user_role.t;
  status : option user_status.t;
  api_key_hash : option string;
  created_at : option timestamptz;
  updated_at : option timestamptz
}.
End profiles.

Module projects.
Record row := mk {
  id : uuid;
  owner_id : uuid;
  name : string;
  description : option string;
  created_at : option timestamptz;
  updated_at : option timestamptz
}.
End projects.

Module shot_types.
Record row := mk {
  id : uuid;
  owner_id : uuid;
  name : string;
  prompt_template : string;
  is_default : option bool;
  created_at : option timestamptz;
  updated_at : option timestamptz
}.
End shot_types.

Module scenes.
Record row := mk {
  id : uuid;
  user_id : uuid;
  project_id : uuid;
  folder : string;
  start_key : string;
  end_key : option string;
  shot_type_id : uuid;
  ordinal : Z;
  version : option Z;
  start_frame_signed_url : option string;
  end_frame_signed_url : option string;
  signed_url_expires_at : option timestamptz;
  luma_job_id : option string;
  luma_status : option luma_status.t;
  luma_error : option string;
  status : option scene_status.t;
  deleted_at : option timestamptz;
  created_at : option timestamptz;
  updated_at : option timestamptz
}.

(** The columns of an [INSERT INTO public.scenes]: the [NOT NULL]
    columns without a default are mandatory. *)
Record insert := mk_insert {
  i_id : col uuid;
  i_user_id : uuid;
  i_project_id : uuid;
  i_folder : string;
  i_start_key : string;
  i_end_key : col (option string);
  i_shot_type_id : uuid;
  i_ordinal : Z;
  i_version : col (option Z);
  i_start_frame_signed_url : col (option string);
  i_end_frame_signed_url : col (option string);
  i_signed_url_expires_at : col (option timestamptz);
  i_luma_job_id : col (option string);
  i_luma_status : col (option luma_status.t);
  i_luma_error : col (option string);
  i_status : col (option scene_status.t);
  i_deleted_at : col (option timestamptz);
  i_created_at : col (option timestamptz);
  i_updated_at : col (option timestamptz)
}.

(** The row an [INSERT] builds: [gen_random_uuid()] and [NOW()] are
    the values the two default expressions take at that moment. *)
Definition with_defaults (gen_random_uuid : uuid) (NOW : timestamptz)
    (i : insert) : row := {|
  id := col_or (i_id i) gen_random_uuid;
  user_id := i_user_id i;
  project_id := i_project_id i;
  folder := i_folder i;
  start_key := i_start_key i;
  end_key := col_or (i_end_key i) None;
  shot_type_id := i_shot_type_id i;
  ordinal := i_ordinal i;
  version := col_or (i_version i) (Some 1);
  start_frame_signed_url := col_or (i_start_frame_signed_url i) None;
  end_frame_signed_url := col_or (i_end_frame_signed_url i) None;
  signed_url_expires_at := col_or (i_signed_url_expires_at i) None;
  luma_job_id := col_or (i_luma_job_id i) None;
  luma_status := col_or (i_luma_status i) (Some luma_status.pending);
  luma_error := col_or (i_luma_error i) None;
  status := col_or (i_status i) (Some scene_status.queued);
  deleted_at := col_or (i_deleted_at i) None;
  created_at := col_or (i_created_at i) (Some NOW);
  updated_at := col_or (i_updated_at i) (Some NOW)
|}.

(** Trigger [update_scenes_updated_at]:
    [BEFORE UPDATE ... NEW.updated_at = NOW()]. *)
Definition update_updated_at_column (NOW : timestamptz) (r : row) : row := {|
  id := id r; user_id := user_id r; project_id := project_id r;
  folder := folder r; start_key := start_key r; end_key := end_key r;
  shot_type_id := shot_type_id r; ordinal := ordinal r;
  version := version r;
  start_frame_signed_url := start_frame_signed_url r;
  end_frame_signed_url := end_frame_signed_url r;
  signed_url_expires_at := signed_url_expires_at r;
  luma_job_id := luma_job_id r; luma_status := luma_status r;
  luma_error := luma_error r; status := status r;
  deleted_at := deleted_at r; created_at := created_at r;
  updated_at := Some NOW
|}.
End scenes.

Module scene_versions.
Record row := mk {
  id : uuid;
  scene_id : uuid;
  version : Z;
  video_url : option string;
  render_meta : option string;
  created_at : option timestamptz
}.
End scene_versions.

Record db := mk_db {
  tbl_profiles : list profiles.row;
  tbl_projects : list projects.row;
  tbl_shot_types : list shot_types.row;
  tbl_scenes : list scenes.row;
  tbl_scene_versions : list scene_versions.row
}.

Definition with_profiles (d : db) (l : list profiles.row) : db :=
  {| tbl_profiles := l; tbl_projects := tbl_projects d;
     tbl_shot_types := tbl_shot_types d; tbl_scenes := tbl_scenes d;
     tbl_scene_versions := tbl_scene_versions d |}.

Definition with_scenes (d : db) (l : list scenes.row) : db :=
  {| tbl_profiles := tbl_profiles d; tbl_projects := tbl_projects d;
     tbl_shot_types := tbl_shot_types d; tbl_scenes := l;
     tbl_scene_versions := tbl_scene_versions d |}.

Definition with_scene_versions (d : db) (l : list scene_versions.row)
  : db :=
  {| tbl_profiles := tbl_profiles d; tbl_projects := tbl_projects d;
     tbl_shot_types := tbl_shot_types d; tbl_scenes := tbl_scenes d;
     tbl_scene_versions := l |}.

(** *** Row-level security

    [ALTER TABLE ... ENABLE ROW LEVEL SECURITY] is set on every table of
    the script, followed by its [CREATE POLICY] statements. *)

Inductive table :=
| t_profiles | t_projects | t_shot_types | t_scenes | t_scene_versions
| t_admin_approvals | t_error_events.

Definition table_eqb (a b : table) : bool :=
  match a, b with
  | t_profiles, t_profiles | t_projects, t_projects
  | t_shot_types, t_shot_types | t_scenes, t_scenes
  | t_scene_versions, t_scene_versions
  | t_admin_approvals, t_admin_approvals
  | t_error_events, t_error_events => true
  | _, _ => false
  end.

Inductive command := c_select | c_insert | c_update | c_delete.

Definition command_eqb (a b : command) : bool :=
  match a, b with
  | c_select, c_select | c_insert, c_insert
  | c_update, c_update | c_delete, c_delete => true
  | _, _ => false
  end.

(** A [CREATE POLICY name ON table FOR command USING (expr)]: [pol_for]
    is [None] for [FOR ALL]; [pol_subselects] lists the tables the
    sub-selects of [expr] read, nested ones included. *)
Record policy := mk_policy {
  pol_name : string;
  pol_table : table;
  pol_for : option command;
  pol_subselects : list table
}.

(** The policies on the tables of the [public] schema, in the order of
    the script. *)
Definition policies : list policy := [
  mk_policy "Users can view own profile" t_profiles (Some c_select) [];
  mk_policy "Admins can view all profiles" t_profiles (Some c_select)
            [t_profiles];
  mk_policy "Users can update own profile" t_profiles (Some c_update) [];
  mk_policy "Users can manage own projects" t_projects None [];
  mk_policy "Users can manage own shot types" t_shot_types None [];
  mk_policy "Users can manage own scenes" t_scenes None [t_profiles];
  mk_policy "Users can view versions of own scenes" t_scene_versions
            (Some c_select) [t_scenes; t_profiles];
  mk_policy "Admins can manage approvals" t_admin_approvals None
            [t_profiles];
  mk_policy "Admins can view error events" t_error_events (Some c_select)
            [t_profiles]
].

(** The policies a command on a table is subject to: those [FOR ALL],
    those for the command, and for an [UPDATE] or [DELETE] with a
    [WHERE] clause, which reads the rows, those [FOR SELECT] too. *)
Definition applies (c : command) (p : policy) : bool :=
  match pol_for p with
  | None => true
  | Some c' =>
      command_eqb c' c
      || (command_eqb c' c_select
          && (command_eqb c c_update || command_eqb c c_delete))
  end.

Definition subselects_of (pols : list policy) (c : command) (t : table)
  : list table :=
  flat_map pol_subselects
    (filter (fun p => table_eqb (pol_table p) t && applies c p) pols).

(** The rewriter adds the policy expressions of a table to a statement
    on it and then rewrites their sub-selects the same way, each a
    [SELECT] on the table it reads. Coming back to a table whose
    policies are being expanded is the error 42P17, "infinite recursion
    detected in policy for relation". [active] lists the tables under
    expansion; [depth] bounds the nesting, which the seven tables never
    reach. *)
Fixpoint expand_policies (pols : list policy) (depth : nat)
    (active : list table) (c : command) (t : table) : result unit :=
  match depth with
  | O => Err statement_too_complex
  | S depth' =>
      match subselects_of pols c t with
      | [] => Ok tt
      | subs =>
          if existsb (table_eqb t) active then Err infinite_recursion
          else
            fold_left
              (fun acc t' =>
                 bind acc (fun _ =>
                   expand_policies pols depth' (t :: active) c_select t'))
              subs (Ok tt)
      end
  end.

Definition row_security (c : command) (t : table) : result unit :=
  expand_policies policies 8 [] c t.

(** Who runs a statement: the service role bypasses row-level security,
    an authenticated caller has [auth.uid()] set, an anonymous one has
    [auth.uid()] NULL; the policies name no role, so they hold for
    both. *)
Inductive role :=
| service_role
| authenticated (uid : uuid)
| anon.

Definition subject_to (who : role) (c : command) (t : table)
  : result unit :=
  match who with
  | service_role => Ok tt
  | _ => row_security c t
  end.

(** [EXISTS (SELECT 1 FROM public.profiles
             WHERE id = auth.uid() AND status = 'approved')] *)
Definition approved_profile_exists (d : db) (uid : uuid) : bool :=
  existsb (fun p =>
             N.eqb (profiles.id p) uid &&
             match profiles.status p with
             | Some s => user_status.eqb s user_status.approved
             | None => false
             end)
          (tbl_profiles d).

(** Policy "Users can manage own scenes" [FOR ALL USING (...)], for a
    statement [c] of [who] on [scenes]: the rows the statement may
    touch. The service role bypasses the policy. For every other caller
    the policy is expanded first, its sub-select on [profiles] under the
    policies of [profiles]; where that goes through, the expression
    [auth.uid() = user_id AND EXISTS (...)] decides row by row
    ([auth.uid()] is NULL for an anonymous caller). With no [WITH CHECK]
    clause the same expression also checks new rows. *)
Definition users_can_manage_own_scenes (who : role) (c : command)
    (d : db) : result (scenes.row -> bool) :=
  bind (subject_to who c t_scenes) (fun _ =>
  Ok (fun r =>
        match who with
        | service_role => true
        | authenticated uid =>
            N.eqb uid (scenes.user_id r) && approved_profile_exists d uid
        | anon => false
        end)).

Definition scene_ids (d : db) : list uuid := map scenes.id (tbl_scenes d).

Fixpoint distinct (l : list uuid) : bool :=
  match l with
  | [] => true
  | x :: l' => negb (existsb (N.eqb x) l') && distinct l'
  end.

(** [ordinal] and [version] are [INTEGER]s. *)
Definition integers_in_range (r : scenes.row) : bool :=
  in_int4 (scenes.ordinal r)
  && match scenes.version r with
     | Some v => in_int4 v
     | None => true
     end.

(** The foreign keys of [scenes]: [user_id] to [profiles], [project_id]
    to [projects], [shot_type_id] to [shot_types]. *)
Definition references_hold (d : db) (r : scenes.row) : bool :=
  existsb (fun p => N.eqb (profiles.id p) (scenes.user_id r))
          (tbl_profiles d)
  && existsb (fun p => N.eqb (projects.id p) (scenes.project_id r))
             (tbl_projects d)
  && existsb (fun t => N.eqb (shot_types.id t) (scenes.shot_type_id r))
             (tbl_shot_types d).

(** The foreign key of [scene_versions] seen from [scenes]: when an
    [UPDATE] has made [rows] of the table, a version record of the scene
    [r] still has to find its scene. *)
Definition versions_follow (d : db) (rows : list scenes.row)
    (r : scenes.row) : bool :=
  negb (existsb (fun v => N.eqb (scene_versions.scene_id v) (scenes.id r))
                (tbl_scene_versions d))
  || existsb (N.eqb (scenes.id r)) (map scenes.id rows).

(** [SELECT * FROM public.scenes WHERE cond] as [who]. *)
Definition select_scenes (who : role) (d : db) (cond : scenes.row -> bool)
  : result (list scenes.row) :=
  bind (users_can_manage_own_scenes who c_select d) (fun may =>
  Ok (filter (fun r => may r && cond r) (tbl_scenes d))).

(** [INSERT INTO public.scenes] as [who]: the statement is rewritten
    under the policy, then the new row has to hold [INTEGER]s, pass the
    policy, the primary key and the foreign keys. *)
Definition insert_scene (who : role) (d : db) (r : scenes.row)
  : result db :=
  bind (users_can_manage_own_scenes who c_insert d) (fun may =>
  if negb (integers_in_range r) then Err integer_out_of_range
  else if negb (may r) then Err rls_violation
  else if existsb (N.eqb (scenes.id r)) (scene_ids d)
  then Err unique_violation
  else if negb (references_hold d r) then Err foreign_key_violation
  else Ok (with_scenes d (tbl_scenes d ++ [r]))).

(** [UPDATE public.scenes SET ... WHERE cond] as [who]: the rows [who]
    may touch and [cond] selects are replaced by [set row], stamped by
    the [updated_at] trigger; each new row has to hold [INTEGER]s, is
    checked against the policy, and the primary key and the foreign keys
    from and to the table have to hold. A statement that selects no row
    changes nothing and raises nothing once it is rewritten. *)
Definition update_scenes (who : role) (NOW : timestamptz) (d : db)
    (cond : scenes.row -> bool) (set : scenes.row -> scenes.row)
  : result db :=
  bind (users_can_manage_own_scenes who c_update d) (fun may =>
  let hit r := may r && cond r in
  let new r := scenes.update_updated_at_column NOW (set r) in
  let rows := map (fun r => if hit r then new r else r) (tbl_scenes d) in
  if negb (forallb (fun r => negb (hit r) || integers_in_range (new r))
                   (tbl_scenes d))
  then Err integer_out_of_range
  else if negb (forallb (fun r => negb (hit r) || may (new r))
                   (tbl_scenes d))
  then Err rls_violation
  else if existsb hit (tbl_scenes d) && negb (distinct (map scenes.id rows))
  then Err unique_violation
  else if negb (forallb (fun r => negb (hit r)
                             || (references_hold d (new r)
                                 && versions_follow d rows r))
                   (tbl_scenes d))
  then Err foreign_key_violation
  else Ok (with_scenes d rows)).

(** The store without the scenes [hit] selects; the versions of a
    deleted scene go with it
    ([scene_id ... REFERENCES public.scenes(id) ON DELETE CASCADE]). *)
Definition without_scenes (d : db) (hit : scenes.row -> bool) : db :=
  let gone := map scenes.id (filter hit (tbl_scenes d)) in
  {| tbl_profiles := tbl_profiles d; tbl_projects := tbl_projects d;
     tbl_shot_types := tbl_shot_types d;
     tbl_scenes := filter (fun r => negb (hit r)) (tbl_scenes d);
     tbl_scene_versions :=
       filter (fun v => negb (existsb (N.eqb (scene_versions.scene_id v))
                                      gone))
              (tbl_scene_versions d) |}.

(** [DELETE FROM public.scenes WHERE cond] as [who]. *)
Definition delete_scenes (who : role) (d : db) (cond : scenes.row -> bool)
  : result db :=
  bind (users_can_manage_own_scenes who c_delete d) (fun may =>
  Ok (without_scenes d (fun r => may r && cond r))).

(** [INSERT INTO public.scene_versions]: [UNIQUE(scene_id, version)], the
    primary key, and the foreign key to [scenes]. Row-level security is
    enabled on the table with a [SELECT] policy only, so only the
    service role inserts. *)
Definition insert_scene_version (who : role) (d : db)
    (v : scene_versions.row) : result db :=
  match who with
  | service_role =>
      if negb (in_int4 (scene_versions.version v))
      then Err integer_out_of_range
      else if existsb (fun w => N.eqb (scene_versions.id w)
                                      (scene_versions.id v))
                      (tbl_scene_versions d)
      then Err unique_violation
      else if existsb (fun w => N.eqb (scene_versions.scene_id w)
                                      (scene_versions.scene_id v)
                                && Z.eqb (scene_versions.version w)
                                         (scene_versions.version v))
                      (tbl_scene_versions d)
      then Err unique_violation
      else if negb (existsb (N.eqb (scene_versions.scene_id v))
                            (scene_ids d))
      then Err foreign_key_violation
      else Ok (with_scene_versions d (tbl_scene_versions d ++ [v]))
  | _ => Err rls_violation
  end.

(** [public.next_scene_ordinal(p_project_id)]:
    [SELECT COALESCE(MAX(ordinal), 0) + 1 FROM public.scenes
     WHERE project_id = p_project_id].
    The function is [SECURITY DEFINER]: it reads every row of the table,
    whoever calls it. It is taken at a project id that is not NULL (a
    NULL argument selects no row). *)
Definition next_scene_ordinal (d : db) (p_project_id : uuid) : result Z :=
  int4pl
    (COALESCE
       (MAX (map scenes.ordinal
                 (filter (fun r => N.eqb (scenes.project_id r) p_project_id)
                         (tbl_scenes d))))
       0)
    1.


End Schema.

(* ------------------------------------------------------------------ *)
(** ** The requests of the settings page at the [profiles] table *)

Module SettingsStore.
Import JS.
Import Settings.
Import Sql.
Import Schema.




End SettingsStore.

(* ------------------------------------------------------------------ *)
(** ** The scene operations over the schema

    The edge functions that create scenes, track jobs and store versions
    (luma-create-scene, luma-scene-status, delete-scene of the README's
    configuration list) are not among the source files. Their steps are
    written here over the store operations of [Schema], run with the
    service role like the two edge functions README.md prints. *)

Module Engine.
Import Sql.
Import Schema.

Inductive failure :=
| NotFoundError
| ConflictError
| CallerNotActive
| StoreError (e : Sql.error).

Inductive outcome :=
| Done (d : db)
| Rejected (f : failure).

Definition of_result (r : result db) : outcome :=
  match r with Ok d => Done d | Err e => Rejected (StoreError e) end.

(** What a create-scene request brings: the caller, the frames and shot
    type, and the values [gen_random_uuid()] and [NOW()] take when its
    row is inserted. *)
Record create_args := mk_create {
  a_user : uuid;
  a_folder : string;
  a_start_key : string;
  a_end_key : option string;
  a_shot_type_id : uuid;
  a_gen_random_uuid : uuid;
  a_NOW : timestamptz
}.

(** Modelled from the spec: the row a create-scene request inserts
    (section 4.6, "allocate ordinal, create scene row (queued), submit
    job"; section 3, "status=queued, version=1, external-job=null"). The
    request supplies the owner, project, frames, shot type and ordinal
    and leaves every other column to its [DEFAULT] in the table. *)
Definition new_scene (project : uuid) (a : create_args) (ordinal : Z)
  : scenes.row :=
  scenes.with_defaults (a_gen_random_uuid a) (a_NOW a) {|
    scenes.i_id := DEFAULT;
    scenes.i_user_id := a_user a;
    scenes.i_project_id := project;
    scenes.i_folder := a_folder a;
    scenes.i_start_key := a_start_key a;
    scenes.i_end_key := VALUE (a_end_key a);
    scenes.i_shot_type_id := a_shot_type_id a;
    scenes.i_ordinal := ordinal;
    scenes.i_version := DEFAULT;
    scenes.i_start_frame_signed_url := DEFAULT;
    scenes.i_end_frame_signed_url := DEFAULT;
    scenes.i_signed_url_expires_at := DEFAULT;
    scenes.i_luma_job_id := DEFAULT;
    scenes.i_luma_status := DEFAULT;
    scenes.i_luma_error := DEFAULT;
    scenes.i_status := DEFAULT;
    scenes.i_deleted_at := DEFAULT;
    scenes.i_created_at := DEFAULT;
    scenes.i_updated_at := DEFAULT
  |}.

(** Modelled from the spec: the first store step of a create-scene
    request (section 4.6, "allocate ordinal"): the call of
    [next_scene_ordinal], the allocator of the schema. *)
Definition allocate (project : uuid) (d : db) : result Z :=
  next_scene_ordinal d project.

(** Modelled from the spec: the second store step of a create-scene
    request (section 4.6, "create scene row (queued)"): the insert of the
    row, with the caller as its [user_id]. The statement runs with the
    service role, as the statements of the edge functions printed in
    README.md do ([createClient(SUPABASE_URL, SUPABASE_SERVICE_ROLE_KEY)],
    then [insert({ ...body, owner_id: user.id })]). *)
Definition insert_new_scene (project : uuid) (a : create_args)
    (ordinal : Z) (d : db) : result db :=
  insert_scene service_role d (new_scene project a ordinal).

(** Modelled from the spec: one create-scene request run on its own
    (section 4.6): allocate, then insert. The table has no uniqueness
    constraint on ordinals, so no retry on conflict arises. *)
Definition create_scene (project : uuid) (a : create_args) (d : db)
  : result (Z * db) :=
  bind (allocate project d) (fun o =>
  bind (insert_new_scene project a o d) (fun d' => Ok (o, d'))).

(** *** Concurrent create-scene requests *)

(** Modelled from the spec: how far a create-scene request has got
    through its two store steps (section 4.6), or the error that ended
    it. *)
Inductive request :=
| Start
| Allocated (ordinal : Z)
| Created (ordinal : Z)
| Failed (e : Sql.error).

(** Modelled from the spec: the store and the requests in flight
    against one project (section 5, "multiple independent requests may
    arrive concurrently for the same project"). *)
Record world := mk_world {
  store : db;
  requests : list (create_args * request)
}.

Fixpoint set_nth {A} (i : nat) (x : A) (l : list A) : list A :=
  match l, i with
  | [], _ => []
  | _ :: l', O => x :: l'
  | y :: l', S i' => y :: set_nth i' x l'
  end.

(** Modelled from the spec: request [i] takes its next store step
    (section 5, "there is no global serialization point"): the steps of
    different requests interleave freely. A request that has finished,
    or an index that names no request, changes nothing. *)
Definition step (project : uuid) (i : nat) (w : world) : world :=
  match nth_error (requests w) i with
  | Some (a, Start) =>
      match allocate project (store w) with
      | Ok o =>
          {| store := store w;
             requests := set_nth i (a, Allocated o) (requests w) |}
      | Err e =>
          {| store := store w;
             requests := set_nth i (a, Failed e) (requests w) |}
      end
  | Some (a, Allocated o) =>
      match insert_new_scene project a o (store w) with
      | Ok d' =>
          {| store := d';
             requests := set_nth i (a, Created o) (requests w) |}
      | Err e =>
          {| store := store w;
             requests := set_nth i (a, Failed e) (requests w) |}
      end
  | _ => w
  end.

(** Modelled from the spec: an interleaving of the requests; [schedule]
    lists which request moves next. *)
Definition run_schedule (project : uuid) (schedule : list nat) (w : world)
  : world :=
  fold_left (fun w i => step project i w) schedule w.

(** Every request still has both steps to take. *)
Definition initial_world (d : db) (args : list create_args) : world :=
  {| store := d; requests := map (fun a => (a, Start)) args |}.

(** The schedule in which request 0 takes both steps, then request 1,
    and so on. *)
Definition serial_schedule (n : nat) : list nat :=
  flat_map (fun i => [i; i]) (seq 0 n).

(** The ordinals of the scenes the requests created, in request order. *)
Fixpoint created_ordinals (l : list (create_args * request)) : list Z :=
  match l with
  | [] => []
  | (_, Created o) :: l' => o :: created_ordinals l'
  | _ :: l' => created_ordinals l'
  end.

Fixpoint all_created (l : list (create_args * request)) : bool :=
  match l with
  | [] => true
  | (_, Created _) :: l' => all_created l'
  | _ :: _ => false
  end.

(** Modelled from the spec: the requests run one after the other, each
    one whole ([create_scene]): the store after them and what became of
    each request. *)
Fixpoint serial_run (project : uuid) (d : db) (args : list create_args)
  : db * list (create_args * request) :=
  match args with
  | [] => (d, [])
  | a :: args' =>
      match allocate project d with
      | Err e =>
          let (d', rs) := serial_run project d args' in
          (d', (a, Failed e) :: rs)
      | Ok o =>
          match insert_new_scene project a o d with
          | Err e =>
              let (d', rs) := serial_run project d args' in
              (d', (a, Failed e) :: rs)
          | Ok d1 =>
              let (d', rs) := serial_run project d1 args' in
              (d', (a, Created o) :: rs)
          end
      end
  end.

End Engine.

(* ------------------------------------------------------------------ *)
(** ** Scene lifecycle, job tracking and version store *)

Module Lifecycle.
Import Sql.
Import Schema.
Import Engine.

(** Timestamps count microseconds; the documented undo window of a
    delete is 10 seconds (README, "Ctrl+Z - Undo last delete (10s
    window)"). *)
Definition undo_window : Z := 10000000.

Definition is_null {A} (v : option A) : bool :=
  match v with None => true | Some _ => false end.

Definition status_is (st : scene_status.t) (r : scenes.row) : bool :=
  match scenes.status r with
  | Some s => scene_status.eqb s st
  | None => false
  end.

(** The scene [sid], not soft-deleted. *)
Definition live (sid : uuid) (r : scenes.row) : bool :=
  N.eqb (scenes.id r) sid && is_null (scenes.deleted_at r).

(** [SET status, luma_job_id, luma_status, luma_error] *)
Definition with_job (st : scene_status.t) (job : option string)
    (ls : luma_status.t) (err : option string) (r : scenes.row)
  : scenes.row := {|
  scenes.id := scenes.id r; scenes.user_id := scenes.user_id r;
  scenes.project_id := scenes.project_id r;
  scenes.folder := scenes.folder r;
  scenes.start_key := scenes.start_key r;
  scenes.end_key := scenes.end_key r;
  scenes.shot_type_id := scenes.shot_type_id r;
  scenes.ordinal := scenes.ordinal r;
  scenes.version := scenes.version r;
  scenes.start_frame_signed_url := scenes.start_frame_signed_url r;
  scenes.end_frame_signed_url := scenes.end_frame_signed_url r;
  scenes.signed_url_expires_at := scenes.signed_url_expires_at r;
  scenes.luma_job_id := job;
  scenes.luma_status := Some ls;
  scenes.luma_error := err;
  scenes.status := Some st;
  scenes.deleted_at := scenes.deleted_at r;
  scenes.created_at := scenes.created_at r;
  scenes.updated_at := scenes.updated_at r
|}.

(** [SET version] *)
Definition with_version (v : Z) (r : scenes.row) : scenes.row := {|
  scenes.id := scenes.id r; scenes.user_id := scenes.user_id r;
  scenes.project_id := scenes.project_id r;
  scenes.folder := scenes.folder r;
  scenes.start_key := scenes.start_key r;
  scenes.end_key := scenes.end_key r;
  scenes.shot_type_id := scenes.shot_type_id r;
  scenes.ordinal := scenes.ordinal r;
  scenes.version := Some v;
  scenes.start_frame_signed_url := scenes.start_frame_signed_url r;
  scenes.end_frame_signed_url := scenes.end_frame_signed_url r;
  scenes.signed_url_expires_at := scenes.signed_url_expires_at r;
  scenes.luma_job_id := scenes.luma_job_id r;
  scenes.luma_status := scenes.luma_status r;
  scenes.luma_error := scenes.luma_error r;
  scenes.status := scenes.status r;
  scenes.deleted_at := scenes.deleted_at r;
  scenes.created_at := scenes.created_at r;
  scenes.updated_at := scenes.updated_at r
|}.

(** [SET deleted_at] *)
Definition with_deleted_at (t : option timestamptz) (r : scenes.row)
  : scenes.row := {|
  scenes.id := scenes.id r; scenes.user_id := scenes.user_id r;
  scenes.project_id := scenes.project_id r;
  scenes.folder := scenes.folder r;
  scenes.start_key := scenes.start_key r;
  scenes.end_key := scenes.end_key r;
  scenes.shot_type_id := scenes.shot_type_id r;
  scenes.ordinal := scenes.ordinal r;
  scenes.version := scenes.version r;
  scenes.start_frame_signed_url := scenes.start_frame_signed_url r;
  scenes.end_frame_signed_url := scenes.end_frame_signed_url r;
  scenes.signed_url_expires_at := scenes.signed_url_expires_at r;
  scenes.luma_job_id := scenes.luma_job_id r;
  scenes.luma_status := scenes.luma_status r;
  scenes.luma_error := scenes.luma_error r;
  scenes.status := scenes.status r;
  scenes.deleted_at := t;
  scenes.created_at := scenes.created_at r;
  scenes.updated_at := scenes.updated_at r
|}.

(** Modelled from the spec: a lifecycle transition of section 4.3 is a
    compare-and-set. No scene [sid] is a [NotFoundError] (section 7), a
    scene in another state than the expected one is a [ConflictError];
    otherwise the row is updated in the store. The statements run with
    the service role. *)
Definition transition (NOW : timestamptz) (d : db)
    (sid : uuid) (expected : scenes.row -> bool)
    (set : scenes.row -> scenes.row) : outcome :=
  match select_scenes service_role d (live sid) with
  | Err e => Rejected (StoreError e)
  | Ok [] => Rejected NotFoundError
  | Ok (_ :: _) =>
      match select_scenes service_role d
              (fun r => live sid r && expected r) with
      | Err e => Rejected (StoreError e)
      | Ok [] => Rejected ConflictError
      | Ok (_ :: _) =>
          of_result
            (update_scenes service_role NOW d
               (fun r => live sid r && expected r) set)
      end
  end.

(** Modelled from the spec: Job Tracker [submit] (section 4.4): queued to
    processing, "sets external-job status=pending and scene
    status=processing", and records the job id. *)
Definition submit (sid : uuid) (job : string) (NOW : timestamptz) (d : db)
  : outcome :=
  transition NOW d sid (status_is scene_status.queued)
    (fun r => with_job scene_status.processing (Some job)
                luma_status.pending (scenes.luma_error r) r).

(** Modelled from the spec: processing to error (sections 4.3, 4.4), "the
    scene transitions to error with the last failure reason recorded". *)
Definition observe_failed (sid : uuid) (reason : string)
    (NOW : timestamptz) (d : db) : outcome :=
  transition NOW d sid (status_is scene_status.processing)
    (fun r => with_job scene_status.error (scenes.luma_job_id r)
                luma_status.failed (Some reason) r).

(** The version records of scene [sid], and their number. *)
Definition versions_of (sid : uuid) (d : db) : list scene_versions.row :=
  filter (fun v => N.eqb (scene_versions.scene_id v) sid)
         (tbl_scene_versions d).

Definition version_count (sid : uuid) (d : db) : Z :=
  Z.of_nat (List.length (versions_of sid d)).

(** Modelled from the spec: Version Store [append] (section 4.5) coupled
    with processing to ready (section 4.3): "checks that the scene's
    current version count equals expectedPriorVersion, inserts a new
    version record at expectedPriorVersion + 1, and advances the scene's
    version counter in the same atomic unit"; a mismatch is a
    [ConflictError]. A failing step leaves the store as it was. *)
Definition observe_completed (sid : uuid) (expectedPriorVersion : Z)
    (mediaRef : option string) (meta : option string)
    (gen_random_uuid : uuid) (NOW : timestamptz) (d : db) : outcome :=
  let hit r := live sid r && status_is scene_status.processing r in
  match select_scenes service_role d (live sid) with
  | Err e => Rejected (StoreError e)
  | Ok [] => Rejected NotFoundError
  | Ok (_ :: _) =>
      match select_scenes service_role d hit with
      | Err e => Rejected (StoreError e)
      | Ok [] => Rejected ConflictError
      | Ok (_ :: _) =>
          if negb (Z.eqb (version_count sid d) expectedPriorVersion)
          then Rejected ConflictError
          else
            match insert_scene_version service_role d
                    {| scene_versions.id := gen_random_uuid;
                       scene_versions.scene_id := sid;
                       scene_versions.version := expectedPriorVersion + 1;
                       scene_versions.video_url := mediaRef;
                       scene_versions.render_meta := meta;
                       scene_versions.created_at := Some NOW |} with
            | Err e => Rejected (StoreError e)
            | Ok d1 =>
                of_result
                  (update_scenes service_role NOW d1 hit
                     (fun r =>
                        with_version (expectedPriorVersion + 1)
                          (with_job scene_status.ready
                             (scenes.luma_job_id r) luma_status.completed
                             (scenes.luma_error r) r)))
            end
      end
  end.

(** Modelled from the spec: regenerate (sections 4.3, 4.6): error or
    ready to queued, "resets external-job fields, does not change version
    number until success". *)
Definition regenerate (sid : uuid) (NOW : timestamptz) (d : db)
  : outcome :=
  transition NOW d sid
    (fun r => status_is scene_status.ready r
              || status_is scene_status.error r)
    (fun r => with_job scene_status.queued None luma_status.pending None r).

(** Modelled from the spec: delete (sections 4.3, 4.6): any state to
    soft-deleted; the undo window starts. *)
Definition soft_delete (sid : uuid) (NOW : timestamptz) (d : db)
  : outcome :=
  transition NOW d sid (fun _ => true) (with_deleted_at (Some NOW)).

Definition deleted_within (sid : uuid) (NOW : timestamptz)
    (r : scenes.row) : bool :=
  N.eqb (scenes.id r) sid &&
  match scenes.deleted_at r with
  | Some t => NOW - t <=? undo_window
  | None => false
  end.

Definition deleted_beyond (sid : uuid) (NOW : timestamptz)
    (r : scenes.row) : bool :=
  N.eqb (scenes.id r) sid &&
  match scenes.deleted_at r with
  | Some t => negb (NOW - t <=? undo_window)
  | None => false
  end.

(** Modelled from the spec: restore within the undo window (sections 5,
    8.6); after the window it fails with [NotFoundError]. *)
Definition restore (sid : uuid) (NOW : timestamptz) (d : db) : outcome :=
  match select_scenes service_role d (deleted_within sid NOW) with
  | Err e => Rejected (StoreError e)
  | Ok [] => Rejected NotFoundError
  | Ok (_ :: _) =>
      of_result
        (update_scenes service_role NOW d
           (deleted_within sid NOW) (with_deleted_at None))
  end.

(** Modelled from the spec: after the window, "cascade-delete scene + all
    versions" (section 4.6). *)
Definition purge (sid : uuid) (NOW : timestamptz) (d : db) : outcome :=
  of_result (delete_scenes service_role d (deleted_beyond sid NOW)).

(** Modelled from the spec: the operations of the Orchestration Facade
    (section 4.6), the Job Tracker (section 4.4) and the scheduled hard
    delete (section 9), with the values they read from their
    environment. *)
Inductive op :=
| Create (project : uuid) (a : create_args)
| Submit (sid : uuid) (job : string) (NOW : timestamptz)
| ObserveCompleted (sid : uuid) (expectedPriorVersion : Z)
    (mediaRef meta : option string) (gen_random_uuid : uuid)
    (NOW : timestamptz)
| ObserveFailed (sid : uuid) (reason : string) (NOW : timestamptz)
| Regenerate (caller sid : uuid) (NOW : timestamptz)
| Delete (caller sid : uuid) (NOW : timestamptz)
| Restore (caller sid : uuid) (NOW : timestamptz)
| Purge (sid : uuid) (NOW : timestamptz).

(** The caller on whose behalf an operation runs; the Job Tracker and
    the scheduled hard delete run for none. *)
Definition caller_of (o : op) : option uuid :=
  match o with
  | Create _ a => Some (a_user a)
  | Regenerate caller _ _ => Some caller
  | Delete caller _ _ => Some caller
  | Restore caller _ _ => Some caller
  | Submit _ _ _ => None
  | ObserveCompleted _ _ _ _ _ _ => None
  | ObserveFailed _ _ _ => None
  | Purge _ _ => None
  end.

(** Modelled from the spec: what an operation does to the store once it
    is admitted. *)
Definition perform (o : op) (d : db) : outcome :=
  match o with
  | Create project a =>
      match create_scene project a d with
      | Ok (_, d') => Done d'
      | Err e => Rejected (StoreError e)
      end
  | Submit sid job NOW => submit sid job NOW d
  | ObserveCompleted sid prior mediaRef meta vid NOW =>
      observe_completed sid prior mediaRef meta vid NOW d
  | ObserveFailed sid reason NOW => observe_failed sid reason NOW d
  | Regenerate _ sid NOW => regenerate sid NOW d
  | Delete _ sid NOW => soft_delete sid NOW d
  | Restore _ sid NOW => restore sid NOW d
  | Purge sid NOW => purge sid NOW d
  end.

(** Modelled from the spec: "the Facade rejects all operations for a
    caller not in active status" (section 6); the status is the one of
    the caller's profile row, active being ['approved']. *)
Definition exec (o : op) (d : db) : outcome :=
  match caller_of o with
  | Some caller =>
      if approved_profile_exists d caller then perform o d
      else Rejected CallerNotActive
  | None => perform o d
  end.

(** Modelled from the spec: a rejected operation leaves the store as it
    was ("rejected before any state mutation", section 7). *)
Definition apply (d : db) (o : op) : db :=
  match exec o d with Done d' => d' | Rejected _ => d end.

(** Modelled from the spec: the store after a sequence of operations. *)
Definition run (ops : list op) (d : db) : db := fold_left apply ops d.

(** A store with its user profiles, projects and shot types and no scene
    yet. *)
Definition fresh (ps : list profiles.row) (pjs : list projects.row)
    (sts : list shot_types.row) : db :=
  {| tbl_profiles := ps; tbl_projects := pjs; tbl_shot_types := sts;
     tbl_scenes := []; tbl_scene_versions := [] |}.

End Lifecycle.


(* ------------------------------------------------------------------ *)
(** ** Notions the statements about the schema use *)

Module SchemaSpec.
Import Sql.
Import Schema.

(** The ordinals [next_scene_ordinal] looks at: those of every row of
    the project. *)
Definition project_ordinals (d : db) (p : uuid) : list Z :=
  map scenes.ordinal
      (filter (fun r => N.eqb (scenes.project_id r) p) (tbl_scenes d)).

(** The ordinals of the scenes of the project that are not soft-deleted. *)
Definition non_deleted_ordinals (d : db) (p : uuid) : list Z :=
  map scenes.ordinal
      (filter (fun r => N.eqb (scenes.project_id r) p
                        && match scenes.deleted_at r with
                           | None => true
                           | Some _ => false
                           end)
              (tbl_scenes d)).

(** The value [COALESCE(MAX(ordinal), 0)] takes for the project. *)
Definition highest_ordinal (d : db) (p : uuid) : Z :=
  COALESCE (MAX (project_ordinals d p)) 0.

(** [m] is the maximum of [l]. *)
Definition is_max (m : Z) (l : list Z) : Prop :=
  In m l /\ forall x, In x l -> x <= m.

End SchemaSpec.

(* ------------------------------------------------------------------ *)
(** ** Notions the statements about the lifecycle use *)

Module LifecycleSpec.
Import Schema.
Import Lifecycle.

(** The version record [observe_completed] appends. *)
Definition appended (sid : uuid) (prior : Z) (mediaRef meta : option string)
    (vid : uuid) (NOW : timestamptz) : scene_versions.row :=
  {| scene_versions.id := vid;
     scene_versions.scene_id := sid;
     scene_versions.version := prior + 1;
     scene_versions.video_url := mediaRef;
     scene_versions.render_meta := meta;
     scene_versions.created_at := Some NOW |}.

(** The version numbers are 1, 2, ..., in the order of the records. *)
Definition gapless (vs : list scene_versions.row) : Prop :=
  map scene_versions.version vs = map Z.of_nat (seq 1 (List.length vs)).

(** The scene's counter is the number of its version records, and 1
    while it has none. *)
Definition counter_matches (d : db) (s : scenes.row) : Prop :=
  scenes.version s
  = Some (Z.max 1 (Z.of_nat (List.length (versions_of (scenes.id s) d)))).

(** Keys are unique, every version record belongs to a scene, and every
    scene has a gapless version log that its counter matches. *)
Definition store_ok (d : db) : Prop :=
  NoDup (scene_ids d)
  /\ (forall v, In v (tbl_scene_versions d) ->
        In (scene_versions.scene_id v) (scene_ids d))
  /\ (forall s, In s (tbl_scenes d) ->
        gapless (versions_of (scenes.id s) d) /\ counter_matches d s).

End LifecycleSpec.

(* ------------------------------------------------------------------ *)
(** ** The statements of the specification that do not hold as written *)

Module Stated.
Import Sql.
Import Schema.
Import SchemaSpec.
Import Engine.
Import Lifecycle.
Import LifecycleSpec.

(** "Returns 1 when the project has no non-deleted scenes, and otherwise
    one greater than the maximum ordinal of the project's non-deleted
    scenes." *)
Definition next_ordinal_over_non_deleted : Prop :=
  forall d p,
    (non_deleted_ordinals d p = [] -> next_scene_ordinal d p = Ok 1)
    /\ (forall m, is_max m (non_deleted_ordinals d p) ->
          next_scene_ordinal d p = Ok (m + 1)).

(** "For any N concurrent create-scene requests the ordinals assigned to
    the resulting scenes are pairwise distinct, regardless of how the
    requests interleave." *)
Definition distinct_ordinals_under_any_interleaving : Prop :=
  forall project d args schedule,
    NoDup (created_ordinals
             (requests (run_schedule project schedule
                          (initial_world d args)))).

(** "The version records of a scene form the sequence 1, 2, ..., current
    version." *)
Definition version_log_up_to_current : Prop :=
  forall ps pjs sts ops s,
    In s (tbl_scenes (run ops (fresh ps pjs sts))) ->
    exists current,
      scenes.version s = Some current
      /\ map scene_versions.version
             (versions_of (scenes.id s) (run ops (fresh ps pjs sts)))
         = map Z.of_nat (seq 1 (Z.to_nat current)).


End Stated.

(* ------------------------------------------------------------------ *)
(** ** Concrete states the statements are instantiated at *)

Module Samples.
Import JS.
Import AppContext.
Import Settings.
Import Sql.
Import Schema.

(** A state with two notifications. *)
Definition sample_notification (i : Z) (r : bool) : Notification :=
  {| id := toString i; type := info; title := lit "t";
     message := lit "m"; timestamp := i; read := r |}.

Definition sample_state : AppState :=
  set_notifications initialState
    [sample_notification 1700000000001 false;
     sample_notification 1700000000002 false].

Definition sample_key : jsstring := lit "luma-abc123".

Definition sample_profile : Profile := {|
  profile_id := lit "u1"; profile_email := lit "jo@example.com";
  profile_role := lit "user"; profile_status := lit "approved";
  luma_api_key := None;
  profile_created_at := lit "2024-01-01T00:00:00.000Z";
  profile_updated_at := lit "2024-01-01T00:00:00.000Z" |}.

Definition sample_settings : State := {|
  st_user := Some {| user_id := lit "u1";
                     user_email := Some (lit "jo@example.com") |};
  st_profile := Some sample_profile;
  st_saving := false;
  st_formData := {| lumaApiKey := sample_key; newPassword := [];
                    confirmPassword := [] |} |}.

Definition sample_iso : jsstring := lit "2024-06-01T12:00:00.000Z".

(** The only scene of project 7, soft-deleted, with ordinal 5. *)
Definition deleted_scene : scenes.row := {|
  scenes.id := 1%N; scenes.user_id := 10%N; scenes.project_id := 7%N;
  scenes.folder := "f"; scenes.start_key := "a.jpeg";
  scenes.end_key := None; scenes.shot_type_id := 3%N;
  scenes.ordinal := 5; scenes.version := Some 1;
  scenes.start_frame_signed_url := None;
  scenes.end_frame_signed_url := None;
  scenes.signed_url_expires_at := None;
  scenes.luma_job_id := None;
  scenes.luma_status := Some luma_status.pending;
  scenes.luma_error := None;
  scenes.status := Some scene_status.queued;
  scenes.deleted_at := Some 1700000000000000;
  scenes.created_at := Some 1600000000000000;
  scenes.updated_at := Some 1700000000000000 |}.

(** A store with an approved user, 10, a pending one, 11, a project of
    each, a shot type and no scene; two create-scene requests of the
    approved user. *)
Definition approved_user : profiles.row := {|
  profiles.id := 10%N; profiles.email := "jo@example.com";
  profiles.role := Some user_role.user;
  profiles.status := Some user_status.approved;
  profiles.api_key_hash := None;
  profiles.created_at := Some 1500000000000000;
  profiles.updated_at := Some 1500000000000000 |}.

Definition pending_user : profiles.row := {|
  profiles.id := 11%N; profiles.email := "al@example.com";
  profiles.role := Some user_role.user;
  profiles.status := Some user_status.pending;
  profiles.api_key_hash := None;
  profiles.created_at := Some 1500000000000000;
  profiles.updated_at := Some 1500000000000000 |}.

Definition project_7 : projects.row := {|
  projects.id := 7%N; projects.owner_id := 10%N;
  projects.name := "shoot"; projects.description := None;
  projects.created_at := Some 1500000000000001;
  projects.updated_at := Some 1500000000000001 |}.

Definition project_8 : projects.row := {|
  projects.id := 8%N; projects.owner_id := 11%N;
  projects.name := "trip"; projects.description := None;
  projects.created_at := Some 1500000000000002;
  projects.updated_at := Some 1500000000000002 |}.

Definition wide_shot : shot_types.row := {|
  shot_types.id := 3%N; shot_types.owner_id := 10%N;
  shot_types.name := "Wide Shot";
  shot_types.prompt_template
    := "Cinematic wide shot with dramatic lighting";
  shot_types.is_default := Some true;
  shot_types.created_at := Some 1500000000000003;
  shot_types.updated_at := Some 1500000000000003 |}.

Definition db_with_deleted_scene : db :=
  {| tbl_profiles := [approved_user]; tbl_projects := [project_7];
     tbl_shot_types := [wide_shot];
     tbl_scenes := [deleted_scene]; tbl_scene_versions := [] |}.

Definition empty_store : db :=
  {| tbl_profiles := [approved_user; pending_user];
     tbl_projects := [project_7; project_8];
     tbl_shot_types := [wide_shot];
     tbl_scenes := []; tbl_scene_versions := [] |}.

Definition request_a : Engine.create_args := {|
  Engine.a_user := 10%N; Engine.a_folder := "shoot";
  Engine.a_start_key := "shoot1.jpeg";
  Engine.a_end_key := Some "shoot2.jpeg"%string;
  Engine.a_shot_type_id := 3%N;
  Engine.a_gen_random_uuid := 101%N;
  Engine.a_NOW := 1700000000000000 |}.

Definition request_b : Engine.create_args := {|
  Engine.a_user := 10%N; Engine.a_folder := "shoot";
  Engine.a_start_key := "shoot3.jpeg";
  Engine.a_end_key := Some "shoot4.jpeg"%string;
  Engine.a_shot_type_id := 3%N;
  Engine.a_gen_random_uuid := 102%N;
  Engine.a_NOW := 1700000000000001 |}.

(** The scenario of the spec, section 8: create, submit, completion
    with "m1", regenerate, submit, completion with "m2". *)
Definition two_versions : list Lifecycle.op :=
  [ Lifecycle.Create 7%N request_a;
    Lifecycle.Submit 101%N "job1" 1700000000000005;
    Lifecycle.ObserveCompleted 101%N 0 (Some "m1"%string) None 900%N
      1700000000000006;
    Lifecycle.Regenerate 10%N 101%N 1700000000000007;
    Lifecycle.Submit 101%N "job2" 1700000000000008;
    Lifecycle.ObserveCompleted 101%N 1 (Some "m2"%string) None 901%N
      1700000000000009 ].

Definition scene_with_two_versions : scenes.row :=
  Eval vm_compute in
    hd deleted_scene
       (tbl_scenes (Lifecycle.run two_versions empty_store)).

(** A second scene, 102, gets one version and is deleted; the scheduled
    hard delete comes after the undo window. *)
Definition second_scene_deleted : list Lifecycle.op :=
  two_versions ++
  [ Lifecycle.Create 7%N request_b;
    Lifecycle.Submit 102%N "job3" 1700000000000011;
    Lifecycle.ObserveCompleted 102%N 0 (Some "n1"%string) None 903%N
      1700000000000012;
    Lifecycle.Delete 10%N 102%N 1700000000000020 ].

Definition purge_second_scene : Lifecycle.op :=
  Lifecycle.Purge 102%N 1700000010000021.

Definition scene_just_created : scenes.row :=
  Eval vm_compute in
    hd deleted_scene
       (tbl_scenes (Lifecycle.run [Lifecycle.Create 7%N request_a]
                      empty_store)).



(** A store in which the pending user 11 owns a scene. *)
Definition scene_of_pending_user : scenes.row :=
  scenes.with_defaults 104%N 1700000000000000 {|
    scenes.i_id := DEFAULT;
    scenes.i_user_id := 11%N;
    scenes.i_project_id := 8%N;
    scenes.i_folder := "trip";
    scenes.i_start_key := "trip1.jpeg";
    scenes.i_end_key := DEFAULT;
    scenes.i_shot_type_id := 3%N;
    scenes.i_ordinal := 1;
    scenes.i_version := DEFAULT;
    scenes.i_start_frame_signed_url := DEFAULT;
    scenes.i_end_frame_signed_url := DEFAULT;
    scenes.i_signed_url_expires_at := DEFAULT;
    scenes.i_luma_job_id := DEFAULT;
    scenes.i_luma_status := DEFAULT;
    scenes.i_luma_error := DEFAULT;
    scenes.i_status := DEFAULT;
    scenes.i_deleted_at := DEFAULT;
    scenes.i_created_at := DEFAULT;
    scenes.i_updated_at := DEFAULT
  |}.

Definition store_of_pending_user : db :=
  {| tbl_profiles := [approved_user; pending_user];
     tbl_projects := [project_7; project_8];
     tbl_shot_types := [wide_shot];
     tbl_scenes := [scene_of_pending_user];
     tbl_scene_versions := [] |}.

End Samples.

From Stdlib Require DecimalZ DecimalFacts.

(* ------------------------------------------------------------------ *)
(** ** Notions the statements about the reducer use *)

Module AppContextSpec.
Import JS.
Import AppContext.

(** A run of [ADD_NOTIFICATION] dispatches, each under its clock. *)
Definition add_all (adds : list (Clock * NotificationPayload))
  : list (Clock * AppAction) :=
  map (fun cp => (fst cp, ADD_NOTIFICATION (snd cp))) adds.

(** The notifications those dispatches make, the last one first. *)
Definition added (adds : list (Clock * NotificationPayload))
  : list Notification :=
  rev (map (fun cp => newNotification (fst cp) (snd cp)) adds).

(** What [MARK_NOTIFICATION_READ] does to one notification. *)
Definition mark (nid : jsstring) (n : Notification) : Notification :=
  if strict_eq (id n) nid then mark_read n else n.

(** [{ ...q1, ...q2 }] on two partial preference objects. *)
Definition spread_partial (q1 q2 : PartialPreferences)
  : PartialPreferences := {|
  p_autoSave :=
    match p_autoSave q2 with Some v => Some v | None => p_autoSave q1 end;
  p_emailNotifications :=
    match p_emailNotifications q2 with
    | Some v => Some v
    | None => p_emailNotifications q1
    end;
  p_keyboardShortcuts :=
    match p_keyboardShortcuts q2 with
    | Some v => Some v
    | None => p_keyboardShortcuts q1
    end;
  p_defaultShotType :=
    match p_defaultShotType q2 with
    | Some v => Some v
    | None => p_defaultShotType q1
    end;
  p_exportFormat :=
    match p_exportFormat q2 with
    | Some v => Some v
    | None => p_exportFormat q1
    end;
  p_quality :=
    match p_quality q2 with Some v => Some v | None => p_quality q1 end
|}.

(** The payload [{}]. *)
Definition no_preferences : PartialPreferences :=
  {| p_autoSave := None; p_emailNotifications := None;
     p_keyboardShortcuts := None; p_defaultShotType := None;
     p_exportFormat := None; p_quality := None |}.

Definition is_reset (a : AppAction) : bool :=
  match a with RESET_STATE => true | _ => false end.

Definition is_toggle (a : AppAction) : bool :=
  match a with TOGGLE_SIDEBAR => true | _ => false end.

Definition sets_theme (a : AppAction) : bool :=
  match a with SET_THEME _ | RESET_STATE => true | _ => false end.

Definition sets_preferences (a : AppAction) : bool :=
  match a with UPDATE_PREFERENCES _ | RESET_STATE => true | _ => false end.

Definition sets_user (a : AppAction) : bool :=
  match a with SET_USER _ | RESET_STATE => true | _ => false end.

Definition sets_profile (a : AppAction) : bool :=
  match a with SET_PROFILE _ | RESET_STATE => true | _ => false end.

(** The number of actions of a kind in a run of dispatches. *)
Definition count_actions (f : AppAction -> bool)
    (acts : list (Clock * AppAction)) : nat :=
  List.length (filter (fun ca => f (snd ca)) acts).

Definition none_of (f : AppAction -> bool)
    (acts : list (Clock * AppAction)) : Prop :=
  forall ca, In ca acts -> f (snd ca) = false.

End AppContextSpec.

(* ------------------------------------------------------------------ *)
(** ** The settings page: [handleChangePassword] *)

Module SettingsPassword.
Import JS.
Import AppContext.
Import Settings.

(** What the handler leaves behind: the component state, the password
    it sent with [supabase.auth.updateUser({ password })], if any, and
    the toasts it raised. *)
Record Outcome := mkOutcome {
  out_state : State;
  out_password : option jsstring;
  out_toasts : list Toast
}.

(** [setFormData(prev => ({ ...prev, newPassword: "",
                             confirmPassword: "" }))] *)
Definition clear_passwords (s : State) : State :=
  {| st_user := st_user s; st_profile := st_profile s;
     st_saving := st_saving s;
     st_formData := {| lumaApiKey := lumaApiKey (st_formData s);
                       newPassword := [];
                       confirmPassword := [] |} |}.

(** [handleChangePassword]. [respond] is the answer of the hosted
    authentication service to the request. *)
Definition handleChangePassword (respond : jsstring -> Response)
    (s : State) : Outcome :=
  if negb (strict_eq (newPassword (st_formData s))
                     (confirmPassword (st_formData s))) then
    {| out_state := s; out_password := None;
       out_toasts := [toast_error (lit "Passwords don't match")] |}
  else if (List.length (newPassword (st_formData s)) <? 6)%nat then
    {| out_state := s; out_password := None;
       out_toasts :=
         [toast_error (lit "Password must be at least 6 characters")] |}
  else
    match respond (newPassword (st_formData s)) with
    | resolved_error =>
        {| out_state := setSaving false (setSaving true s);
           out_password := Some (newPassword (st_formData s));
           out_toasts := [toast_error (lit "Failed to update password")] |}
    | resolved_ok =>
        {| out_state :=
             setSaving false (clear_passwords (setSaving true s));
           out_password := Some (newPassword (st_formData s));
           out_toasts :=
             [toast_success (lit "Password updated successfully")] |}
    | rejected =>
        {| out_state := setSaving false (setSaving true s);
           out_password := Some (newPassword (st_formData s));
           out_toasts := [toast_error (lit "An error occurred")] |}
    end.

End SettingsPassword.

(* ------------------------------------------------------------------ *)
(** ** More JavaScript built-ins: [includes] and [join] *)

Module JSArrays.
Import JS.

(** [s.startsWith(t)] *)
Fixpoint startsWith (s t : jsstring) : bool :=
  match t, s with
  | [], _ => true
  | x :: t', y :: s' => N.eqb x y && startsWith s' t'
  | _ :: _, [] => false
  end.

(** [s.includes(t)]: [t] occurs in [s] at some position. *)
Fixpoint includes (s t : jsstring) : bool :=
  startsWith s t
  || match s with
     | [] => false
     | _ :: s' => includes s' t
     end.

(** [toLowerCase] on the ASCII range: [A]..[Z] map to [a]..[z], every
    other code unit below 128 is unchanged. *)
Definition toLowerCase_ascii (s : jsstring) : jsstring :=
  map (fun c => if (N.leb 65 c && N.leb c 90)%N then (c + 32)%N else c) s.

(** [l.join(sep)] on an array of strings. *)
Fixpoint join (sep : jsstring) (l : list jsstring) : jsstring :=
  match l with
  | [] => []
  | [x] => x
  | x :: l' => x ++ sep ++ join sep l'
  end.

(** The number of occurrences of a code unit in a string. *)
Fixpoint occurrences (c : N) (s : jsstring) : nat :=
  match s with
  | [] => O
  | x :: s' => (if N.eqb x c then 1 else 0) + occurrences c s'
  end.

End JSArrays.

(* ------------------------------------------------------------------ *)
(** ** The admin page: statistics, search and the users export *)

Module Admin.
Import JS.
Import JSArrays.
Import AppContext.

Record SystemStats := mkStats {
  totalUsers : nat;
  activeUsers : nat;
  pendingUsers : nat;
  totalScenes : nat;
  totalProjects : nat;
  storageUsed : nat
}.

(** What an awaited [select] yields: [{ data }] with [data] an array or
    [null], or a rejected promise. *)
Inductive Fetched (A : Type) :=
| fetched (data : option (list A))
| threw.
Arguments fetched {A} data.
Arguments threw {A}.

(** [data?.length || 0] *)
Definition length_or_0 {A} (data : option (list A)) : nat :=
  match data with Some l => List.length l | None => O end.

(** [data?.filter(u => u.status === status).length || 0]; the [status]
    of a row may be [null]. *)
Definition count_status (status : jsstring)
    (data : option (list (option jsstring))) : nat :=
  match data with
  | Some l =>
      List.length
        (filter (fun u => match u with
                          | Some st => strict_eq st status
                          | None => false
                          end) l)
  | None => O
  end.

(** [loadStats]: the statistics passed to [setStats], or [None] when a
    request threw and the [catch] only logged. *)
Definition loadStats (userStats : Fetched (option jsstring))
    (sceneStats projectStats : Fetched jsstring) : option SystemStats :=
  match userStats with
  | threw => None
  | fetched users =>
      match sceneStats with
      | threw => None
      | fetched scenes =>
          match projectStats with
          | threw => None
          | fetched projects =>
              Some {| totalUsers := length_or_0 users;
                      activeUsers := count_status (lit "approved") users;
                      pendingUsers := count_status (lit "pending") users;
                      totalScenes := length_or_0 scenes;
                      totalProjects := length_or_0 projects;
                      storageUsed := 0 |}
          end
      end
  end.

(** [filteredUsers]. [toLowerCase] is the engine's Unicode conversion,
    taken as an argument. *)
Definition filteredUsers (toLowerCase : jsstring -> jsstring)
    (users : list Profile) (searchTerm : jsstring) : list Profile :=
  filter (fun user =>
            includes (toLowerCase (profile_email user))
                     (toLowerCase searchTerm)
            || includes (toLowerCase (profile_role user))
                        (toLowerCase searchTerm)
            || includes (toLowerCase (profile_status user))
                        (toLowerCase searchTerm))
         users.

Definition comma : N := 44%N.
Definition newline : N := 10%N.

(** The header row of the export. *)
Definition csvHeader : list jsstring :=
  [lit "Email"; lit "Role"; lit "Status"; lit "Created At";
   lit "Updated At"].

(** The row of one user; [toLocaleDateString] is
    [new Date(x).toLocaleDateString()], which depends on the locale and
    the time zone of the browser. *)
Definition csvRow (toLocaleDateString : jsstring -> jsstring)
    (user : Profile) : list jsstring :=
  [profile_email user; profile_role user; profile_status user;
   toLocaleDateString (profile_created_at user);
   toLocaleDateString (profile_updated_at user)].

(** [csvContent] of [handleExportUsers]:
    [[header, ...users.map(row)].map(row => row.join(",")).join("\n")]. *)
Definition csvContent (toLocaleDateString : jsstring -> jsstring)
    (users : list Profile) : jsstring :=
  join [newline]
       (map (join [comma])
            (csvHeader :: map (csvRow toLocaleDateString) users)).

End Admin.

(* ------------------------------------------------------------------ *)
(** ** README.md: the sign-up trigger, and notions about the tables *)

Module SchemaTriggers.
Import Sql.
Import Schema.

(** What can stop the insert of [handle_new_user]. *)
Inductive new_user_error :=
| profile_exists       (* 23505 on profiles_pkey *)
| email_is_null.       (* 23502 on profiles.email *)

(** [public.handle_new_user()], run by the trigger
    [on_auth_user_created] after an insert on [auth.users]:
    [INSERT INTO public.profiles (id, email, role, status)
     VALUES (NEW.id, NEW.email, 'user', 'pending')].
    The other columns take their defaults; [NEW.email] may be NULL. The
    function is [SECURITY DEFINER]: the insert is not subject to
    row-level security. *)
Definition handle_new_user (NEW_id : uuid) (NEW_email : option string)
    (NOW : timestamptz) (d : db) : db + new_user_error :=
  match NEW_email with
  | None => inr email_is_null
  | Some email =>
      if existsb (fun p => N.eqb (profiles.id p) NEW_id) (tbl_profiles d)
      then inr profile_exists
      else inl (with_profiles d
                  (tbl_profiles d
                   ++ [{| profiles.id := NEW_id;
                          profiles.email := email;
                          profiles.role := Some user_role.user;
                          profiles.status := Some user_status.pending;
                          profiles.api_key_hash := None;
                          profiles.created_at := Some NOW;
                          profiles.updated_at := Some NOW |}]))
  end.

(** The key of [UNIQUE(scene_id, version)]. *)
Definition version_key (v : scene_versions.row) : uuid * Z :=
  (scene_versions.scene_id v, scene_versions.version v).

(** Every version record belongs to a scene of the table. *)
Definition versions_have_scenes (d : db) : Prop :=
  forall v, In v (tbl_scene_versions d) ->
            In (scene_versions.scene_id v) (scene_ids d).


End SchemaTriggers.

(* ------------------------------------------------------------------ *)
(** ** More concrete states *)

Module Samples2.
Import Sql.
Import Schema.

(** A store with one scene, 101, that has the versions 1 and 2. *)
Definition store_with_two_versions : db :=
  Eval vm_compute in Lifecycle.run Samples.two_versions Samples.empty_store.

(** [SET updated_at = 0, folder = 'reshoot'] *)
Definition set_folder (r : scenes.row) : scenes.row := {|
  scenes.id := scenes.id r; scenes.user_id := scenes.user_id r;
  scenes.project_id := scenes.project_id r;
  scenes.folder := "reshoot";
  scenes.start_key := scenes.start_key r;
  scenes.end_key := scenes.end_key r;
  scenes.shot_type_id := scenes.shot_type_id r;
  scenes.ordinal := scenes.ordinal r;
  scenes.version := scenes.version r;
  scenes.start_frame_signed_url := scenes.start_frame_signed_url r;
  scenes.end_frame_signed_url := scenes.end_frame_signed_url r;
  scenes.signed_url_expires_at := scenes.signed_url_expires_at r;
  scenes.luma_job_id := scenes.luma_job_id r;
  scenes.luma_status := scenes.luma_status r;
  scenes.luma_error := scenes.luma_error r;
  scenes.status := scenes.status r;
  scenes.deleted_at := scenes.deleted_at r;
  scenes.created_at := scenes.created_at r;
  scenes.updated_at := Some 0
|}.

Definition third_version : scene_versions.row :=
  {| scene_versions.id := 902%N;
     scene_versions.scene_id := 101%N;
     scene_versions.version := 3;
     scene_versions.video_url := Some "m3"%string;
     scene_versions.render_meta := None;
     scene_versions.created_at := Some 1700000000000020 |}.

End Samples2.

(* ------------------------------------------------------------------ *)
(** ** src/hooks/useAnalytics.ts *)

Module Analytics.
Import JS.

(** The values of type [any] that travel in the event properties, with
    the ways the hooks make them: from a string, a number, a boolean, an
    array of strings, and [undefined]. *)
Class Values := {
  any : Type;
  number : Type;
  of_string : jsstring -> any;
  of_number : number -> any;
  of_boolean : bool -> any;
  of_strings : list jsstring -> any;
  undefined : any
}.

Section Hooks.

Context {V : Values}.

(** A [Record<string, any>]: its own keys, in order, with their
    values. *)
Definition object := list (jsstring * any).

(** [o[k]], [None] when [o] has no key [k]. *)
Definition get (k : jsstring) (o : object) : option any :=
  option_map snd (find (fun kv => strict_eq (fst kv) k) o).

(** [o[k] = v]: an existing key keeps its place, a new one goes
    last. *)
Fixpoint set (k : jsstring) (v : any) (o : object) : object :=
  match o with
  | [] => [(k, v)]
  | (k', v') :: o' =>
      if strict_eq k' k then (k', v) :: o' else (k', v') :: set k v o'
  end.

(** [{ ...dst, ...src }]; spreading [undefined] adds nothing. *)
Definition spread (src : option object) (dst : object) : object :=
  match src with
  | None => dst
  | Some l => fold_left (fun o kv => set (fst kv) (snd kv) o) l dst
  end.

(** The call [trackEvent(name, properties)] a hook makes. *)
Record Event := mkEvent {
  event_name : jsstring;
  event_properties : object
}.

(** What the hooks read from their environment: [Date.now()] and
    [location.pathname]. *)
Record Env := mkEnv { Date_now : number; pathname : jsstring }.

(** [track]: [trackEvent(eventName, { ...properties,
      timestamp: Date.now(), path: location.pathname })] *)
Definition track (env : Env) (eventName : jsstring)
    (properties : option object) : Event :=
  {| event_name := eventName;
     event_properties :=
       set (lit "path") (of_string (pathname env))
         (set (lit "timestamp") (of_number (Date_now env))
            (spread properties [])) |}.

(** [track('user_action', { action, ...details })] *)
Definition trackUserAction (env : Env) (action : jsstring)
    (details : option object) : Event :=
  track env (lit "user_action")
    (Some (spread details (set (lit "action") (of_string action) []))).

(** [track('feature_usage', { feature, ...details })] *)
Definition trackFeatureUsage (env : Env) (feature : jsstring)
    (details : option object) : Event :=
  track env (lit "feature_usage")
    (Some (spread details (set (lit "feature") (of_string feature) []))).

(** [track('error', { message: error.message, stack: error.stack,
                       ...context })]; [error.stack] may be
    [undefined]. *)
Definition trackError (env : Env) (message : jsstring)
    (stack : option jsstring) (context : option object) : Event :=
  track env (lit "error")
    (Some (spread context
             (set (lit "stack")
                (match stack with
                 | Some s => of_string s
                 | None => undefined
                 end)
                (set (lit "message") (of_string message) [])))).

(** [track('performance', { metric, value, ...details })] *)
Definition trackPerformance (env : Env) (metric : jsstring)
    (value : number) (details : option object) : Event :=
  track env (lit "performance")
    (Some (spread details
             (set (lit "value") (of_number value)
                (set (lit "metric") (of_string metric) [])))).

(** [useFormAnalytics(formName)] *)
Definition trackFormStart (env : Env) (formName : jsstring) : Event :=
  trackUserAction env (lit "form_start")
    (Some (set (lit "form") (of_string formName) [])).

Definition trackFormComplete (env : Env) (formName : jsstring)
    (success : bool) (details : option object) : Event :=
  trackUserAction env (lit "form_complete")
    (Some (spread details
             (set (lit "success") (of_boolean success)
                (set (lit "form") (of_string formName) [])))).

Definition trackFormError (env : Env) (formName : jsstring)
    (error : jsstring) (details : option object) : Event :=
  trackUserAction env (lit "form_error")
    (Some (spread details
             (set (lit "error") (of_string error)
                (set (lit "form") (of_string formName) [])))).

(** [useFileAnalytics()] *)
Definition trackFileUpload (env : Env) (fileCount totalSize : number)
    (fileTypes : list jsstring) : Event :=
  trackFeatureUsage env (lit "file_upload")
    (Some (set (lit "fileTypes") (of_strings fileTypes)
             (set (lit "totalSize") (of_number totalSize)
                (set (lit "fileCount") (of_number fileCount) [])))).

Definition trackFileDownload (env : Env) (fileCount totalSize : number)
  : Event :=
  trackFeatureUsage env (lit "file_download")
    (Some (set (lit "totalSize") (of_number totalSize)
             (set (lit "fileCount") (of_number fileCount) []))).

Definition trackFileDelete (env : Env) (fileCount : number) : Event :=
  trackFeatureUsage env (lit "file_delete")
    (Some (set (lit "fileCount") (of_number fileCount) [])).

(** [useSceneAnalytics()] *)
Definition trackSceneGeneration (env : Env) (shotType : jsstring)
    (frameCount : number) : Event :=
  trackFeatureUsage env (lit "scene_generation")
    (Some (set (lit "frameCount") (of_number frameCount)
             (set (lit "shotType") (of_string shotType) []))).

Definition trackSceneRegeneration (env : Env) (sceneId reason : jsstring)
  : Event :=
  trackFeatureUsage env (lit "scene_regeneration")
    (Some (set (lit "reason") (of_string reason)
             (set (lit "sceneId") (of_string sceneId) []))).

Definition trackSceneExport (env : Env) (sceneCount : number)
    (format : jsstring) : Event :=
  trackFeatureUsage env (lit "scene_export")
    (Some (set (lit "format") (of_string format)
             (set (lit "sceneCount") (of_number sceneCount) []))).

(** The value a key ends with when [details] is spread over a literal
    that gave it [v]. *)
Definition overridden (k : jsstring) (v : any) (details : option object)
  : option any :=
  match details with
  | Some o =>
      match get k o with
      | Some v' => Some v'
      | None => Some v
      end
  | None => Some v
  end.

(** An object names each of its keys once. *)
Definition well_formed (o : option object) : Prop :=
  match o with
  | Some l => NoDup (map fst l)
  | None => True
  end.

End Hooks.

(** Values as integers, strings and so on, to run the hooks on. *)
Inductive sample_value :=
| v_string (s : jsstring)
| v_number (n : Z)
| v_boolean (b : bool)
| v_strings (l : list jsstring)
| v_undefined.

Definition sample_values : Values := {|
  any := sample_value;
  number := Z;
  of_string := v_string;
  of_number := v_number;
  of_boolean := v_boolean;
  of_strings := v_strings;
  undefined := v_undefined
|}.

End Analytics.

(* ------------------------------------------------------------------ *)
(** ** src/contexts/AppContext.tsx: [checkAuth] of [AppProvider] *)

Module AppProvider.
Import JS.
Import AppContext.

(** An awaited call resolves with a value or rejects. *)
Inductive Awaited (A : Type) :=
| resolves (a : A)
| rejects.
Arguments resolves {A} a.
Arguments rejects {A}.

(** [{ data, error }] of [.single()]: the row, or an error. *)
Inductive Single :=
| single_row (data : Profile)
| single_error.

Definition profile_error_notification : NotificationPayload :=
  {| payload_type := error;
     payload_title := lit "Profile Error";
     payload_message := lit "Failed to load user profile" |}.

Definition authentication_error_notification : NotificationPayload :=
  {| payload_type := error;
     payload_title := lit "Authentication Error";
     payload_message := lit "Failed to check authentication status" |}.

(** [checkAuth]: the actions it dispatches, in order. [getSession] is
    what [supabase.auth.getSession()] yields ([None] for no session),
    [loadProfile] what the query of the user's profile yields. *)
Definition checkAuth (getSession : Awaited (option User))
    (loadProfile : User -> Awaited Single) : list AppAction :=
  match getSession with
  | rejects =>
      [ADD_NOTIFICATION authentication_error_notification;
       SET_LOADING false]
  | resolves None => [SET_LOADING false]
  | resolves (Some u) =>
      SET_USER (Some u)
      :: match loadProfile u with
         | rejects =>
             [ADD_NOTIFICATION authentication_error_notification]
         | resolves single_error =>
             [ADD_NOTIFICATION profile_error_notification]
         | resolves (single_row p) => [SET_PROFILE (Some p)]
         end
      ++ [SET_LOADING false]
  end.

(** Whether the check went through: no session, or a session whose
    profile loaded. *)
Definition went_through (getSession : Awaited (option User))
    (loadProfile : User -> Awaited Single) : bool :=
  match getSession with
  | resolves None => true
  | resolves (Some u) =>
      match loadProfile u with
      | resolves (single_row _) => true
      | _ => false
      end
  | rejects => false
  end.

End AppProvider.
(* ================================================================== *)
(** * Theorems *)

(* ------------------------------------------------------------------ *)
(** ** Facts about JavaScript strings *)

Module JSFacts.
Import JS.

Lemma strict_eq_refl (a : jsstring) : strict_eq a a = true.
Proof.
  induction a as [|x a IH]; simpl; [reflexivity|].
  now rewrite N.eqb_refl, IH.
Qed.

Lemma strict_eq_true (a b : jsstring) : strict_eq a b = true <-> a = b.
Proof.
  split.
  - revert b; induction a as [|x a IH]; intros [|y b]; simpl;
      try discriminate; [reflexivity|].
    intros H. apply andb_true_iff in H as [Hx Hab].
    apply N.eqb_eq in Hx. apply IH in Hab. now subst.
  - intros ->. apply strict_eq_refl.
Qed.

Lemma strict_eq_false (a b : jsstring) : strict_eq a b = false <-> a <> b.
Proof.
  rewrite <- strict_eq_true. destruct (strict_eq a b); split;
    intros; try discriminate; try reflexivity; try congruence.
Qed.

(** [split] never returns an empty array. *)
Lemma split_nonempty (sep : N) (s : jsstring) : split sep s <> [].
Proof.
  destruct s as [|c s]; simpl; [discriminate|].
  destruct (N.eqb c sep); [discriminate|].
  destruct (split sep s); discriminate.
Qed.

(** The first piece of [split] is the text before the first separator. *)
Lemma split_head_before (sep : N) (pre post : jsstring) :
  ~ In sep pre ->
  exists ps, split sep (pre ++ sep :: post) = pre :: ps.
Proof.
  induction pre as [|c pre IH]; simpl; intros Hn.
  - rewrite N.eqb_refl. eexists; reflexivity.
  - destruct (N.eqb_spec c sep) as [->|Hc]; [tauto|].
    destruct IH as [ps Hps]; [tauto|].
    rewrite Hps. eexists; reflexivity.
Qed.

(** Without a separator the whole string is the only piece. *)
Lemma split_no_separator (sep : N) (s : jsstring) :
  ~ In sep s -> split sep s = [s].
Proof.
  induction s as [|c s IH]; simpl; intros Hn; [reflexivity|].
  destruct (N.eqb_spec c sep) as [->|Hc]; [tauto|].
  rewrite IH by tauto. reflexivity.
Qed.

End JSFacts.

(* ------------------------------------------------------------------ *)
(** ** The reducer *)

Module AppContextFacts.
Import JS.
Import JSFacts.
Import AppContext.
Import Samples.

Local Open Scope nat_scope.

Lemma appReducer_notifications_length clk s a :
  List.length (notifications (appReducer clk s a))
  <= Nat.max 50 (List.length (notifications s)).
Proof.
  destruct a as [u|p|b|t| |payload|nid| |q| ];
    cbn [appReducer notifications set_notifications initialState];
    try lia.
  - pose proof (firstn_le_length 50
                  (newNotification clk payload :: notifications s)).
    lia.
  - rewrite length_map. lia.
  - cbn [List.length]. lia.
  - cbn [List.length]. lia.
Qed.

Lemma dispatch_all_length acts : forall s,
  List.length (notifications (dispatch_all s acts))
  <= Nat.max 50 (List.length (notifications s)).
Proof.
  unfold dispatch_all.
  induction acts as [|[clk a] acts IH]; intros s;
    cbn [fold_left fst snd]; [lia|].
  specialize (IH (appReducer clk s a)).
  pose proof (appReducer_notifications_length clk s a). lia.
Qed.

Lemma map_mark_nth nid (l : list Notification) i :
  nth_error
    (map (fun n => if strict_eq (id n) nid then mark_read n else n) l) i
  = option_map (fun n => if strict_eq (id n) nid then mark_read n else n)
               (nth_error l i).
Proof. apply nth_error_map. Qed.

Lemma map_mark_absent nid (l : list Notification) :
  (forall n, In n l -> id n <> nid) ->
  map (fun n => if strict_eq (id n) nid then mark_read n else n) l = l.
Proof.
  induction l as [|n l IH]; simpl; intros H; [reflexivity|].
  rewrite IH by auto.
  destruct (strict_eq (id n) nid) eqn:E; [|reflexivity].
  apply strict_eq_true in E. exfalso. apply (H n); auto.
Qed.

(** C8. Along every sequence of dispatched actions the notification list
    holds at most 50 entries: from [initialState] it never exceeds 50,
    and from any state it never exceeds the larger of 50 and its length
    there. [ADD_NOTIFICATION] puts the new notification, with
    [read = false], in front of the list and keeps the first 50 entries,
    that is the new one and the 49 most recent of the old ones. *)
Theorem notifications_at_most_50 :
  (forall acts,
      List.length (notifications (dispatch_all initialState acts)) <= 50)
  /\ (forall s acts,
      List.length (notifications (dispatch_all s acts))
      <= Nat.max 50 (List.length (notifications s)))
  /\ (forall clk s payload,
      let s' := appReducer clk s (ADD_NOTIFICATION payload) in
      notifications s'
      = firstn 50 (newNotification clk payload :: notifications s)
      /\ notifications s'
         = newNotification clk payload :: firstn 49 (notifications s)
      /\ read (newNotification clk payload) = false
      /\ type (newNotification clk payload) = payload_type payload
      /\ title (newNotification clk payload) = payload_title payload
      /\ message (newNotification clk payload) = payload_message payload
      /\ List.length (notifications s') <= 50).
Proof.
  split; [|split].
  - intros acts. pose proof (dispatch_all_length acts initialState) as H.
    cbn [initialState notifications List.length] in H. lia.
  - intros s acts. apply dispatch_all_length.
  - intros clk s payload.
    cbn [appReducer notifications set_notifications newNotification
         read type title message].
    change (firstn 50 (newNotification clk payload :: notifications s))
      with (newNotification clk payload :: firstn 49 (notifications s)).
    repeat split.
    pose proof (firstn_le_length 49 (notifications s)).
    cbn [List.length]. lia.
Qed.

(** C9. [MARK_NOTIFICATION_READ] keeps the length and the order of the
    list: at every position, a notification whose id is the given one
    becomes the same notification with [read = true], any other one is
    left as it is. Every other field of the state is unchanged, and when
    no notification has the given id the whole state is unchanged. *)
Theorem mark_notification_read_frame clk s nid :
  let s' := appReducer clk s (MARK_NOTIFICATION_READ nid) in
  List.length (notifications s') = List.length (notifications s)
  /\ (forall i n, nth_error (notifications s) i = Some n -> id n = nid ->
        exists n', nth_error (notifications s') i = Some n'
                   /\ read n' = true /\ id n' = id n /\ type n' = type n
                   /\ title n' = title n /\ message n' = message n
                   /\ timestamp n' = timestamp n)
  /\ (forall i n, nth_error (notifications s) i = Some n -> id n <> nid ->
        nth_error (notifications s') i = Some n)
  /\ user s' = user s /\ profile s' = profile s
  /\ loading s' = loading s /\ theme s' = theme s
  /\ sidebarOpen s' = sidebarOpen s /\ preferences s' = preferences s
  /\ ((forall n, In n (notifications s) -> id n <> nid) -> s' = s).
Proof.
  simpl. split; [apply length_map|].
  split; [|split].
  - intros i n Hn Hid. rewrite map_mark_nth, Hn. simpl.
    apply strict_eq_true in Hid. rewrite Hid.
    exists (mark_read n). repeat split.
  - intros i n Hn Hid. rewrite map_mark_nth, Hn. simpl.
    apply strict_eq_false in Hid. now rewrite Hid.
  - repeat split.
    intros H. unfold set_notifications. rewrite map_mark_absent by exact H.
    destruct s; reflexivity.
Qed.

Lemma mark_notification_read_frame_witness :
  (exists n', nth_error
                (notifications
                   (appReducer (mkClock 0 0) sample_state
                      (MARK_NOTIFICATION_READ (toString 1700000000002%Z))))
                1 = Some n' /\ read n' = true)
  /\ nth_error
       (notifications
          (appReducer (mkClock 0 0) sample_state
             (MARK_NOTIFICATION_READ (toString 1700000000002%Z)))) 0
     = Some (sample_notification 1700000000001 false)
  /\ appReducer (mkClock 0 0) sample_state
       (MARK_NOTIFICATION_READ (toString 5%Z)) = sample_state.
Proof.
  split; [|split].
  - destruct (mark_notification_read_frame (mkClock 0 0) sample_state
                (toString 1700000000002%Z))
      as (_ & Hhit & _).
    destruct (Hhit 1 (sample_notification 1700000000002 false)
                eq_refl eq_refl) as (n' & Hn' & Hr & _).
    exists n'. split; assumption.
  - destruct (mark_notification_read_frame (mkClock 0 0) sample_state
                (toString 1700000000002%Z))
      as (_ & _ & Hmiss & _).
    apply (Hmiss 0 (sample_notification 1700000000001 false) eq_refl).
    vm_compute. discriminate.
  - destruct (mark_notification_read_frame (mkClock 0 0) sample_state
                (toString 5%Z))
      as (_ & _ & _ & _ & _ & _ & _ & _ & _ & Hsame).
    apply Hsame. intros n [<-|[<-|[]]]; vm_compute; discriminate.
Defined.

End AppContextFacts.

(* ------------------------------------------------------------------ *)
(** ** The dashboard header *)

Module DashboardHeaderFacts.
Import JS.
Import JSFacts.
Import DashboardHeader.

(** A string that holds the separator splits at its first occurrence. *)
Lemma first_occurrence (c : N) (s : jsstring) :
  In c s -> exists pre post, s = pre ++ c :: post /\ ~ In c pre.
Proof.
  induction s as [|x s IH]; simpl; [tauto|].
  destruct (N.eq_dec x c) as [->|Hx].
  - intros _. exists [], s. simpl. tauto.
  - intros [Hc|Hc]; [congruence|].
    destruct (IH Hc) as (pre & post & -> & Hpre).
    exists (x :: pre), post. simpl. split; [reflexivity|].
    intros [E|E]; [congruence|tauto].
Qed.

Section Initials.

Variable toUpperCase : jsstring -> jsstring.

(** C10. For an email that contains ["@"], [getInitials] returns the
    upper-cased first two code units of the text before the first
    ["@"]; for a string without ["@"], the upper-cased first two code
    units of the whole string; for the empty string, the empty string
    (upper-casing the empty string gives the empty string). The call
    never throws. *)
Theorem getInitials_spec :
  (forall email, In at_sign email ->
     exists pre post,
       email = pre ++ at_sign :: post /\ ~ In at_sign pre
       /\ getInitials toUpperCase email
          = Some (toUpperCase (firstn 2 pre)))
  /\ (forall pre post, ~ In at_sign pre ->
        getInitials toUpperCase (pre ++ at_sign :: post)
        = Some (toUpperCase (firstn 2 pre)))
  /\ (forall email, ~ In at_sign email ->
        getInitials toUpperCase email
        = Some (toUpperCase (firstn 2 email)))
  /\ (toUpperCase [] = [] -> getInitials toUpperCase [] = Some []).
Proof.
  assert (Hpre : forall pre post, ~ In at_sign pre ->
            getInitials toUpperCase (pre ++ at_sign :: post)
            = Some (toUpperCase (firstn 2 pre))).
  { intros pre post Hn. unfold getInitials.
    destruct (split_head_before at_sign pre post Hn) as [ps ->].
    reflexivity. }
  split; [|split; [exact Hpre|split]].
  - intros email Hin.
    destruct (first_occurrence at_sign email Hin)
      as (pre & post & -> & Hn).
    exists pre, post. auto.
  - intros email Hn. unfold getInitials.
    rewrite split_no_separator by exact Hn. reflexivity.
  - intros Hnil. unfold getInitials. simpl. now rewrite Hnil.
Qed.

End Initials.

Lemma getInitials_spec_witness :
  getInitials toUpperCase_ascii (lit "jo.doe@example.com@x")
    = Some (lit "JO")
  /\ getInitials toUpperCase_ascii (lit "q") = Some (lit "Q")
  /\ getInitials toUpperCase_ascii [] = Some [].
Proof.
  destruct (getInitials_spec toUpperCase_ascii) as (_ & Hat & Hno & Hnil).
  split; [|split].
  - apply (Hat (lit "jo.doe") (lit "example.com@x")).
    vm_compute. intros H.
    repeat (destruct H as [H|H]; [discriminate H|]). exact H.
  - apply (Hno (lit "q")).
    vm_compute. intros H.
    repeat (destruct H as [H|H]; [discriminate H|]). exact H.
  - apply Hnil. reflexivity.
Defined.

End DashboardHeaderFacts.

(* ------------------------------------------------------------------ *)
(** ** The settings page *)

Module SettingsFacts.
Import JS.
Import JSFacts.
Import AppContext.
Import Settings.
Import SettingsStore.
Import Samples.

(** Whatever non-blank key the form holds is sent as it is, under the
    column [luma_api_key]; no other column carries a key. *)
Lemma handleUpdateApiKey_request iso respond s :
  truthy (trim (lumaApiKey (st_formData s))) = true ->
  out_request (handleUpdateApiKey iso respond s)
  = Some {| req_table := lit "profiles";
            req_values := [ (lit "luma_api_key", lumaApiKey (st_formData s));
                            (lit "updated_at", iso) ];
            req_eq_column := lit "id";
            req_eq_value := option_map user_id (st_user s) |}.
Proof.
  intros H. unfold handleUpdateApiKey. rewrite H. simpl.
  destruct (respond _); reflexivity.
Qed.




End SettingsFacts.

(* ------------------------------------------------------------------ *)
(** ** The schema: ordinals, defaults and the scenes policy *)

Module SchemaFacts.
Import Sql.
Import Schema.
Import SchemaSpec.
Import Samples.

Lemma MAX_nil_iff (l : list Z) : MAX l = None <-> l = [].
Proof.
  destruct l as [|x l]; simpl; [tauto|].
  destruct (MAX l); split; discriminate.
Qed.

Lemma MAX_is_max (l : list Z) (m : Z) : MAX l = Some m -> is_max m l.
Proof.
  revert m; induction l as [|x l IH]; simpl; intros m; [discriminate|].
  destruct (MAX l) as [m'|] eqn:E.
  - intros [= <-]. destruct (IH m' eq_refl) as [Hin Hle]. split.
    + destruct (Z.max_spec x m') as [[_ ->]|[_ ->]];
        [right; exact Hin|left; reflexivity].
    + intros y [<-|Hy]; [lia|]. specialize (Hle y Hy). lia.
  - intros [= <-]. apply MAX_nil_iff in E. subst l. split; [now left|].
    intros y [<-|[]]. lia.
Qed.

Lemma is_max_unique (l : list Z) (m m' : Z) :
  is_max m l -> is_max m' l -> m = m'.
Proof.
  intros [Hin Hle] [Hin' Hle']. specialize (Hle _ Hin').
  specialize (Hle' _ Hin). lia.
Qed.

Lemma MAX_of_max (l : list Z) (m : Z) : is_max m l -> MAX l = Some m.
Proof.
  intros Hm. destruct (MAX l) as [m'|] eqn:E.
  - f_equal. eapply is_max_unique; [apply MAX_is_max, E|exact Hm].
  - apply MAX_nil_iff in E. subst l. destruct Hm as [[] _].
Qed.

Lemma MAX_app_one (l : list Z) (x : Z) :
  MAX (l ++ [x])
  = Some (match MAX l with Some m => Z.max m x | None => x end).
Proof.
  induction l as [|y l IH]; simpl; [reflexivity|].
  rewrite IH. destruct (MAX l); f_equal; lia.
Qed.

Lemma next_scene_ordinal_unfold d p :
  next_scene_ordinal d p = int4pl (COALESCE (MAX (project_ordinals d p)) 0) 1.
Proof. reflexivity. Qed.

(** C1 as stated fails: the project 7 has no scene that is not deleted,
    and [next_scene_ordinal] returns 6, not 1. *)
Lemma next_scene_ordinal_counts_deleted :
  non_deleted_ordinals db_with_deleted_scene 7%N = []
  /\ next_scene_ordinal db_with_deleted_scene 7%N = Ok 6
  /\ ~ Stated.next_ordinal_over_non_deleted.
Proof.
  split; [reflexivity|]. split; [reflexivity|].
  intros H. destruct (H db_with_deleted_scene 7%N) as [H1 _].
  specialize (H1 eq_refl). discriminate H1.
Qed.

(** C1, amended. [next_scene_ordinal] returns 1 when the project has no
    scene row at all, and otherwise one more than the maximum ordinal
    over all the rows of the project, the soft-deleted ones included;
    when that successor is no [INTEGER] any more (the maximum is
    2147483647) the call raises instead. *)
Theorem next_scene_ordinal_spec d p :
  (project_ordinals d p = [] -> next_scene_ordinal d p = Ok 1)
  /\ (forall m, is_max m (project_ordinals d p) ->
        in_int4 (m + 1) = true -> next_scene_ordinal d p = Ok (m + 1))
  /\ (forall m, is_max m (project_ordinals d p) ->
        in_int4 (m + 1) = false ->
        next_scene_ordinal d p = Err integer_out_of_range).
Proof.
  rewrite next_scene_ordinal_unfold. split; [|split].
  - intros ->. reflexivity.
  - intros m Hm Hr. rewrite (MAX_of_max _ _ Hm). unfold int4pl.
    simpl. now rewrite Hr.
  - intros m Hm Hr. rewrite (MAX_of_max _ _ Hm). unfold int4pl.
    simpl. now rewrite Hr.
Qed.

Lemma next_scene_ordinal_spec_witness :
  next_scene_ordinal (mk_db [] [] [] [] []) 7%N = Ok 1
  /\ next_scene_ordinal db_with_deleted_scene 7%N = Ok (5 + 1).
Proof.
  split.
  - apply (next_scene_ordinal_spec (mk_db [] [] [] [] []) 7%N).
    reflexivity.
  - apply (next_scene_ordinal_spec db_with_deleted_scene 7%N).
    + split; [now left|]. intros x [<-|[]]. apply Z.le_refl.
    + reflexivity.
Defined.

Lemma approved_profile_exists_iff d uid :
  approved_profile_exists d uid = true
  <-> exists p, In p (tbl_profiles d) /\ profiles.id p = uid
                /\ profiles.status p = Some user_status.approved.
Proof.
  unfold approved_profile_exists. rewrite existsb_exists. split.
  - intros (p & Hin & H). apply andb_true_iff in H as [Hid Hst].
    apply N.eqb_eq in Hid. exists p. repeat split; auto.
    destruct (profiles.status p) as [[]|]; simpl in Hst;
      try discriminate; reflexivity.
  - intros (p & Hin & Hid & Hst). exists p. split; [exact Hin|].
    rewrite Hid, Hst, N.eqb_refl. reflexivity.
Qed.

Lemma filter_none {A} (f : A -> bool) (l : list A) :
  (forall x, f x = false) -> filter f l = [].
Proof.
  intros H. induction l as [|x l IH]; simpl; [reflexivity|].
  now rewrite H.
Qed.

Lemma filter_all {A} (f : A -> bool) (l : list A) :
  (forall x, In x l -> f x = true) -> filter f l = l.
Proof.
  induction l as [|x l IH]; simpl; intros H; [reflexivity|].
  rewrite H by auto. f_equal. auto.
Qed.

Lemma with_scenes_same d : with_scenes d (tbl_scenes d) = d.
Proof. destruct d; reflexivity. Qed.

(** *** Row-level security on [scenes] *)

(** The policy of [scenes] reads [profiles], and "Admins can view all
    profiles" reads [profiles] from within a policy of [profiles]: the
    expansion comes back to [profiles]. *)
Lemma row_security_scenes c :
  row_security c t_scenes = Err infinite_recursion.
Proof. destruct c; reflexivity. Qed.


(** A statement on [scenes] that gets past the policy was run with the
    service role, which may touch every row. *)
Lemma policy_ok who c d may :
  users_can_manage_own_scenes who c d = Ok may ->
  who = service_role /\ may = (fun _ => true).
Proof.
  unfold users_can_manage_own_scenes.
  destruct who; cbn [subject_to]; try rewrite row_security_scenes;
    cbn [bind]; [|discriminate|discriminate].
  intros [= <-]. auto.
Qed.

(** *** What a successful statement did *)

Lemma select_scenes_service d cond :
  select_scenes service_role d cond = Ok (filter cond (tbl_scenes d)).
Proof. reflexivity. Qed.

Lemma insert_scene_ok who d r d' :
  insert_scene who d r = Ok d' ->
  d' = with_scenes d (tbl_scenes d ++ [r])
  /\ existsb (N.eqb (scenes.id r)) (scene_ids d) = false
  /\ integers_in_range r = true
  /\ references_hold d r = true
  /\ who = service_role.
Proof.
  unfold insert_scene, bind.
  destruct (users_can_manage_own_scenes who c_insert d) as [may|e] eqn:Hs;
    [|discriminate].
  apply policy_ok in Hs as [Hwho ->].
  destruct (integers_in_range r); cbn [negb]; [|discriminate].
  destruct (existsb _ _); [discriminate|].
  destruct (references_hold d r); cbn [negb]; [|discriminate].
  intros [= <-]. auto.
Qed.


Lemma update_scenes_ok who NOW d cond set d' :
  update_scenes who NOW d cond set = Ok d' ->
  d' = with_scenes d
         (map (fun r =>
                 if cond r
                 then scenes.update_updated_at_column NOW (set r)
                 else r)
              (tbl_scenes d))
  /\ who = service_role
  /\ (forall r, In r (tbl_scenes d) -> cond r = true ->
        integers_in_range (scenes.update_updated_at_column NOW (set r))
        = true
        /\ references_hold d (scenes.update_updated_at_column NOW (set r))
           = true
        /\ versions_follow d (tbl_scenes d') r = true).
Proof.
  unfold update_scenes, bind.
  destruct (users_can_manage_own_scenes who c_update d) as [may|e] eqn:Hs;
    [|discriminate].
  apply policy_ok in Hs as [Hwho ->]. cbv beta zeta. cbn [andb].
  match goal with
  | |- (if negb ?c then _ else _) = _ -> _ =>
      destruct c eqn:Hint; cbn [negb]; [|discriminate]
  end.
  match goal with
  | |- (if negb ?c then _ else _) = _ -> _ =>
      destruct c; cbn [negb]; [|discriminate]
  end.
  match goal with
  | |- (if ?c then _ else _) = _ -> _ => destruct c; [discriminate|]
  end.
  match goal with
  | |- (if negb ?c then _ else _) = _ -> _ =>
      destruct c eqn:Hfk; cbn [negb]; [|discriminate]
  end.
  intros [= <-]. split; [reflexivity|]. split; [exact Hwho|].
  intros r Hr Hc. rewrite forallb_forall in Hint, Hfk.
  specialize (Hint r Hr). specialize (Hfk r Hr).
  rewrite Hc in Hint, Hfk. cbn [negb orb] in Hint, Hfk.
  apply andb_true_iff in Hfk as [Hf1 Hf2]. auto.
Qed.

Lemma delete_scenes_ok who d cond d' :
  delete_scenes who d cond = Ok d' ->
  d' = without_scenes d cond /\ who = service_role.
Proof.
  unfold delete_scenes, bind.
  destruct (users_can_manage_own_scenes who c_delete d) as [may|e] eqn:Hs;
    [|discriminate].
  apply policy_ok in Hs as [Hwho ->]. intros [= <-]. auto.
Qed.

Lemma delete_scenes_service d cond :
  delete_scenes service_role d cond = Ok (without_scenes d cond).
Proof. reflexivity. Qed.



(** *** The column defaults of [scenes] *)




End SchemaFacts.

(* ------------------------------------------------------------------ *)
(** ** Creating scenes: the ordinals of concurrent requests *)

Module EngineFacts.
Import Sql.
Import Schema.
Import SchemaSpec.
Import SchemaFacts.
Import Engine.
Import Samples.

Lemma create_scene_ok project a d o d' :
  create_scene project a d = Ok (o, d') <->
  allocate project d = Ok o /\ insert_new_scene project a o d = Ok d'.
Proof.
  unfold create_scene, bind.
  destruct (allocate project d) as [o1|e]; [|split; [|intros [? _]];
                                               discriminate].
  destruct (insert_new_scene project a o1 d) as [d1|e] eqn:E.
  - split.
    + intros [= <- <-]. auto.
    + intros [[= <-] H]. rewrite E in H. now injection H as <-.
  - split; [discriminate|].
    intros [[= <-] H]. rewrite E in H. discriminate.
Qed.

(** *** Requests that run one after the other *)

Lemma allocate_ok project d o :
  allocate project d = Ok o -> o = highest_ordinal d project + 1.
Proof.
  unfold allocate. rewrite next_scene_ordinal_unfold.
  unfold int4pl, highest_ordinal.
  destruct (in_int4 _); [|discriminate]. now intros [= <-].
Qed.

Lemma insert_new_scene_ordinals project a o d d' :
  insert_new_scene project a o d = Ok d' ->
  project_ordinals d' project = project_ordinals d project ++ [o].
Proof.
  intros H. apply insert_scene_ok in H as [-> _].
  unfold project_ordinals, with_scenes. cbn [tbl_scenes].
  rewrite filter_app, map_app. f_equal.
  cbn [filter new_scene scenes.with_defaults scenes.project_id
       scenes.i_project_id].
  now rewrite N.eqb_refl.
Qed.

Lemma highest_after_create project a o d d' :
  allocate project d = Ok o ->
  insert_new_scene project a o d = Ok d' ->
  highest_ordinal d' project = o.
Proof.
  intros Ha Hi. apply allocate_ok in Ha.
  unfold highest_ordinal in *.
  rewrite (insert_new_scene_ordinals _ _ _ _ _ Hi), MAX_app_one.
  destruct (MAX (project_ordinals d project)); simpl in *; lia.
Qed.

Lemma highest_ordinal_bounds d project x :
  In x (project_ordinals d project) -> x <= highest_ordinal d project.
Proof.
  intros Hx. unfold highest_ordinal.
  destruct (MAX (project_ordinals d project)) as [m|] eqn:E.
  - apply MAX_is_max in E as [_ Hle]. simpl. auto.
  - apply MAX_nil_iff in E. rewrite E in Hx. destruct Hx.
Qed.

Lemma serial_run_cons project d a args :
  serial_run project d (a :: args)
  = match allocate project d with
    | Err e => (fst (serial_run project d args),
                (a, Failed e) :: snd (serial_run project d args))
    | Ok o =>
        match insert_new_scene project a o d with
        | Err e => (fst (serial_run project d args),
                    (a, Failed e) :: snd (serial_run project d args))
        | Ok d1 => (fst (serial_run project d1 args),
                    (a, Created o) :: snd (serial_run project d1 args))
        end
    end.
Proof.
  cbn [serial_run].
  destruct (allocate project d) as [o|e].
  - destruct (insert_new_scene project a o d) as [d1|e].
    + now destruct (serial_run project d1 args).
    + now destruct (serial_run project d args).
  - now destruct (serial_run project d args).
Qed.

(** Created ordinals grow strictly and lie above what the project held. *)
Lemma serial_run_sorted project args : forall d,
  StronglySorted Z.lt
    (created_ordinals (snd (serial_run project d args)))
  /\ Forall (fun o => highest_ordinal d project < o)
            (created_ordinals (snd (serial_run project d args))).
Proof.
  induction args as [|a args IH]; intros d.
  - simpl. split; constructor.
  - rewrite serial_run_cons.
    destruct (allocate project d) as [o|e] eqn:Ha; [|apply IH].
    destruct (insert_new_scene project a o d) as [d1|e] eqn:Hi;
      [|apply IH].
    cbn [snd created_ordinals].
    destruct (IH d1) as [Hs Hf].
    rewrite (highest_after_create _ _ _ _ _ Ha Hi) in Hf.
    apply allocate_ok in Ha.
    split.
    + constructor; assumption.
    + constructor; [lia|].
      eapply Forall_impl; [|exact Hf]. simpl. intros; lia.
Qed.

Lemma serial_run_exact project args : forall d,
  all_created (snd (serial_run project d args)) = true ->
  created_ordinals (snd (serial_run project d args))
  = map (fun k => highest_ordinal d project + Z.of_nat k)
        (seq 1 (List.length args)).
Proof.
  induction args as [|a args IH]; intros d; [reflexivity|].
  rewrite serial_run_cons.
  destruct (allocate project d) as [o|e] eqn:Ha; [|discriminate].
  destruct (insert_new_scene project a o d) as [d1|e] eqn:Hi;
    [|discriminate].
  cbn [snd created_ordinals all_created List.length seq map].
  intros Hall. rewrite (IH d1 Hall).
  rewrite (highest_after_create _ _ _ _ _ Ha Hi).
  apply allocate_ok in Ha. f_equal; [lia|].
  rewrite <- (seq_shift (List.length args) 1), map_map.
  apply map_ext. intros k. lia.
Qed.

Lemma strongly_sorted_lt_nodup (l : list Z) :
  StronglySorted Z.lt l -> NoDup l.
Proof.
  induction 1 as [|x l Hs IH Hf]; constructor; [|exact IH].
  intros Hin. rewrite Forall_forall in Hf. specialize (Hf x Hin). lia.
Qed.

(** *** The serial schedule is the serial run *)

Lemma nth_error_middle {A} (pre : list A) x post :
  nth_error (pre ++ x :: post) (List.length pre) = Some x.
Proof.
  rewrite nth_error_app2 by apply Nat.le_refl.
  now rewrite Nat.sub_diag.
Qed.

Lemma set_nth_middle {A} (pre : list A) x y post :
  set_nth (List.length pre) y (pre ++ x :: post) = pre ++ y :: post.
Proof. induction pre as [|z pre IH]; simpl; [reflexivity|now rewrite IH]. Qed.

Lemma step_finished project (pre : list (create_args * request))
    a r post d :
  (forall o, r <> Allocated o) -> r <> Start ->
  step project (List.length pre)
       {| store := d; requests := pre ++ (a, r) :: post |}
  = {| store := d; requests := pre ++ (a, r) :: post |}.
Proof.
  intros H1 H2. unfold step. cbn [requests].
  rewrite nth_error_middle. destruct r; try reflexivity.
  - now elim H2.
  - now elim (H1 ordinal).
Qed.

Lemma step_twice project (pre : list (create_args * request)) a post d :
  step project (List.length pre)
    (step project (List.length pre)
       {| store := d; requests := pre ++ (a, Start) :: post |})
  = match allocate project d with
    | Err e => {| store := d; requests := pre ++ (a, Failed e) :: post |}
    | Ok o =>
        match insert_new_scene project a o d with
        | Err e =>
            {| store := d; requests := pre ++ (a, Failed e) :: post |}
        | Ok d1 =>
            {| store := d1; requests := pre ++ (a, Created o) :: post |}
        end
    end.
Proof.
  unfold step at 2. cbn [requests store]. rewrite nth_error_middle.
  destruct (allocate project d) as [o|e]; rewrite set_nth_middle.
  - unfold step. cbn [requests store]. rewrite nth_error_middle.
    destruct (insert_new_scene project a o d) as [d1|e];
      now rewrite set_nth_middle.
  - apply step_finished; intros; discriminate.
Qed.

Lemma run_serial_from project args : forall pre d,
  run_schedule project
    (flat_map (fun i => [i; i]) (seq (List.length pre) (List.length args)))
    {| store := d; requests := pre ++ map (fun a => (a, Start)) args |}
  = {| store := fst (serial_run project d args);
       requests := pre ++ snd (serial_run project d args) |}.
Proof.
  unfold run_schedule.
  induction args as [|a args IH]; intros pre d;
    [simpl; now rewrite app_nil_r|].
  cbn [List.length seq flat_map app map fold_left].
  rewrite step_twice, serial_run_cons.
  assert (Hlen : forall r, S (List.length pre)
                           = List.length (pre ++ [(a, r)])).
  { intros r. rewrite length_app. simpl. lia. }
  assert (Hre : forall (r : request) l,
             pre ++ (a, r) :: l = (pre ++ [(a, r)]) ++ l).
  { intros r l. now rewrite <- app_assoc. }
  destruct (allocate project d) as [o|e].
  - destruct (insert_new_scene project a o d) as [d1|e]; cbn [fst snd].
    + rewrite (Hlen (Created o)),
        (Hre (Created o) (map (fun a => (a, Start)) args)),
        (Hre (Created o) (snd (serial_run project d1 args))).
      apply IH.
    + rewrite (Hlen (Failed e)),
        (Hre (Failed e) (map (fun a => (a, Start)) args)),
        (Hre (Failed e) (snd (serial_run project d args))).
      apply IH.
  - cbn [fst snd].
    rewrite (Hlen (Failed e)),
      (Hre (Failed e) (map (fun a => (a, Start)) args)),
      (Hre (Failed e) (snd (serial_run project d args))).
    apply IH.
Qed.

Lemma run_serial project d args :
  run_schedule project (serial_schedule (List.length args))
               (initial_world d args)
  = {| store := fst (serial_run project d args);
       requests := snd (serial_run project d args) |}.
Proof. apply (run_serial_from project args [] d). Qed.

(** C2 as stated fails: two requests of the approved user 10 against
    the project 7, which has no scene yet, each allocating before the
    other inserts, both create a scene with ordinal 1. *)
Lemma interleaved_requests_share_ordinal :
  created_ordinals
    (requests (run_schedule 7%N [0; 1; 0; 1]%nat
                 (initial_world empty_store [request_a; request_b])))
  = [1; 1]
  /\ all_created
       (requests (run_schedule 7%N [0; 1; 0; 1]%nat
                    (initial_world empty_store [request_a; request_b])))
     = true
  /\ ~ Stated.distinct_ordinals_under_any_interleaving.
Proof.
  split; [reflexivity|]. split; [reflexivity|].
  intros H.
  specialize (H 7%N empty_store [request_a; request_b] [0; 1; 0; 1]%nat).
  change (NoDup [1; 1]) in H. inversion H as [|x l Hn _].
  apply Hn. now left.
Qed.

(** C2, amended. When the create-scene requests against a project run
    one after the other, each allocating and inserting before the next
    one allocates, the ordinals of the scenes they create are strictly
    increasing, hence pairwise distinct, and greater than every ordinal
    the project already held; when the project starts without scenes and
    all [N] requests succeed they are exactly 1, ..., [N]. *)
Theorem serial_requests_distinct_ordinals project d args :
  let w := run_schedule project (serial_schedule (List.length args))
             (initial_world d args) in
  StronglySorted Z.lt (created_ordinals (requests w))
  /\ NoDup (created_ordinals (requests w))
  /\ (forall o x, In o (created_ordinals (requests w)) ->
        In x (project_ordinals d project) -> x < o)
  /\ (project_ordinals d project = [] ->
      all_created (requests w) = true ->
      created_ordinals (requests w)
      = map Z.of_nat (seq 1 (List.length args))).
Proof.
  cbv zeta. rewrite run_serial. cbn [requests].
  destruct (serial_run_sorted project args d) as [Hs Hf].
  split; [exact Hs|]. split; [now apply strongly_sorted_lt_nodup|].
  split.
  - intros o x Ho Hx. rewrite Forall_forall in Hf.
    specialize (Hf o Ho).
    pose proof (highest_ordinal_bounds d project x Hx). lia.
  - intros Hempty Hall. rewrite (serial_run_exact project args d Hall).
    unfold highest_ordinal. rewrite Hempty. reflexivity.
Qed.

Lemma serial_requests_distinct_ordinals_witness :
  created_ordinals
    (requests (run_schedule 7%N (serial_schedule 2)
                 (initial_world empty_store [request_a; request_b])))
  = [1; 2].
Proof.
  destruct (serial_requests_distinct_ordinals 7%N empty_store
              [request_a; request_b]) as (_ & _ & _ & H).
  apply H; reflexivity.
Defined.

End EngineFacts.

(* ------------------------------------------------------------------ *)
(** ** Lifecycle: the version log *)

Module LifecycleFacts.
Import Sql.
Import Schema.
Import SchemaFacts.
Import Engine.
Import EngineFacts.
Import Lifecycle.
Import LifecycleSpec.
Import Samples.

Lemma existsb_eqb_In (x : uuid) (l : list uuid) :
  existsb (N.eqb x) l = true <-> In x l.
Proof.
  rewrite existsb_exists. split.
  - intros (y & Hy & E). apply N.eqb_eq in E. now subst.
  - intros H. exists x. split; [exact H|apply N.eqb_refl].
Qed.

Lemma existsb_eqb_not_In (x : uuid) (l : list uuid) :
  existsb (N.eqb x) l = false <-> ~ In x l.
Proof.
  rewrite <- existsb_eqb_In.
  destruct (existsb (N.eqb x) l); split; intros H;
    try discriminate; try reflexivity; try congruence.
Qed.

Lemma distinct_NoDup (l : list uuid) : distinct l = true <-> NoDup l.
Proof.
  induction l as [|x l IH]; simpl.
  - split; [constructor|reflexivity].
  - rewrite andb_true_iff, negb_true_iff, existsb_eqb_not_In, IH.
    split.
    + intros [H1 H2]. now constructor.
    + intros H. inversion H. auto.
Qed.

(** Two rows of a table with unique keys that share their key are the
    same row. *)
Lemma same_key_same_row (l : list scenes.row) (r s : scenes.row) :
  NoDup (map scenes.id l) -> In r l -> In s l ->
  scenes.id r = scenes.id s -> r = s.
Proof.
  induction l as [|x l IH]; simpl; intros Hnd Hr Hs E; [tauto|].
  inversion Hnd as [|? ? Hx Hl]; subst.
  destruct Hr as [->|Hr], Hs as [->|Hs]; auto.
  - elim Hx. rewrite E. now apply in_map.
  - elim Hx. rewrite <- E. now apply in_map.
Qed.

Lemma NoDup_map_filter (f : scenes.row -> bool) (l : list scenes.row) :
  NoDup (map scenes.id l) -> NoDup (map scenes.id (filter f l)).
Proof.
  induction l as [|x l IH]; simpl; intros H; [constructor|].
  inversion H as [|? ? Hx Hl]; subst.
  destruct (f x); simpl; auto. constructor; auto.
  intros Hin. apply Hx. apply in_map_iff in Hin as (y & E & Hy).
  apply filter_In in Hy as [Hy _]. rewrite <- E. now apply in_map.
Qed.

Lemma filter_filter_same {A} (f g : A -> bool) (l : list A) :
  (forall x, In x l -> f x = true -> g x = true) ->
  filter f (filter g l) = filter f l.
Proof.
  induction l as [|x l IH]; simpl; intros H; [reflexivity|].
  destruct (g x) eqn:G; simpl.
  - destruct (f x); rewrite IH; auto.
  - destruct (f x) eqn:F.
    + rewrite (H x) in G by auto. discriminate.
    + apply IH. auto.
Qed.

(** *** What a successful operation did *)

Lemma transition_done NOW d sid expected set d' :
  transition NOW d sid expected set = Done d' ->
  update_scenes service_role NOW d (fun r => live sid r && expected r) set
  = Ok d'.
Proof.
  unfold transition. rewrite !select_scenes_service.
  destruct (filter (live sid) _); [discriminate|].
  destruct (filter _ _); [discriminate|].
  destruct (update_scenes _ _ _ _ _); simpl; [|discriminate].
  now intros [= <-].
Qed.

Lemma restore_done sid NOW d d' :
  restore sid NOW d = Done d' ->
  update_scenes service_role NOW d (deleted_within sid NOW)
                (with_deleted_at None) = Ok d'.
Proof.
  unfold restore. rewrite select_scenes_service.
  destruct (filter _ _); [discriminate|].
  destruct (update_scenes _ _ _ _ _); simpl; [|discriminate].
  now intros [= <-].
Qed.

Lemma purge_done sid NOW d d' :
  purge sid NOW d = Done d' ->
  d' = without_scenes d (deleted_beyond sid NOW).
Proof.
  unfold purge. rewrite delete_scenes_service. cbn [of_result].
  now intros [= <-].
Qed.

Lemma observe_completed_done sid prior mediaRef meta vid NOW d d' :
  observe_completed sid prior mediaRef meta vid NOW d = Done d' ->
  version_count sid d = prior
  /\ (exists s0, In s0 (tbl_scenes d)
                 /\ (live sid s0 && status_is scene_status.processing s0)
                    = true)
  /\ d' = with_scenes
            (with_scene_versions d
               (tbl_scene_versions d
                ++ [appended sid prior mediaRef meta vid NOW]))
            (map (fun r =>
                    if live sid r && status_is scene_status.processing r
                    then scenes.update_updated_at_column NOW
                           (with_version (prior + 1)
                              (with_job scene_status.ready
                                 (scenes.luma_job_id r)
                                 luma_status.completed
                                 (scenes.luma_error r) r))
                    else r)
                 (tbl_scenes d)).
Proof.
  unfold observe_completed. rewrite !select_scenes_service.
  destruct (filter (live sid) _); [discriminate|].
  destruct (filter _ (tbl_scenes d)) as [|s0 l0] eqn:Hsel; [discriminate|].
  destruct (Z.eqb_spec (version_count sid d) prior) as [Hc|Hc];
    [|discriminate].
  cbn [negb].
  destruct (insert_scene_version _ _ _) as [d1|e] eqn:Hins; [|discriminate].
  destruct (update_scenes _ _ _ _ _) as [d2|e] eqn:Hup; [|discriminate].
  cbn [of_result]. intros [= <-].
  split; [exact Hc|]. split.
  - exists s0. assert (Hin : In s0 (s0 :: l0)) by now left.
    rewrite <- Hsel in Hin.
    apply filter_In in Hin as [Hin Hhit]. split; [exact Hin|].
    exact Hhit.
  - apply update_scenes_ok in Hup as [-> _].
    unfold insert_scene_version in Hins.
    repeat match type of Hins with
           | (if ?c then _ else _) = _ => destruct c; [discriminate|]
           end.
    injection Hins as <-. reflexivity.
Qed.

(** An operation that is carried out was admitted. *)
Lemma exec_done o d d' : exec o d = Done d' -> perform o d = Done d'.
Proof.
  unfold exec. destruct (caller_of o); [|auto].
  destruct (approved_profile_exists d _); [auto|discriminate].
Qed.

(** *** The version log is preserved by every operation *)

Lemma store_ok_fresh ps pjs sts : store_ok (fresh ps pjs sts).
Proof.
  split; [constructor|]. split; intros ? [].
Qed.

Lemma store_ok_map d (g : scenes.row -> scenes.row) :
  (forall r, scenes.id (g r) = scenes.id r) ->
  (forall r, scenes.version (g r) = scenes.version r) ->
  store_ok d -> store_ok (with_scenes d (map g (tbl_scenes d))).
Proof.
  intros Hid Hv (Hk & Hfk & Hrows).
  assert (Hids : scene_ids (with_scenes d (map g (tbl_scenes d)))
                 = scene_ids d).
  { unfold scene_ids, with_scenes. cbn [tbl_scenes].
    rewrite map_map. apply map_ext. exact Hid. }
  split; [now rewrite Hids|]. split; [now rewrite Hids|].
  intros s' Hs'. cbn [with_scenes tbl_scenes] in Hs'.
  apply in_map_iff in Hs' as (s & <- & Hs).
  destruct (Hrows s Hs) as [Hg Hc].
  unfold counter_matches, versions_of in *.
  cbn [with_scenes tbl_scene_versions].
  rewrite Hid, Hv. split; assumption.
Qed.

Lemma store_ok_update who NOW d cond (set : scenes.row -> scenes.row) d' :
  (forall r, scenes.id (set r) = scenes.id r) ->
  (forall r, scenes.version (set r) = scenes.version r) ->
  update_scenes who NOW d cond set = Ok d' ->
  store_ok d -> store_ok d'.
Proof.
  intros Hid Hv Hup Hok. apply update_scenes_ok in Hup as [-> _].
  apply store_ok_map; [| |exact Hok]; intros r;
    destruct (cond r); cbn [scenes.update_updated_at_column
                            scenes.id scenes.version]; auto.
Qed.

Lemma store_ok_insert who d r d' :
  insert_scene who d r = Ok d' ->
  scenes.version r = Some 1 ->
  store_ok d -> store_ok d'.
Proof.
  intros Hins Hv (Hk & Hfk & Hrows).
  apply insert_scene_ok in Hins as (-> & Hfresh & _).
  apply existsb_eqb_not_In in Hfresh.
  assert (Hids : scene_ids (with_scenes d (tbl_scenes d ++ [r]))
                 = scene_ids d ++ [scenes.id r]).
  { unfold scene_ids, with_scenes. cbn [tbl_scenes]. now rewrite map_app. }
  split; [|split].
  - rewrite Hids. apply NoDup_app; [exact Hk|repeat constructor; simpl; tauto|].
    intros x Hx [<-|[]]. contradiction.
  - intros v Hv'. rewrite Hids. apply in_or_app. left. now apply Hfk.
  - intros s Hs. cbn [with_scenes tbl_scenes] in Hs.
    unfold counter_matches, versions_of. cbn [with_scenes tbl_scene_versions].
    apply in_app_or in Hs as [Hs|[<-|[]]]; [now apply Hrows|].
    assert (Hnone : filter (fun v => N.eqb (scene_versions.scene_id v)
                                           (scenes.id r))
                           (tbl_scene_versions d) = []).
    { destruct (filter _ _) as [|v l] eqn:E; [reflexivity|].
      assert (Hin : In v (v :: l)) by now left.
      rewrite <- E in Hin. apply filter_In in Hin as [Hin Hv'].
      apply N.eqb_eq in Hv'. elim Hfresh. rewrite <- Hv'. now apply Hfk. }
    rewrite Hnone. split; [reflexivity|exact Hv].
Qed.

Lemma without_keeps_versions d hit sid :
  NoDup (scene_ids d) ->
  In sid (scene_ids (without_scenes d hit)) ->
  versions_of sid (without_scenes d hit) = versions_of sid d.
Proof.
  intros Hk Hin. unfold versions_of, without_scenes.
  cbn [tbl_scene_versions].
  apply filter_filter_same. intros v _ Hv. apply N.eqb_eq in Hv.
  apply negb_true_iff, existsb_eqb_not_In. rewrite Hv. intros Hgone.
  unfold scene_ids, without_scenes in Hin. cbn [tbl_scenes] in Hin.
  apply in_map_iff in Hin as (s & Es & Hs).
  apply in_map_iff in Hgone as (s0 & Es0 & Hs0).
  apply filter_In in Hs as [Hs Hkeep].
  apply filter_In in Hs0 as [Hs0 Hhit].
  assert (s0 = s).
  { apply (same_key_same_row (tbl_scenes d)); auto. congruence. }
  subst s0. rewrite Hhit in Hkeep. discriminate.
Qed.

Lemma store_ok_without d hit :
  store_ok d -> store_ok (without_scenes d hit).
Proof.
  intros (Hk & Hfk & Hrows).
  assert (Hk' : NoDup (scene_ids (without_scenes d hit))).
  { unfold scene_ids, without_scenes. cbn [tbl_scenes].
    now apply NoDup_map_filter. }
  split; [exact Hk'|]. split.
  - intros v Hv. unfold without_scenes in Hv.
    cbn [tbl_scene_versions] in Hv.
    apply filter_In in Hv as [Hv Hkeep].
    apply negb_true_iff, existsb_eqb_not_In in Hkeep.
    specialize (Hfk v Hv). unfold scene_ids in Hfk.
    apply in_map_iff in Hfk as (s & Es & Hs).
    unfold scene_ids, without_scenes. cbn [tbl_scenes].
    apply in_map_iff. exists s. split; [exact Es|].
    apply filter_In. split; [exact Hs|].
    apply negb_true_iff.
    destruct (hit s) eqn:Hhit; [|reflexivity].
    elim Hkeep. rewrite <- Es. apply in_map. apply filter_In. auto.
  - intros s Hs.
    assert (Hin : In (scenes.id s) (scene_ids (without_scenes d hit))).
    { unfold scene_ids. now apply in_map. }
    unfold counter_matches.
    rewrite (without_keeps_versions d hit _ Hk Hin).
    apply Hrows. unfold without_scenes in Hs. cbn [tbl_scenes] in Hs.
    now apply filter_In in Hs as [Hs _].
Qed.

Lemma versions_of_completed d rows (v : scene_versions.row) x :
  versions_of x
    (with_scenes (with_scene_versions d (tbl_scene_versions d ++ [v])) rows)
  = versions_of x d
    ++ (if N.eqb (scene_versions.scene_id v) x then [v] else []).
Proof.
  unfold versions_of.
  cbn [with_scenes with_scene_versions tbl_scene_versions].
  rewrite filter_app. reflexivity.
Qed.

Lemma gapless_snoc (vs : list scene_versions.row) v :
  gapless vs ->
  scene_versions.version v = Z.of_nat (List.length vs) + 1 ->
  gapless (vs ++ [v]).
Proof.
  unfold gapless. intros Hg Hv.
  rewrite map_app, length_app, Hg. cbn [List.length map].
  rewrite Nat.add_1_r, seq_S, map_app. cbn [map]. do 2 f_equal.
  rewrite Hv. lia.
Qed.

Lemma store_ok_completed sid prior mediaRef meta vid NOW d d' :
  observe_completed sid prior mediaRef meta vid NOW d = Done d' ->
  store_ok d -> store_ok d'.
Proof.
  intros Hdone (Hk & Hfk & Hrows).
  apply observe_completed_done in Hdone
    as (Hcount & (s0 & Hs0 & Hhit0) & ->).
  set (g := fun r : scenes.row =>
              if live sid r && status_is scene_status.processing r
              then scenes.update_updated_at_column NOW
                     (with_version (prior + 1)
                        (with_job scene_status.ready (scenes.luma_job_id r)
                           luma_status.completed (scenes.luma_error r) r))
              else r).
  assert (Hgid : forall r, scenes.id (g r) = scenes.id r).
  { intros r. unfold g.
    destruct (live sid r && status_is scene_status.processing r);
      reflexivity. }
  assert (Hids : map scenes.id (map g (tbl_scenes d)) = scene_ids d).
  { unfold scene_ids. rewrite map_map. now apply map_ext. }
  assert (Hsid0 : scenes.id s0 = sid).
  { apply andb_true_iff in Hhit0 as [Hl _]. unfold live in Hl.
    apply andb_true_iff in Hl as [Hl _]. now apply N.eqb_eq in Hl. }
  split; [|split].
  - unfold scene_ids. cbn [with_scenes tbl_scenes]. now rewrite Hids.
  - intros v Hv. unfold scene_ids.
    cbn [with_scenes with_scene_versions tbl_scenes tbl_scene_versions] in *.
    rewrite Hids. apply in_app_or in Hv as [Hv|[<-|[]]]; [now apply Hfk|].
    cbn [appended scene_versions.scene_id]. rewrite <- Hsid0.
    unfold scene_ids. now apply in_map.
  - intros s' Hs'. cbn [with_scenes tbl_scenes] in Hs'.
    apply in_map_iff in Hs' as (s & <- & Hs).
    destruct (Hrows s Hs) as [Hg Hc].
    unfold counter_matches. rewrite versions_of_completed, Hgid.
    cbn [appended scene_versions.scene_id].
    destruct (N.eqb_spec sid (scenes.id s)) as [E|E].
    + assert (s = s0).
      { apply (same_key_same_row (tbl_scenes d)); auto. congruence. }
      subst s0. unfold g. rewrite Hhit0.
      cbn [scenes.update_updated_at_column with_version scenes.version].
      unfold version_count in Hcount. rewrite <- E in *.
      split.
      * apply gapless_snoc; [exact Hg|].
        cbn [scene_versions.version]. now rewrite Hcount.
      * rewrite length_app. cbn [List.length]. f_equal. lia.
    + rewrite app_nil_r.
      assert (Hmiss : live sid s && status_is scene_status.processing s
                      = false).
      { unfold live. destruct (N.eqb_spec (scenes.id s) sid);
          [congruence|reflexivity]. }
      unfold g. rewrite Hmiss. split; assumption.
Qed.

Lemma store_ok_apply d o : store_ok d -> store_ok (apply d o).
Proof.
  intros Hok. unfold apply.
  destruct (exec o d) as [d'|f] eqn:E; [|exact Hok].
  apply exec_done in E.
  destruct o; cbn [perform] in E.
  - destruct (create_scene project a d) as [[o d1]|e] eqn:Hc;
      [|discriminate].
    injection E as <-. apply create_scene_ok in Hc as [_ Hc].
    eapply store_ok_insert; [exact Hc|reflexivity|exact Hok].
  - apply transition_done in E.
    eapply store_ok_update; [| |exact E|exact Hok]; reflexivity.
  - eapply store_ok_completed; [exact E|exact Hok].
  - apply transition_done in E.
    eapply store_ok_update; [| |exact E|exact Hok]; reflexivity.
  - apply transition_done in E.
    eapply store_ok_update; [| |exact E|exact Hok]; reflexivity.
  - apply transition_done in E.
    eapply store_ok_update; [| |exact E|exact Hok]; reflexivity.
  - apply restore_done in E.
    eapply store_ok_update; [| |exact E|exact Hok]; reflexivity.
  - apply purge_done in E. subst d'. now apply store_ok_without.
Qed.

Lemma store_ok_run ops : forall d, store_ok d -> store_ok (run ops d).
Proof.
  unfold run. induction ops as [|o ops IH]; intros d Hok; [exact Hok|].
  cbn [fold_left]. apply IH. now apply store_ok_apply.
Qed.

(** *** The version log only grows *)

Lemma update_keeps_versions who NOW d cond set d' sid :
  update_scenes who NOW d cond set = Ok d' ->
  versions_of sid d' = versions_of sid d.
Proof. intros H. apply update_scenes_ok in H as [-> _]. reflexivity. Qed.

Lemma versions_prefix_apply d o sid :
  store_ok d ->
  In sid (scene_ids (apply d o)) ->
  exists added, versions_of sid (apply d o) = versions_of sid d ++ added.
Proof.
  intros Hok. unfold apply.
  destruct (exec o d) as [d'|f] eqn:E;
    [|intros _; exists []; now rewrite app_nil_r].
  apply exec_done in E.
  assert (Hsame : versions_of sid d' = versions_of sid d ->
                  exists added,
                    versions_of sid d' = versions_of sid d ++ added).
  { intros ->. exists []. now rewrite app_nil_r. }
  destruct o; cbn [perform] in E; intros Hin.
  - destruct (create_scene project a d) as [[o d1]|e] eqn:Hc;
      [|discriminate].
    injection E as <-. apply create_scene_ok in Hc as [_ Hc].
    apply insert_scene_ok in Hc as [-> _]. now apply Hsame.
  - apply transition_done in E.
    apply Hsame. eapply update_keeps_versions; exact E.
  - apply observe_completed_done in E as (_ & _ & ->).
    rewrite versions_of_completed. eexists; reflexivity.
  - apply transition_done in E.
    apply Hsame. eapply update_keeps_versions; exact E.
  - apply transition_done in E.
    apply Hsame. eapply update_keeps_versions; exact E.
  - apply transition_done in E.
    apply Hsame. eapply update_keeps_versions; exact E.
  - apply restore_done in E.
    apply Hsame. eapply update_keeps_versions; exact E.
  - apply purge_done in E. subst d'. apply Hsame.
    apply without_keeps_versions; [apply Hok|exact Hin].
Qed.

Lemma gapless_nodup (vs : list scene_versions.row) :
  gapless vs -> NoDup (map scene_versions.version vs).
Proof.
  unfold gapless. intros ->.
  apply Injective_map_NoDup; [|apply seq_NoDup].
  intros a b. apply Nat2Z.inj.
Qed.

(** C3 as stated fails: a scene that has just been created has the
    current version 1 and no version record, so its records are not the
    sequence 1, ..., current version. *)
Lemma new_scene_has_no_version_record :
  map scenes.version (tbl_scenes (run [Create 7%N request_a] empty_store))
  = [Some 1]
  /\ map scenes.id (tbl_scenes (run [Create 7%N request_a] empty_store))
     = [101%N]
  /\ map scene_versions.version
       (versions_of 101%N (run [Create 7%N request_a] empty_store))
     = []
  /\ ~ Stated.version_log_up_to_current.
Proof.
  split; [reflexivity|]. split; [reflexivity|]. split; [reflexivity|].
  intros H.
  destruct (H [approved_user; pending_user] [project_7; project_8]
              [wide_shot] [Create 7%N request_a]
              scene_just_created) as (current & Hc & Hlog).
  - vm_compute. left. reflexivity.
  - vm_compute in Hc. injection Hc as <-. vm_compute in Hlog.
    discriminate Hlog.
Qed.

(** C3, amended. In every state the operations reach from a store
    without scenes, the version records of a scene carry, in the order
    they were stored, the numbers 1, 2, ..., k with no gap and no
    duplicate, where k is the number of the records; the scene's current
    version is k once a record exists, and 1 while there is none (a new
    scene). No operation changes or removes a version record of a scene
    that is still there afterwards: the records of the scene before the
    operation are a prefix of its records after it. *)
Theorem version_log_gapless_append_only ps pjs sts ops :
  (forall s, In s (tbl_scenes (run ops (fresh ps pjs sts))) ->
     map scene_versions.version
         (versions_of (scenes.id s) (run ops (fresh ps pjs sts)))
     = map Z.of_nat
           (seq 1 (List.length
                     (versions_of (scenes.id s)
                        (run ops (fresh ps pjs sts)))))
     /\ NoDup (map scene_versions.version
                  (versions_of (scenes.id s) (run ops (fresh ps pjs sts))))
     /\ scenes.version s
        = Some (Z.max 1
                  (Z.of_nat
                     (List.length
                        (versions_of (scenes.id s)
                           (run ops (fresh ps pjs sts)))))))
  /\ (forall o sid,
        In sid (scene_ids (apply (run ops (fresh ps pjs sts)) o)) ->
        exists added,
          versions_of sid (apply (run ops (fresh ps pjs sts)) o)
          = versions_of sid (run ops (fresh ps pjs sts)) ++ added).
Proof.
  pose proof (store_ok_run ops (fresh ps pjs sts)
                (store_ok_fresh ps pjs sts)) as Hok.
  split.
  - intros s Hs. destruct Hok as (_ & _ & Hrows).
    destruct (Hrows s Hs) as [Hg Hc].
    split; [exact Hg|]. split; [now apply gapless_nodup|exact Hc].
  - intros o sid. now apply versions_prefix_apply.
Qed.

(** The scenario of the spec, section 8, then a second scene that gets
    one version, is deleted and, after the undo window, purged: the
    first scene has the versions 1 and 2 and the counter 2; the purge
    removes the second scene with its record and leaves the two records
    of the first. *)
Lemma version_log_gapless_append_only_witness :
  scenes.version scene_with_two_versions = Some 2
  /\ map scene_versions.version
       (versions_of 101%N (run second_scene_deleted empty_store))
     = [1; 2]
  /\ In 102%N (scene_ids (run second_scene_deleted empty_store))
  /\ ~ In 102%N (scene_ids (apply (run second_scene_deleted empty_store)
                              purge_second_scene))
  /\ map scene_versions.scene_id
       (tbl_scene_versions (apply (run second_scene_deleted empty_store)
                              purge_second_scene))
     = [101%N; 101%N]
  /\ (exists added,
        versions_of 101%N
          (apply (run second_scene_deleted empty_store) purge_second_scene)
        = versions_of 101%N (run second_scene_deleted empty_store)
          ++ added).
Proof.
  destruct (version_log_gapless_append_only
              [approved_user; pending_user] [project_7; project_8]
              [wide_shot] second_scene_deleted) as [Hrows Hgrow].
  change (fresh [approved_user; pending_user] [project_7; project_8]
            [wide_shot]) with empty_store in *.
  destruct (Hrows scene_with_two_versions) as (Hg & _ & Hc);
    [vm_compute; left; reflexivity|].
  change (scenes.id scene_with_two_versions) with 101%N in *.
  split; [rewrite Hc; reflexivity|].
  split; [rewrite Hg; reflexivity|].
  split; [vm_compute; right; left; reflexivity|].
  split; [vm_compute; intros [H|[]]; discriminate H|].
  split; [reflexivity|].
  apply Hgrow. vm_compute. left. reflexivity.
Defined.

End LifecycleFacts.

(* ================================================================== *)
(** * Further properties of the code *)

(* ------------------------------------------------------------------ *)
(** ** The reducer: how actions compose *)

Module AppContextMore.
Import JS.
Import JSFacts.
Import AppContext.
Import AppContextSpec.

Local Open Scope nat_scope.

Lemma firstn_app_firstn {A} (n : nat) (a b : list A) :
  firstn n (a ++ firstn n b) = firstn n (a ++ b).
Proof.
  rewrite !firstn_app, firstn_firstn. do 2 f_equal. lia.
Qed.

Lemma dispatch_all_app s acts1 acts2 :
  dispatch_all s (acts1 ++ acts2)
  = dispatch_all (dispatch_all s acts1) acts2.
Proof. unfold dispatch_all. apply fold_left_app. Qed.

Lemma add_all_notifications adds : forall s,
  List.length (notifications s) <= 50 ->
  notifications (dispatch_all s (add_all adds))
  = firstn 50 (added adds ++ notifications s).
Proof.
  unfold added.
  induction adds as [|[clk p] adds IH]; intros s Hlen.
  - cbn [add_all map rev app]. unfold dispatch_all. cbn [fold_left].
    symmetry. now apply firstn_all2.
  - change (add_all ((clk, p) :: adds))
      with ([(clk, ADD_NOTIFICATION p)] ++ add_all adds).
    rewrite dispatch_all_app.
    change (dispatch_all s [(clk, ADD_NOTIFICATION p)])
      with (appReducer clk s (ADD_NOTIFICATION p)).
    rewrite IH.
    + cbn [appReducer set_notifications notifications rev map fst snd].
      rewrite firstn_app_firstn, <- app_assoc. reflexivity.
    + pose proof (AppContextFacts.appReducer_notifications_length
                    clk s (ADD_NOTIFICATION p)). lia.
Qed.

(** X1. From a state with at most 50 notifications, a run of
    [ADD_NOTIFICATION] dispatches leaves the notifications it made, the
    last dispatched first, in front of the old ones, cut to 50
    entries. *)
Theorem add_notifications_newest_first s adds :
  List.length (notifications s) <= 50 ->
  notifications (dispatch_all s (add_all adds))
  = firstn 50 (added adds ++ notifications s)
  /\ (List.length adds <= 50 ->
      firstn (List.length adds)
             (notifications (dispatch_all s (add_all adds)))
      = added adds).
Proof.
  intros Hlen. rewrite (add_all_notifications adds s Hlen).
  split; [reflexivity|].
  intros Hk. rewrite firstn_firstn, Nat.min_l by exact Hk.
  assert (Hl : List.length (added adds) = List.length adds).
  { unfold added. now rewrite length_rev, length_map. }
  rewrite <- Hl, firstn_app, Nat.sub_diag, firstn_all.
  cbn [firstn]. apply app_nil_r.
Qed.

Lemma add_notifications_newest_first_witness :
  firstn 2
    (notifications
       (dispatch_all initialState
          (add_all [(mkClock 5 5, mkPayload info (lit "a") (lit "b"));
                    (mkClock 6 6, mkPayload warning (lit "c") (lit "d"))])))
  = [newNotification (mkClock 6 6) (mkPayload warning (lit "c") (lit "d"));
     newNotification (mkClock 5 5) (mkPayload info (lit "a") (lit "b"))].
Proof.
  destruct (add_notifications_newest_first initialState
              [(mkClock 5 5, mkPayload info (lit "a") (lit "b"));
               (mkClock 6 6, mkPayload warning (lit "c") (lit "d"))])
    as [_ H].
  - cbn. lia.
  - apply H. cbn. lia.
Defined.

(** *** Marking notifications read *)

Lemma mark_id nid n : id (mark nid n) = id n.
Proof. unfold mark. now destruct (strict_eq (id n) nid). Qed.

Lemma mark_twice nid n : mark nid (mark nid n) = mark nid n.
Proof.
  unfold mark. destruct (strict_eq (id n) nid) eqn:E; cbn [mark_read id].
  - now rewrite E.
  - now rewrite E.
Qed.

Lemma mark_swap a b n : mark a (mark b n) = mark b (mark a n).
Proof.
  unfold mark.
  destruct (strict_eq (id n) a) eqn:Ea, (strict_eq (id n) b) eqn:Eb;
    cbn [mark_read id]; rewrite ?Ea, ?Eb; reflexivity.
Qed.

Lemma mark_keeps_read nid n : read n = true -> read (mark nid n) = true.
Proof. unfold mark. now destruct (strict_eq (id n) nid). Qed.

Lemma reducer_mark clk s nid :
  appReducer clk s (MARK_NOTIFICATION_READ nid)
  = set_notifications s (map (mark nid) (notifications s)).
Proof. reflexivity. Qed.

Lemma set_notifications_twice s l1 l2 :
  set_notifications (set_notifications s l1) l2 = set_notifications s l2.
Proof. reflexivity. Qed.

(** X2. Marking a notification read a second time changes nothing,
    marking two ids gives the same state in either order, and no
    notification that was read becomes unread. *)
Theorem mark_read_idempotent_commutes clk1 clk2 s a b :
  appReducer clk2 (appReducer clk1 s (MARK_NOTIFICATION_READ a))
             (MARK_NOTIFICATION_READ a)
  = appReducer clk1 s (MARK_NOTIFICATION_READ a)
  /\ appReducer clk2 (appReducer clk1 s (MARK_NOTIFICATION_READ a))
                (MARK_NOTIFICATION_READ b)
     = appReducer clk2 (appReducer clk1 s (MARK_NOTIFICATION_READ b))
                  (MARK_NOTIFICATION_READ a)
  /\ (forall i n,
        nth_error (notifications s) i = Some n -> read n = true ->
        exists n',
          nth_error
            (notifications (appReducer clk1 s (MARK_NOTIFICATION_READ a))) i
          = Some n' /\ read n' = true).
Proof.
  rewrite !reducer_mark, !set_notifications_twice.
  cbn [notifications set_notifications].
  split; [|split].
  - rewrite map_map. f_equal. apply map_ext. intros n. apply mark_twice.
  - rewrite !map_map. f_equal. apply map_ext. intros n. apply mark_swap.
  - intros i n Hn Hr. exists (mark a n). split.
    + now rewrite nth_error_map, Hn.
    + now apply mark_keeps_read.
Qed.

Lemma mark_read_idempotent_commutes_witness :
  exists n',
    nth_error
      (notifications
         (appReducer (mkClock 0 0)
            (appReducer (mkClock 0 0) Samples.sample_state
               (MARK_NOTIFICATION_READ (toString 1700000000001%Z)))
            (MARK_NOTIFICATION_READ (toString 1700000000002%Z)))) 0
    = Some n' /\ read n' = true.
Proof.
  destruct (mark_read_idempotent_commutes (mkClock 0 0) (mkClock 0 0)
              (appReducer (mkClock 0 0) Samples.sample_state
                 (MARK_NOTIFICATION_READ (toString 1700000000001%Z)))
              (toString 1700000000002%Z) (toString 1700000000002%Z))
    as (_ & _ & H).
  apply (H 0%nat (mark_read (Samples.sample_notification
                               1700000000001 false)));
    reflexivity.
Defined.

(** *** Notification ids *)

Lemma lit_injective (a b : string) : lit a = lit b -> a = b.
Proof.
  revert b; induction a as [|x a IH]; intros [|y b]; cbn [lit];
    try discriminate; [reflexivity|].
  intros [= Hxy Hab]. f_equal; [|now apply IH].
  rewrite <- (ascii_N_embedding x), <- (ascii_N_embedding y).
  now rewrite Hxy.
Qed.

Lemma to_int_normal (z : Z) :
  Z.to_int z <> Decimal.Pos Decimal.Nil
  /\ Z.to_int z <> Decimal.Neg Decimal.Nil.
Proof.
  assert (H : Z.to_int z = Decimal.norm (Z.to_int z)).
  { rewrite <- DecimalZ.to_of, DecimalZ.of_to. reflexivity. }
  destruct (Z.to_int z) as [d|d]; cbn [Decimal.norm] in H.
  - split; [|discriminate]. intros [= ->]. discriminate H.
  - split; [discriminate|]. intros [= ->]. discriminate H.
Qed.

Lemma toString_injective (a b : Z) : toString a = toString b -> a = b.
Proof.
  unfold toString. intros H. apply lit_injective in H.
  apply DecimalZ.to_int_inj.
  destruct (to_int_normal a) as [Ha1 Ha2], (to_int_normal b) as [Hb1 Hb2].
  pose proof (NilZero.isi _ Ha1 Ha2) as Ia.
  pose proof (NilZero.isi _ Hb1 Hb2) as Ib.
  rewrite H in Ia. rewrite Ia in Ib. now injection Ib.
Qed.

Lemma NoDup_firstn {A} (n : nat) (l : list A) :
  NoDup l -> NoDup (firstn n l).
Proof.
  revert n; induction l as [|x l IH]; intros [|n] H; cbn [firstn];
    try constructor.
  - inversion H as [|? ? Hx Hl]; subst. intros Hin. apply Hx.
    rewrite <- (firstn_skipn n l). apply in_or_app. now left.
  - inversion H; subst. now apply IH.
Qed.

(** X3. Notifications added, starting from an empty list, at pairwise
    different [Date.now()] readings have pairwise different ids. Two
    notifications added within the same millisecond share their id, and
    marking that id read marks both of them. *)
Theorem notification_ids_follow_the_clock :
  (forall s adds,
      notifications s = [] ->
      NoDup (map (fun cp => Date_now (fst cp)) adds) ->
      NoDup (map id (notifications (dispatch_all s (add_all adds)))))
  /\ (forall s clk1 clk2 p1 p2 clk3,
        Date_now clk1 = Date_now clk2 ->
        exists n2 n1 rest,
          notifications
            (dispatch_all s
               [(clk1, ADD_NOTIFICATION p1); (clk2, ADD_NOTIFICATION p2);
                (clk3, MARK_NOTIFICATION_READ (toString (Date_now clk1)))])
          = n2 :: n1 :: rest
          /\ id n1 = id n2 /\ read n1 = true /\ read n2 = true
          /\ title n1 = payload_title p1 /\ title n2 = payload_title p2).
Proof.
  split.
  - intros s adds Hs Hnd.
    rewrite add_all_notifications by (rewrite Hs; cbn; lia).
    rewrite Hs, app_nil_r, <- firstn_map. apply NoDup_firstn.
    unfold added. rewrite <- map_rev, map_map.
    assert (E : map (fun cp => id (newNotification (fst cp) (snd cp)))
                    (rev adds)
                = map toString
                      (map (fun cp => Date_now (fst cp)) (rev adds))).
    { rewrite map_map. reflexivity. }
    rewrite E.
    apply Injective_map_NoDup; [exact toString_injective|].
    rewrite map_rev. now apply NoDup_rev.
  - intros s clk1 clk2 p1 p2 clk3 E.
    unfold dispatch_all.
    cbn [fold_left fst snd appReducer set_notifications notifications].
    change (firstn 50 (newNotification clk1 p1 :: notifications s))
      with (newNotification clk1 p1 :: firstn 49 (notifications s)).
    change (firstn 50 (newNotification clk2 p2 :: newNotification clk1 p1
                         :: firstn 49 (notifications s)))
      with (newNotification clk2 p2 :: newNotification clk1 p1
              :: firstn 48 (firstn 49 (notifications s))).
    cbn [map newNotification id]. rewrite <- E, strict_eq_refl.
    do 3 eexists. split; [reflexivity|].
    cbn [mark_read id read title]. repeat split.
    cbn [newNotification id]. now rewrite E.
Qed.

Lemma notification_ids_follow_the_clock_witness :
  NoDup
    (map id
       (notifications
          (dispatch_all initialState
             (add_all [(mkClock 5 5, mkPayload info (lit "a") (lit "b"));
                       (mkClock 6 6, mkPayload info (lit "a") (lit "b"))])))).
Proof.
  destruct notification_ids_follow_the_clock as [H _].
  apply H; [reflexivity|].
  cbn. repeat constructor; cbn; intuition discriminate.
Defined.

(** *** Preferences *)

Lemma merge_spread p q1 q2 :
  merge_preferences (merge_preferences p q1) q2
  = merge_preferences p (spread_partial q1 q2).
Proof.
  unfold merge_preferences, spread_partial, or_else. cbn.
  destruct q1 as [a1 b1 c1 d1 e1 f1], q2 as [a2 b2 c2 d2 e2 f2]. cbn.
  destruct a2, b2, c2, d2, e2, f2; reflexivity.
Qed.

(** X4. Two [UPDATE_PREFERENCES] in a row are one update with the two
    payloads spread over each other: a key the later payload names takes
    its value, any other key keeps what the earlier payload or the state
    had. An update with the same payload twice is the update once, and
    the payload [{}] changes nothing. *)
Theorem update_preferences_compose clk1 clk2 s q1 q2 :
  appReducer clk2 (appReducer clk1 s (UPDATE_PREFERENCES q1))
             (UPDATE_PREFERENCES q2)
  = appReducer clk1 s (UPDATE_PREFERENCES (spread_partial q1 q2))
  /\ appReducer clk2 (appReducer clk1 s (UPDATE_PREFERENCES q1))
                (UPDATE_PREFERENCES q1)
     = appReducer clk1 s (UPDATE_PREFERENCES q1)
  /\ appReducer clk1 s (UPDATE_PREFERENCES no_preferences) = s
  /\ (forall v, p_quality q2 = Some v ->
        quality (preferences
                   (appReducer clk2
                      (appReducer clk1 s (UPDATE_PREFERENCES q1))
                      (UPDATE_PREFERENCES q2))) = v)
  /\ (p_quality q2 = None -> p_quality q1 = None ->
      quality (preferences
                 (appReducer clk2
                    (appReducer clk1 s (UPDATE_PREFERENCES q1))
                    (UPDATE_PREFERENCES q2)))
      = quality (preferences s)).
Proof.
  cbn [appReducer user profile loading theme sidebarOpen notifications
       preferences].
  split; [|split; [|split; [|split]]].
  - now rewrite merge_spread.
  - rewrite merge_spread. do 2 f_equal.
    destruct q1 as [a b c d e f]; unfold spread_partial; cbn.
    destruct a, b, c, d, e, f; reflexivity.
  - destruct s as [u p l t o n [a b c d e f]]. reflexivity.
  - intros v Hv. cbn [merge_preferences quality]. now rewrite Hv.
  - intros H2 H1. cbn [merge_preferences quality].
    now rewrite H2, H1.
Qed.

Lemma update_preferences_compose_witness :
  quality (preferences
             (appReducer (mkClock 0 0)
                (appReducer (mkClock 0 0) initialState
                   (UPDATE_PREFERENCES
                      (mkPartial None None None None None (Some low))))
                (UPDATE_PREFERENCES
                   (mkPartial (Some false) None None None None
                      (Some high)))))
  = high.
Proof.
  destruct (update_preferences_compose (mkClock 0 0) (mkClock 0 0)
              initialState
              (mkPartial None None None None None (Some low))
              (mkPartial (Some false) None None None None (Some high)))
    as (_ & _ & _ & H & _).
  apply H. reflexivity.
Defined.

(** *** What a run of actions leaves alone *)

Lemma field_kept {A} (f : AppState -> A) (g : AppAction -> bool) :
  (forall clk s a, g a = false -> f (appReducer clk s a) = f s) ->
  forall acts s, none_of g acts -> f (dispatch_all s acts) = f s.
Proof.
  intros Hstep acts. unfold dispatch_all, none_of.
  induction acts as [|[clk a] acts IH]; intros s Hnone; [reflexivity|].
  cbn [fold_left fst snd]. rewrite IH.
  - apply Hstep. apply (Hnone (clk, a)). now left.
  - intros ca Hin. apply Hnone. now right.
Qed.

(** X5. Along a run of actions the theme changes only at a [SET_THEME]
    or a [RESET_STATE], the preferences only at an [UPDATE_PREFERENCES]
    or a [RESET_STATE], the user only at a [SET_USER] or a
    [RESET_STATE], and the profile only at a [SET_PROFILE] or a
    [RESET_STATE]: a run without them leaves the field as it was. *)
Theorem fields_change_only_by_their_actions s acts :
  (none_of sets_theme acts -> theme (dispatch_all s acts) = theme s)
  /\ (none_of sets_preferences acts ->
      preferences (dispatch_all s acts) = preferences s)
  /\ (none_of sets_user acts -> user (dispatch_all s acts) = user s)
  /\ (none_of sets_profile acts ->
      profile (dispatch_all s acts) = profile s).
Proof.
  repeat split; intros H; apply (field_kept _ _) with (2 := H);
    intros clk s0 a Ha; destruct a; try discriminate Ha; reflexivity.
Qed.

Lemma fields_change_only_by_their_actions_witness :
  theme (dispatch_all Samples.sample_state
           [(mkClock 1 1, TOGGLE_SIDEBAR);
            (mkClock 2 2, ADD_NOTIFICATION (mkPayload info [] []));
            (mkClock 3 3, CLEAR_NOTIFICATIONS)])
  = theme Samples.sample_state.
Proof.
  destruct (fields_change_only_by_their_actions Samples.sample_state
              [(mkClock 1 1, TOGGLE_SIDEBAR);
               (mkClock 2 2, ADD_NOTIFICATION (mkPayload info [] []));
               (mkClock 3 3, CLEAR_NOTIFICATIONS)]) as [H _].
  apply H. intros ca [<-|[<-|[<-|[]]]]; reflexivity.
Defined.

(** *** The sidebar *)

Lemma count_actions_cons f clk a acts :
  count_actions f ((clk, a) :: acts)
  = (if f a then 1 else 0) + count_actions f acts.
Proof.
  unfold count_actions. cbn [filter snd]. now destruct (f a).
Qed.

(** X6. After a run of actions without [RESET_STATE] the sidebar is open
    exactly when it was open before and the run held an even number of
    [TOGGLE_SIDEBAR], or it was closed and the number is odd; in
    particular two toggles in a row give the state back. *)
Theorem sidebar_follows_toggle_parity :
  (forall acts s,
      none_of is_reset acts ->
      sidebarOpen (dispatch_all s acts)
      = xorb (sidebarOpen s) (Nat.odd (count_actions is_toggle acts)))
  /\ (forall clk1 clk2 s,
        appReducer clk2 (appReducer clk1 s TOGGLE_SIDEBAR) TOGGLE_SIDEBAR
        = s).
Proof.
  split.
  - unfold dispatch_all, none_of.
    induction acts as [|[clk a] acts IH]; intros s Hnone.
    + cbn. now rewrite xorb_false_r.
    + cbn [fold_left fst snd]. rewrite IH by (intros ca Hin; apply Hnone;
                                              now right).
      rewrite count_actions_cons.
      assert (Hr : is_reset a = false) by (apply (Hnone (clk, a)); now left).
      destruct a; try discriminate Hr;
        cbn [appReducer sidebarOpen set_notifications is_toggle Nat.add];
        try reflexivity.
      rewrite Nat.odd_succ, <- Nat.negb_odd.
      destruct (sidebarOpen s), (Nat.odd (count_actions is_toggle acts));
        reflexivity.
  - intros clk1 clk2 s. destruct s as [u p l t o n q].
    cbn. now rewrite negb_involutive.
Qed.

Lemma sidebar_follows_toggle_parity_witness :
  sidebarOpen
    (dispatch_all initialState
       [(mkClock 1 1, TOGGLE_SIDEBAR); (mkClock 2 2, SET_LOADING false);
        (mkClock 3 3, TOGGLE_SIDEBAR); (mkClock 4 4, TOGGLE_SIDEBAR)])
  = true.
Proof.
  destruct sidebar_follows_toggle_parity as [H _].
  rewrite H; [reflexivity|].
  intros ca [<-|[<-|[<-|[<-|[]]]]]; reflexivity.
Defined.

End AppContextMore.

(* ------------------------------------------------------------------ *)
(** ** The settings page: validation and what the handlers leave behind *)

Module SettingsMore.
Import JS.
Import JSFacts.
Import AppContext.
Import Settings.

Lemma trimStart_empty (s : jsstring) :
  trimStart s = [] <-> forallb is_whitespace s = true.
Proof.
  induction s as [|c s IH]; cbn [trimStart forallb]; [tauto|].
  destruct (is_whitespace c); cbn [andb]; [exact IH|].
  split; discriminate.
Qed.

Lemma trimStart_head (s : jsstring) c r :
  trimStart s = c :: r -> is_whitespace c = false.
Proof.
  induction s as [|x s IH]; cbn [trimStart]; [discriminate|].
  destruct (is_whitespace x) eqn:E; [exact IH|].
  now intros [= <- _].
Qed.

(** [trim] leaves the empty string exactly for the strings made of
    white space only. *)
Lemma trim_empty (s : jsstring) :
  truthy (trim s) = false <-> forallb is_whitespace s = true.
Proof.
  rewrite <- trimStart_empty. unfold trim, trimEnd.
  destruct (trimStart s) as [|c r] eqn:E.
  - cbn. tauto.
  - split; [|discriminate]. intros H. exfalso.
    apply trimStart_head in E.
    destruct (trimStart (rev (c :: r))) as [|y l] eqn:F.
    + apply trimStart_empty in F. rewrite forallb_forall in F.
      rewrite (F c) in E; [discriminate|].
      apply in_rev. rewrite rev_involutive. now left.
    + destruct (rev (y :: l)) eqn:G; [|discriminate H].
      apply (f_equal (@rev N)) in G. rewrite rev_involutive in G.
      discriminate G.
Qed.

(** X7. [handleUpdateApiKey] refuses a key that is empty or made of
    white space only: it sends no request, leaves the page state as it
    is and raises the one toast "API key is required". Any other key is
    sent, and it is sent as it was typed, leading and trailing white
    space included. *)
Theorem api_key_validation iso respond s :
  (forallb is_whitespace (lumaApiKey (st_formData s)) = true ->
   handleUpdateApiKey iso respond s
   = {| out_state := s; out_request := None;
        out_toasts := [toast_error (lit "API key is required")] |})
  /\ (forallb is_whitespace (lumaApiKey (st_formData s)) = false ->
      exists req,
        out_request (handleUpdateApiKey iso respond s) = Some req
        /\ req_values req
           = [ (lit "luma_api_key", lumaApiKey (st_formData s));
               (lit "updated_at", iso) ]
        /\ req_eq_value req = option_map user_id (st_user s)).
Proof.
  split; intros H.
  - apply trim_empty in H. unfold handleUpdateApiKey. now rewrite H.
  - assert (Ht : truthy (trim (lumaApiKey (st_formData s))) = true).
    { destruct (truthy _) eqn:E; [reflexivity|].
      apply trim_empty in E. congruence. }
    rewrite (SettingsFacts.handleUpdateApiKey_request iso respond s Ht).
    eexists. split; [reflexivity|]. split; reflexivity.
Qed.

Lemma api_key_validation_witness :
  out_request
    (handleUpdateApiKey Samples.sample_iso (fun _ => resolved_ok)
       (mkSettings None None false
          (mkFormData (lit "   ") [] [])))
  = None
  /\ exists req,
       out_request
         (handleUpdateApiKey Samples.sample_iso (fun _ => resolved_ok)
            (mkSettings None None false
               (mkFormData (lit " k ") [] [])))
       = Some req
       /\ req_values req
          = [ (lit "luma_api_key", lit " k ");
              (lit "updated_at", Samples.sample_iso) ].
Proof.
  split.
  - destruct (api_key_validation Samples.sample_iso (fun _ => resolved_ok)
                (mkSettings None None false
                   (mkFormData (lit "   ") [] []))) as [H _].
    rewrite H; reflexivity.
  - destruct (api_key_validation Samples.sample_iso (fun _ => resolved_ok)
                (mkSettings None None false
                   (mkFormData (lit " k ") [] []))) as [_ H].
    destruct H as (req & H1 & H2 & _); [reflexivity|].
    exists req. split; assumption.
Defined.

(** X8. Whatever the store answers, [handleUpdateApiKey] never changes
    the form or the signed-in user, and once a request went out the
    saving flag ends [false]. The profile kept by the page changes only
    when the store accepted the update, and then only in its
    [luma_api_key]; with no profile loaded it stays [null]. *)
Theorem api_key_update_effects iso respond s :
  st_formData (out_state (handleUpdateApiKey iso respond s))
  = st_formData s
  /\ st_user (out_state (handleUpdateApiKey iso respond s)) = st_user s
  /\ (forall req,
        out_request (handleUpdateApiKey iso respond s) = Some req ->
        st_saving (out_state (handleUpdateApiKey iso respond s)) = false
        /\ (respond req <> resolved_ok ->
            st_profile (out_state (handleUpdateApiKey iso respond s))
            = st_profile s)
        /\ (respond req = resolved_ok ->
            st_profile (out_state (handleUpdateApiKey iso respond s))
            = option_map
                (fun p =>
                   {| profile_id := profile_id p;
                      profile_email := profile_email p;
                      profile_role := profile_role p;
                      profile_status := profile_status p;
                      luma_api_key := Some (lumaApiKey (st_formData s));
                      profile_created_at := profile_created_at p;
                      profile_updated_at := profile_updated_at p |})
                (st_profile s))).
Proof.
  unfold handleUpdateApiKey.
  destruct (negb (truthy (trim (lumaApiKey (st_formData s))))).
  - cbn. repeat split; intros; discriminate.
  - match goal with
    | |- context [respond ?r] => set (req0 := r)
    end.
    destruct (respond req0) eqn:E; cbn;
      (split; [reflexivity|]; split; [reflexivity|]);
      intros req [= <-]; rewrite E;
      (split; [reflexivity|]); split; intros H;
      try discriminate H; try (now elim H); try reflexivity.
Qed.

Lemma api_key_update_effects_witness :
  st_saving
    (out_state (handleUpdateApiKey Samples.sample_iso
                  (fun _ => resolved_error) Samples.sample_settings))
  = false
  /\ st_profile
       (out_state (handleUpdateApiKey Samples.sample_iso
                     (fun _ => resolved_error) Samples.sample_settings))
     = st_profile Samples.sample_settings.
Proof.
  destruct (api_key_update_effects Samples.sample_iso
              (fun _ => resolved_error) Samples.sample_settings)
    as (_ & _ & H).
  destruct (H {| req_table := lit "profiles";
                 req_values :=
                   [ (lit "luma_api_key", Samples.sample_key);
                     (lit "updated_at", Samples.sample_iso) ];
                 req_eq_column := lit "id";
                 req_eq_value := Some (lit "u1") |} eq_refl)
    as (H1 & H2 & _).
  split; [exact H1|]. apply H2. discriminate.
Defined.

Import SettingsPassword.

(** X9. [handleChangePassword] sends a password only when the two
    fields are equal and hold at least 6 code units, and what it sends
    is the new password. Unequal fields are reported as "Passwords
    don't match" whatever their length. When the service accepts, both
    password fields are emptied and the API key field is kept; when it
    does not, the form is left as it was; in both cases the saving flag
    ends [false]. *)
Theorem change_password_behaviour respond s :
  (forall pw,
      SettingsPassword.out_password (handleChangePassword respond s)
      = Some pw ->
      pw = newPassword (st_formData s)
      /\ newPassword (st_formData s) = confirmPassword (st_formData s)
      /\ (6 <= List.length pw)%nat
      /\ st_saving (SettingsPassword.out_state
                      (handleChangePassword respond s)) = false
      /\ lumaApiKey (st_formData (SettingsPassword.out_state
                                    (handleChangePassword respond s)))
         = lumaApiKey (st_formData s)
      /\ (respond pw = resolved_ok ->
          newPassword (st_formData (SettingsPassword.out_state
                                      (handleChangePassword respond s)))
          = []
          /\ confirmPassword
               (st_formData (SettingsPassword.out_state
                               (handleChangePassword respond s)))
             = [])
      /\ (respond pw <> resolved_ok ->
          st_formData (SettingsPassword.out_state
                         (handleChangePassword respond s))
          = st_formData s))
  /\ (newPassword (st_formData s) <> confirmPassword (st_formData s) ->
      handleChangePassword respond s
      = {| SettingsPassword.out_state := s;
           SettingsPassword.out_password := None;
           SettingsPassword.out_toasts :=
             [toast_error (lit "Passwords don't match")] |})
  /\ (newPassword (st_formData s) = confirmPassword (st_formData s) ->
      (List.length (newPassword (st_formData s)) < 6)%nat ->
      handleChangePassword respond s
      = {| SettingsPassword.out_state := s;
           SettingsPassword.out_password := None;
           SettingsPassword.out_toasts :=
             [toast_error
                (lit "Password must be at least 6 characters")] |}).
Proof.
  unfold handleChangePassword.
  split; [|split].
  - intros pw.
    destruct (strict_eq _ _) eqn:Eq; cbn [negb]; [|discriminate].
    apply strict_eq_true in Eq.
    destruct (Nat.ltb_spec (List.length (newPassword (st_formData s))) 6)
      as [Hl|Hl]; [discriminate|].
    destruct (respond (newPassword (st_formData s))) eqn:E;
      cbn [SettingsPassword.out_password SettingsPassword.out_state];
      intros [= <-]; rewrite E;
      repeat split; try assumption; try reflexivity;
      try match goal with
          | H : _ = resolved_ok |- _ => discriminate H
          end;
      intros Hr; now elim Hr.
  - intros Hne. apply strict_eq_false in Hne. now rewrite Hne.
  - intros He Hl. apply strict_eq_true in He. rewrite He. cbn [negb].
    apply Nat.ltb_lt in Hl. now rewrite Hl.
Qed.

Lemma change_password_behaviour_witness :
  handleChangePassword (fun _ => resolved_ok)
    (mkSettings None None false
       (mkFormData [] (lit "abc") (lit "abcdefg")))
  = {| SettingsPassword.out_state :=
         mkSettings None None false
           (mkFormData [] (lit "abc") (lit "abcdefg"));
       SettingsPassword.out_password := None;
       SettingsPassword.out_toasts :=
         [toast_error (lit "Passwords don't match")] |}
  /\ newPassword
       (st_formData
          (SettingsPassword.out_state
             (handleChangePassword (fun _ => resolved_ok)
                (mkSettings None None false
                   (mkFormData (lit "k") (lit "abcdef") (lit "abcdef"))))))
     = [].
Proof.
  split.
  - destruct (change_password_behaviour (fun _ => resolved_ok)
                (mkSettings None None false
                   (mkFormData [] (lit "abc") (lit "abcdefg"))))
      as (_ & H & _).
    apply H. vm_compute. discriminate.
  - destruct (change_password_behaviour (fun _ => resolved_ok)
                (mkSettings None None false
                   (mkFormData (lit "k") (lit "abcdef") (lit "abcdef"))))
      as (H & _).
    destruct (H (lit "abcdef") eq_refl) as (_ & _ & _ & _ & _ & Hok & _).
    now apply Hok.
Defined.

End SettingsMore.

(* ------------------------------------------------------------------ *)
(** ** The admin page *)

Module AdminFacts.
Import JS.
Import JSFacts.
Import JSArrays.
Import AppContext.
Import Admin.

Local Open Scope nat_scope.

(** *** Statistics *)

Lemma status_counts (l : list (option jsstring)) (a b : jsstring) :
  a <> b ->
  count_status a (Some l) + count_status b (Some l)
  + List.length
      (filter (fun u => match u with
                        | Some st => negb (strict_eq st a)
                                     && negb (strict_eq st b)
                        | None => true
                        end) l)
  = List.length l.
Proof.
  intros Hab. unfold count_status.
  induction l as [|u l IH]; [reflexivity|].
  cbn [filter List.length].
  destruct u as [st|]; cbn [List.length].
  - destruct (strict_eq st a) eqn:Ea, (strict_eq st b) eqn:Eb;
      cbn [negb andb List.length]; try lia.
    apply strict_eq_true in Ea, Eb. congruence.
  - lia.
Qed.

(** X10. When [loadStats] sets the statistics, the active, the pending
    and the remaining users (rejected, any other status, or no status)
    add up to the total, so active plus pending never exceeds it; the
    storage figure is always 0; and a [null] answer counts as no rows. A
    request that throws leaves the statistics unset. *)
Theorem load_stats_counts :
  (forall users scenes projects st,
      loadStats (fetched users) (fetched scenes) (fetched projects)
      = Some st ->
      activeUsers st + pendingUsers st <= totalUsers st
      /\ storageUsed st = 0
      /\ totalScenes st = length_or_0 scenes
      /\ totalProjects st = length_or_0 projects
      /\ (forall l, users = Some l ->
            activeUsers st + pendingUsers st
            + List.length
                (filter (fun u =>
                           match u with
                           | Some s => negb (strict_eq s (lit "approved"))
                                       && negb (strict_eq s (lit "pending"))
                           | None => true
                           end) l)
            = totalUsers st))
  /\ loadStats (fetched None) (fetched None) (fetched None)
     = Some (mkStats 0 0 0 0 0 0)
  /\ (forall u s p,
        u = threw \/ s = threw \/ p = threw -> loadStats u s p = None).
Proof.
  split; [|split].
  - intros users scenes projects st [= <-].
    cbn [activeUsers pendingUsers totalUsers storageUsed totalScenes
         totalProjects].
    assert (Hsum : forall l, users = Some l ->
              count_status (lit "approved") users
              + count_status (lit "pending") users
              + List.length
                  (filter (fun u =>
                             match u with
                             | Some s => negb (strict_eq s (lit "approved"))
                                         && negb (strict_eq s (lit "pending"))
                             | None => true
                             end) l)
              = length_or_0 users).
    { intros l ->. apply status_counts. vm_compute. discriminate. }
    repeat split; try exact Hsum; try reflexivity.
    destruct users as [l|]; [|cbn; lia].
    specialize (Hsum l eq_refl). rewrite <- Hsum. apply Nat.le_add_r.
  - reflexivity.
  - intros u s p H. destruct u, s, p; try reflexivity;
      destruct H as [H|[H|H]]; discriminate H.
Qed.

Lemma load_stats_counts_witness :
  activeUsers (mkStats 3 1 1 2 0 0) + pendingUsers (mkStats 3 1 1 2 0 0)
  <= totalUsers (mkStats 3 1 1 2 0 0).
Proof.
  destruct load_stats_counts as [H _].
  apply (H (Some [Some (lit "approved"); Some (lit "pending");
                  Some (lit "rejected")])
           (Some [lit "s1"; lit "s2"]) None).
  reflexivity.
Defined.

(** *** Search *)

Lemma startsWith_spec (s t : jsstring) :
  startsWith s t = true <-> exists post, s = t ++ post.
Proof.
  revert s; induction t as [|x t IH]; intros s.
  - destruct s; cbn; split; eauto.
  - destruct s as [|y s]; cbn [startsWith].
    + split; [discriminate|]. intros [post H]. discriminate H.
    + rewrite andb_true_iff, N.eqb_eq, IH. split.
      * intros [-> [post ->]]. now exists post.
      * intros [post [= -> ->]]. eauto.
Qed.

(** [includes] holds exactly when the second string occurs in the
    first. *)
Lemma includes_spec (s t : jsstring) :
  includes s t = true <-> exists pre post, s = pre ++ t ++ post.
Proof.
  induction s as [|y s IH]; cbn [includes]; rewrite orb_true_iff.
  - rewrite startsWith_spec. split.
    + intros [[post H]|H]; [|discriminate].
      exists [], post. exact H.
    + intros (pre & post & H). left.
      destruct pre; [|discriminate H]. now exists post.
  - rewrite startsWith_spec, IH. split.
    + intros [[post H]|(pre & post & ->)].
      * exists [], post. exact H.
      * exists (y :: pre), post. reflexivity.
    + intros (pre & post & H). destruct pre as [|z pre].
      * left. now exists post.
      * right. injection H as _ ->. now exists pre, post.
Qed.

Lemma includes_empty (s : jsstring) : includes s [] = true.
Proof. apply includes_spec. now exists [], s. Qed.

(** X11. An empty search term lists every user. In general a user is
    listed exactly when the lower-cased term occurs in the lower-cased
    email, role or status; the users that are listed keep their order,
    and searching a list in two parts gives the two results one after
    the other. *)
Theorem filtered_users_spec toLowerCase :
  (toLowerCase [] = [] ->
   forall users, filteredUsers toLowerCase users [] = users)
  /\ (forall users term u,
        In u (filteredUsers toLowerCase users term) <->
        In u users
        /\ exists field pre post,
             (field = profile_email u \/ field = profile_role u
              \/ field = profile_status u)
             /\ toLowerCase field = pre ++ toLowerCase term ++ post)
  /\ (forall users1 users2 term,
        filteredUsers toLowerCase (users1 ++ users2) term
        = filteredUsers toLowerCase users1 term
          ++ filteredUsers toLowerCase users2 term).
Proof.
  split; [|split].
  - intros Hnil users. unfold filteredUsers. rewrite Hnil.
    apply SchemaFacts.filter_all. intros u _.
    now rewrite includes_empty.
  - intros users term u. unfold filteredUsers.
    rewrite filter_In, !orb_true_iff, !includes_spec. split.
    + intros [Hin [[(pre & post & H)|(pre & post & H)]|(pre & post & H)]];
        (split; [exact Hin|]); eexists _, pre, post; eauto.
    + intros [Hin (field & pre & post & [->|[->| ->]] & H)];
        (split; [exact Hin|]); eauto 6.
  - intros. unfold filteredUsers. apply filter_app.
Qed.

Lemma filtered_users_spec_witness :
  filteredUsers toLowerCase_ascii [Samples.sample_profile] []
  = [Samples.sample_profile].
Proof.
  destruct (filtered_users_spec toLowerCase_ascii) as [H _].
  apply H. reflexivity.
Defined.

(** *** The users export *)

Lemma split_at_separator (sep : N) (pre post : jsstring) :
  ~ In sep pre ->
  split sep (pre ++ sep :: post) = pre :: split sep post.
Proof.
  induction pre as [|c pre IH]; cbn [app split]; intros Hn.
  - now rewrite N.eqb_refl.
  - destruct (N.eqb_spec c sep) as [->|Hc]; [elim Hn; now left|].
    rewrite IH by (intros H; apply Hn; now right). reflexivity.
Qed.

(** Joining and splitting on a separator that no piece holds gives the
    pieces back. *)
Lemma split_join (sep : N) (l : list jsstring) :
  l <> [] -> (forall x, In x l -> ~ In sep x) ->
  split sep (join [sep] l) = l.
Proof.
  induction l as [|x l IH]; intros Hne Hfree; [now elim Hne|].
  destruct l as [|y l].
  - cbn [join]. apply split_no_separator. apply Hfree. now left.
  - change (join [sep] (x :: y :: l))
      with (x ++ sep :: join [sep] (y :: l)).
    rewrite split_at_separator by (apply Hfree; now left).
    f_equal. apply IH; [discriminate|].
    intros z Hz. apply Hfree. now right.
Qed.

Lemma join_free (sep c : N) (l : list jsstring) :
  c <> sep -> (forall x, In x l -> ~ In c x) -> ~ In c (join [sep] l).
Proof.
  intros Hc. induction l as [|x l IH]; intros Hfree; [intros []|].
  destruct l as [|y l].
  - cbn [join]. apply Hfree. now left.
  - change (join [sep] (x :: y :: l))
      with (x ++ sep :: join [sep] (y :: l)).
    intros H. apply in_app_or in H as [H|[H|H]].
    + apply (Hfree x); [now left|exact H].
    + congruence.
    + apply IH; [|exact H]. intros z Hz. apply Hfree. now right.
Qed.

(** X12. When no cell of the export holds a comma or a line feed,
    splitting the CSV text at the line feeds and each line at the commas
    gives back the header row followed by one row of five cells per
    user, in the order of the users. *)
Theorem csv_round_trip toLocaleDateString users :
  (forall u cell, In u users -> In cell (csvRow toLocaleDateString u) ->
     ~ In comma cell /\ ~ In newline cell) ->
  map (split comma) (split newline (csvContent toLocaleDateString users))
  = csvHeader :: map (csvRow toLocaleDateString) users.
Proof.
  intros Hfree. unfold csvContent.
  set (rows := csvHeader :: map (csvRow toLocaleDateString) users).
  assert (Hrows : forall r cell, In r rows -> In cell r ->
                    ~ In comma cell /\ ~ In newline cell).
  { intros r cell [<-|Hr] Hc.
    - cbn in Hc.
      repeat (destruct Hc as [<-|Hc];
              [split; vm_compute; intuition discriminate|]).
      destruct Hc.
    - apply in_map_iff in Hr as (u & <- & Hu). now apply (Hfree u). }
  assert (Hne : forall r, In r rows -> r <> []).
  { intros r [<-|Hr]; [discriminate|].
    apply in_map_iff in Hr as (u & <- & _). discriminate. }
  rewrite split_join.
  - rewrite map_map. rewrite <- (map_id rows) at 2.
    apply map_ext_in. intros r Hr. apply split_join; [now apply Hne|].
    intros cell Hc. now apply (Hrows r).
  - discriminate.
  - intros line Hl. apply in_map_iff in Hl as (r & <- & Hr).
    apply join_free; [discriminate|].
    intros cell Hc. now apply (Hrows r).
Qed.

Lemma csv_round_trip_witness :
  map (split comma)
      (split newline
         (csvContent (fun d => firstn 10 d) [Samples.sample_profile]))
  = [csvHeader; csvRow (fun d => firstn 10 d) Samples.sample_profile].
Proof.
  apply (csv_round_trip (fun d => firstn 10 d) [Samples.sample_profile]).
  intros u cell [<-|[]] Hc. cbn in Hc.
  repeat (destruct Hc as [<-|Hc];
          [split; vm_compute; intuition discriminate|]).
  destruct Hc.
Defined.

Lemma split_length (sep : N) (s : jsstring) :
  List.length (split sep s) = S (occurrences sep s).
Proof.
  induction s as [|c s IH]; [reflexivity|].
  cbn [split occurrences].
  destruct (N.eqb c sep); cbn [List.length Nat.add].
  - now rewrite IH.
  - destruct (split sep s) as [|p ps]; [discriminate IH|].
    cbn [List.length] in *. exact IH.
Qed.

Lemma occurrences_app c (a b : jsstring) :
  occurrences c (a ++ b) = occurrences c a + occurrences c b.
Proof.
  induction a as [|x a IH]; [reflexivity|].
  cbn [app occurrences]. rewrite IH. lia.
Qed.

Lemma occurrences_join sep (l : list jsstring) :
  l <> [] ->
  S (occurrences sep (join [sep] l))
  = List.length l + list_sum (map (occurrences sep) l).
Proof.
  induction l as [|x l IH]; intros Hne; [now elim Hne|].
  destruct l as [|y l].
  - cbn [join map list_sum fold_right List.length]. lia.
  - change (join [sep] (x :: y :: l))
      with (x ++ sep :: join [sep] (y :: l)).
    rewrite occurrences_app. cbn [occurrences].
    rewrite N.eqb_refl.
    specialize (IH ltac:(discriminate)).
    cbn [map list_sum fold_right List.length] in *. lia.
Qed.

(** X13. The export does not quote its cells: the line of a user splits
    at the commas into five cells plus one more for every comma in the
    user's email, role, status or formatted dates. *)
Theorem csv_cells_are_not_quoted toLocaleDateString u :
  List.length (split comma (join [comma] (csvRow toLocaleDateString u)))
  = 5 + list_sum (map (occurrences comma) (csvRow toLocaleDateString u)).
Proof.
  rewrite split_length, occurrences_join by discriminate. reflexivity.
Qed.

End AdminFacts.

(* ------------------------------------------------------------------ *)
(** ** The schema: what the statements keep *)

Module SchemaMore.
Import Sql.
Import Schema.
Import SchemaSpec.
Import SchemaFacts.
Import SchemaTriggers.
Import EngineFacts.
Import LifecycleFacts.

(** X14. The ordinal [next_scene_ordinal] returns is greater than the
    ordinal of every scene row of the project, soft-deleted or not, so it
    collides with none of them; it is at least 1 when no row of the
    project has a negative ordinal; and a row of another project does
    not change it. *)
Theorem next_scene_ordinal_is_fresh d p :
  (forall o, next_scene_ordinal d p = Ok o ->
     (forall r, In r (tbl_scenes d) -> scenes.project_id r = p ->
                scenes.ordinal r < o)
     /\ ((forall r, In r (tbl_scenes d) -> scenes.project_id r = p ->
                    0 <= scenes.ordinal r) -> 1 <= o))
  /\ (forall r, scenes.project_id r <> p ->
        next_scene_ordinal (with_scenes d (tbl_scenes d ++ [r])) p
        = next_scene_ordinal d p).
Proof.
  split.
  - intros o Ho. apply allocate_ok in Ho.
    assert (Hin : forall r, In r (tbl_scenes d) -> scenes.project_id r = p ->
                    In (scenes.ordinal r) (project_ordinals d p)).
    { intros r Hr Hp. unfold project_ordinals. apply in_map.
      apply filter_In. split; [exact Hr|]. now apply N.eqb_eq. }
    split.
    + intros r Hr Hp.
      pose proof (highest_ordinal_bounds d p _ (Hin r Hr Hp)). lia.
    + intros Hpos. subst o. unfold highest_ordinal.
      destruct (MAX (project_ordinals d p)) as [m|] eqn:E; cbn; [|lia].
      apply MAX_is_max in E as [Hm _]. unfold project_ordinals in Hm.
      apply in_map_iff in Hm as (r & <- & Hr).
      apply filter_In in Hr as [Hr Hp]. apply N.eqb_eq in Hp.
      specialize (Hpos r Hr Hp). lia.
  - intros r Hr. rewrite !next_scene_ordinal_unfold.
    unfold project_ordinals, with_scenes. cbn [tbl_scenes].
    rewrite filter_app. cbn [filter].
    destruct (N.eqb_spec (scenes.project_id r) p); [contradiction|].
    now rewrite app_nil_r.
Qed.

Lemma next_scene_ordinal_is_fresh_witness :
  scenes.ordinal Samples.deleted_scene < 6.
Proof.
  destruct (next_scene_ordinal_is_fresh Samples.db_with_deleted_scene 7%N)
    as [H _].
  destruct (H 6 eq_refl) as [Hlt _].
  apply Hlt; [now left|reflexivity].
Defined.

(** X15. A [DELETE] on [scenes], in a store with unique scene ids where
    every version record belongs to a scene, leaves no version record
    without its scene, removes no version record of a scene that stays,
    and keeps the records of the scenes that stay in their order. Run
    with the service role it always goes through. *)
Theorem delete_cascades_exactly who d cond d' :
  NoDup (scene_ids d) -> versions_have_scenes d ->
  delete_scenes who d cond = Ok d' ->
  versions_have_scenes d'
  /\ NoDup (scene_ids d')
  /\ (forall sid, In sid (scene_ids d') ->
        Lifecycle.versions_of sid d' = Lifecycle.versions_of sid d)
  /\ (forall v, In v (tbl_scene_versions d) ->
        In v (tbl_scene_versions d')
        <-> In (scene_versions.scene_id v) (scene_ids d'))
  /\ (exists d2, delete_scenes service_role d cond = Ok d2).
Proof.
  intros Hk Hfk Hdel. apply delete_scenes_ok in Hdel as [-> _].
  set (hit := cond).
  assert (Hgone : forall sid,
             In sid (scene_ids (without_scenes d hit)) ->
             ~ In sid (map scenes.id (filter hit (tbl_scenes d)))).
  { intros sid Hin Hg. unfold scene_ids, without_scenes in Hin.
    cbn [tbl_scenes] in Hin.
    apply in_map_iff in Hin as (s & Es & Hs).
    apply in_map_iff in Hg as (s0 & Es0 & Hs0).
    apply filter_In in Hs as [Hs Hkeep].
    apply filter_In in Hs0 as [Hs0 Hhit].
    assert (s0 = s)
      by (apply (same_key_same_row (tbl_scenes d)); auto; congruence).
    subst s0. rewrite Hhit in Hkeep. discriminate. }
  assert (Hstay : forall v, In v (tbl_scene_versions d) ->
             ~ In (scene_versions.scene_id v)
                  (map scenes.id (filter hit (tbl_scenes d))) ->
             In (scene_versions.scene_id v)
                (scene_ids (without_scenes d hit))).
  { intros v Hv Hn. specialize (Hfk v Hv). unfold scene_ids in Hfk.
    apply in_map_iff in Hfk as (s & Es & Hs).
    unfold scene_ids, without_scenes. cbn [tbl_scenes].
    apply in_map_iff. exists s. split; [exact Es|].
    apply filter_In. split; [exact Hs|]. apply negb_true_iff.
    destruct (hit s) eqn:Hhit; [|reflexivity].
    elim Hn. rewrite <- Es. apply in_map. apply filter_In. auto. }
  split; [|split; [|split; [|split]]].
  - intros v Hv. unfold without_scenes in Hv.
    cbn [tbl_scene_versions] in Hv.
    apply filter_In in Hv as [Hv Hkeep].
    apply negb_true_iff, existsb_eqb_not_In in Hkeep. now apply Hstay.
  - unfold scene_ids, without_scenes. cbn [tbl_scenes].
    now apply NoDup_map_filter.
  - intros sid Hin. now apply without_keeps_versions.
  - intros v Hv. split.
    + intros Hin. unfold without_scenes in Hin.
      cbn [tbl_scene_versions] in Hin.
      apply filter_In in Hin as [_ Hkeep].
      apply negb_true_iff, existsb_eqb_not_In in Hkeep. now apply Hstay.
    + intros Hin. unfold without_scenes. cbn [tbl_scene_versions].
      apply filter_In. split; [exact Hv|].
      apply negb_true_iff, existsb_eqb_not_In. now apply Hgone.
  - rewrite delete_scenes_service. eexists; reflexivity.
Qed.

Lemma delete_cascades_exactly_witness :
  exists d',
    delete_scenes service_role Samples2.store_with_two_versions
      (fun r => N.eqb (scenes.id r) 101%N) = Ok d'
    /\ tbl_scene_versions d' = []
    /\ tbl_scenes d' = [].
Proof.
  destruct (delete_scenes service_role Samples2.store_with_two_versions
              (fun r => N.eqb (scenes.id r) 101%N)) as [d'|e] eqn:E;
    [|discriminate E].
  exists d'. split; [reflexivity|].
  destruct (delete_cascades_exactly service_role
              Samples2.store_with_two_versions
              (fun r => N.eqb (scenes.id r) 101%N) d') as (Hfk & _).
  - repeat constructor. intros [].
  - intros v [<-|[<-|[]]]; left; reflexivity.
  - exact E.
  - assert (Hs : tbl_scenes d' = [])
      by (vm_compute in E; injection E as <-; reflexivity).
    split; [|exact Hs].
    destruct (tbl_scene_versions d') as [|v l] eqn:Ev; [reflexivity|].
    assert (Hin : In v (tbl_scene_versions d'))
      by (rewrite Ev; now left).
    specialize (Hfk v Hin). unfold scene_ids in Hfk.
    rewrite Hs in Hfk. destruct Hfk.
Defined.

Lemma version_key_taken (d : db) (v : scene_versions.row) :
  existsb (fun w => N.eqb (scene_versions.scene_id w)
                          (scene_versions.scene_id v)
                    && Z.eqb (scene_versions.version w)
                             (scene_versions.version v))
          (tbl_scene_versions d) = true
  <-> In (version_key v) (map version_key (tbl_scene_versions d)).
Proof.
  rewrite existsb_exists, in_map_iff. unfold version_key.
  split; intros (w & H1 & H2).
  - apply andb_true_iff in H2 as [Hs Hv].
    apply N.eqb_eq in Hs. apply Z.eqb_eq in Hv.
    exists w. split; [congruence|exact H1].
  - exists w. split; [exact H2|]. injection H1 as -> ->.
    now rewrite N.eqb_refl, Z.eqb_refl.
Qed.

Lemma insert_scene_version_ok who d v d' :
  insert_scene_version who d v = Ok d' ->
  who = service_role
  /\ in_int4 (scene_versions.version v) = true
  /\ ~ In (version_key v) (map version_key (tbl_scene_versions d))
  /\ In (scene_versions.scene_id v) (scene_ids d)
  /\ d' = with_scene_versions d (tbl_scene_versions d ++ [v]).
Proof.
  unfold insert_scene_version. destruct who; try discriminate.
  destruct (in_int4 _) eqn:Hr; cbn [negb]; [|discriminate].
  destruct (existsb _ _); [discriminate|].
  destruct (existsb _ (tbl_scene_versions d)) eqn:Hk; [discriminate|].
  destruct (existsb (N.eqb (scene_versions.scene_id v)) (scene_ids d))
    eqn:Hs; cbn [negb]; [|discriminate].
  intros [= <-]. repeat split.
  - intros Hin. apply version_key_taken in Hin. congruence.
  - now apply existsb_eqb_In.
Qed.

(** X16. Only the service role inserts a version record, and only for a
    scene that exists and with a version number that scene does not have
    yet: the pairs (scene, version) stay pairwise distinct, every record
    keeps belonging to a scene, the new record goes last and the others
    are untouched. Inserting the same pair once more fails. *)
Theorem version_records_stay_unique who d v d' :
  insert_scene_version who d v = Ok d' ->
  who = service_role
  /\ In (scene_versions.scene_id v) (scene_ids d)
  /\ tbl_scene_versions d' = tbl_scene_versions d ++ [v]
  /\ tbl_scenes d' = tbl_scenes d
  /\ (NoDup (map version_key (tbl_scene_versions d)) ->
      NoDup (map version_key (tbl_scene_versions d')))
  /\ (versions_have_scenes d -> versions_have_scenes d')
  /\ (forall who2 v2, version_key v2 = version_key v ->
        exists e, insert_scene_version who2 d' v2 = Err e).
Proof.
  intros H. apply insert_scene_version_ok in H
    as (Hwho & Hr & Hnew & Hscene & ->).
  cbn [with_scene_versions tbl_scene_versions tbl_scenes].
  repeat split; auto.
  - intros Hnd. rewrite map_app. cbn [map].
    apply NoDup_app; [exact Hnd|repeat constructor; intros []|].
    intros k Hk [<-|[]]. contradiction.
  - intros Hfk w Hw. unfold scene_ids.
    cbn [with_scene_versions tbl_scenes tbl_scene_versions] in *.
    apply in_app_or in Hw as [Hw|[<-|[]]]; [now apply Hfk|exact Hscene].
  - intros who2 v2 Hkey.
    destruct (insert_scene_version who2 _ v2) as [d2|e] eqn:E;
      [|now exists e].
    apply insert_scene_version_ok in E as (_ & _ & Hn & _).
    elim Hn. cbn [with_scene_versions tbl_scene_versions].
    rewrite map_app, Hkey.
    apply in_or_app. right. now left.
Qed.

Lemma version_records_stay_unique_witness :
  exists e,
    insert_scene_version service_role
      (with_scene_versions Samples2.store_with_two_versions
         (tbl_scene_versions Samples2.store_with_two_versions
          ++ [Samples2.third_version]))
      Samples2.third_version
    = Err e.
Proof.
  destruct (version_records_stay_unique service_role
              Samples2.store_with_two_versions Samples2.third_version
              (with_scene_versions Samples2.store_with_two_versions
                 (tbl_scene_versions Samples2.store_with_two_versions
                  ++ [Samples2.third_version])) eq_refl)
    as (_ & _ & _ & _ & _ & _ & H).
  apply (H service_role Samples2.third_version eq_refl).
Defined.

(** X17. A user who has just signed up gets one profile row, with role
    'user' and status 'pending' whatever else the sign-up carried, put
    after the rows there were; nobody's approval changes and the new
    user has no approved profile. The other tables are untouched. The
    trigger fails when the user has no email or already has a
    profile. *)
Theorem new_user_starts_pending NEW_id NEW_email NOW d :
  (forall d', handle_new_user NEW_id NEW_email NOW d = inl d' ->
     (forall u, approved_profile_exists d' u = approved_profile_exists d u)
     /\ approved_profile_exists d' NEW_id = false
     /\ (exists p, tbl_profiles d' = tbl_profiles d ++ [p]
                   /\ profiles.id p = NEW_id
                   /\ Some (profiles.email p) = NEW_email
                   /\ profiles.status p = Some user_status.pending
                   /\ profiles.role p = Some user_role.user
                   /\ profiles.api_key_hash p = None)
     /\ (forall p, In p (tbl_profiles d) -> profiles.id p <> NEW_id)
     /\ tbl_projects d' = tbl_projects d
     /\ tbl_shot_types d' = tbl_shot_types d
     /\ tbl_scenes d' = tbl_scenes d
     /\ tbl_scene_versions d' = tbl_scene_versions d)
  /\ (NEW_email = None ->
      handle_new_user NEW_id NEW_email NOW d = inr email_is_null)
  /\ (forall p email, In p (tbl_profiles d) -> profiles.id p = NEW_id ->
        handle_new_user NEW_id (Some email) NOW d = inr profile_exists)
  /\ (forall email,
        (forall p, In p (tbl_profiles d) -> profiles.id p <> NEW_id) ->
        exists d', handle_new_user NEW_id (Some email) NOW d = inl d').
Proof.
  split; [|split; [|split]].
  - intros d'. unfold handle_new_user.
    destruct NEW_email as [email|]; [|discriminate].
    destruct (existsb _ (tbl_profiles d)) eqn:Hex; [discriminate|].
    intros [= <-].
    assert (Hsame : forall u,
               approved_profile_exists
                 (with_profiles d
                    (tbl_profiles d
                     ++ [{| profiles.id := NEW_id;
                            profiles.email := email;
                            profiles.role := Some user_role.user;
                            profiles.status := Some user_status.pending;
                            profiles.api_key_hash := None;
                            profiles.created_at := Some NOW;
                            profiles.updated_at := Some NOW |}])) u
               = approved_profile_exists d u).
    { intros u. unfold approved_profile_exists.
      cbn [with_profiles tbl_profiles].
      rewrite existsb_app. cbn [existsb profiles.id profiles.status
                                user_status.eqb].
      now rewrite andb_false_r, !orb_false_r. }
    assert (Hnone : forall p, In p (tbl_profiles d) ->
                              profiles.id p <> NEW_id).
    { intros p Hp Hid.
      assert (Ht : existsb (fun p => N.eqb (profiles.id p) NEW_id)
                           (tbl_profiles d) = true).
      { apply existsb_exists. exists p. split; [exact Hp|].
        now apply N.eqb_eq. }
      congruence. }
    assert (Hnew : approved_profile_exists d NEW_id = false).
    { destruct (approved_profile_exists d NEW_id) eqn:Ea; [|reflexivity].
      apply approved_profile_exists_iff in Ea as (p & Hp & Hid & _).
      now elim (Hnone p Hp). }
    split; [exact Hsame|]. split; [now rewrite Hsame|].
    split.
    { eexists. split; [reflexivity|]. repeat split. }
    split; [exact Hnone|]. repeat split.
  - intros ->. reflexivity.
  - intros p email Hp Hid. unfold handle_new_user.
    assert (Ht : existsb (fun p => N.eqb (profiles.id p) NEW_id)
                         (tbl_profiles d) = true).
    { apply existsb_exists. exists p. split; [exact Hp|].
      now apply N.eqb_eq. }
    now rewrite Ht.
  - intros email Hnone. unfold handle_new_user.
    destruct (existsb _ (tbl_profiles d)) eqn:Hex;
      [|eexists; reflexivity].
    apply existsb_exists in Hex as (p & Hp & Hid).
    apply N.eqb_eq in Hid. now elim (Hnone p Hp).
Qed.

Lemma new_user_starts_pending_witness :
  (exists d',
      handle_new_user 12%N (Some "new@example.com"%string)
        1700000000000000 Samples.store_of_pending_user = inl d'
      /\ approved_profile_exists d' 12%N = false
      /\ approved_profile_exists d' 10%N = true)
  /\ handle_new_user 11%N (Some "al@example.com"%string)
       1700000000000000 Samples.store_of_pending_user
     = inr profile_exists.
Proof.
  destruct (new_user_starts_pending 12%N (Some "new@example.com"%string)
              1700000000000000 Samples.store_of_pending_user)
    as (Hok & _ & _ & Hgo).
  destruct (new_user_starts_pending 11%N (Some "al@example.com"%string)
              1700000000000000 Samples.store_of_pending_user)
    as (_ & _ & Hdup & _).
  split.
  - destruct (Hgo "new@example.com"%string) as [d' E].
    { intros p [<-|[<-|[]]]; discriminate. }
    exists d'. split; [exact E|].
    destruct (Hok d' E) as (Hsame & Hnew & _).
    split; [exact Hnew|]. rewrite Hsame. reflexivity.
  - apply (Hdup Samples.pending_user); [right; left|]; reflexivity.
Defined.

(** *** Primary keys and the update trigger *)

Lemma update_scenes_keys who NOW d cond set d' :
  update_scenes who NOW d cond set = Ok d' ->
  NoDup (scene_ids d) -> NoDup (scene_ids d').
Proof.
  intros Hup Hk. unfold update_scenes, bind in Hup.
  destruct (users_can_manage_own_scenes who c_update d) as [may|e] eqn:Hs;
    [|discriminate Hup].
  apply policy_ok in Hs as [_ ->]. cbv beta in Hup. cbn [andb] in Hup.
  repeat match type of Hup with
         | (if negb ?c then _ else _) = _ =>
             destruct c; cbn [negb] in Hup; [|discriminate Hup]
         end.
  destruct (existsb _ (tbl_scenes d)) eqn:Hhit; cbn [andb] in Hup.
  - destruct (distinct _) eqn:Hd; cbn [negb] in Hup; [|discriminate Hup].
    destruct (forallb _ _); cbn [negb] in Hup; [|discriminate Hup].
    injection Hup as <-. unfold scene_ids, with_scenes. cbn [tbl_scenes].
    now apply distinct_NoDup.
  - destruct (forallb _ _); cbn [negb] in Hup; [|discriminate Hup].
    injection Hup as <-. unfold scene_ids, with_scenes. cbn [tbl_scenes].
    assert (E : map (fun r =>
                       if cond r
                       then scenes.update_updated_at_column NOW (set r)
                       else r) (tbl_scenes d)
                = tbl_scenes d).
    { rewrite <- (map_id (tbl_scenes d)) at 2. apply map_ext_in.
      intros r Hr. destruct (cond r) eqn:E; [|reflexivity].
      assert (Ht : existsb (fun r => cond r) (tbl_scenes d) = true).
      { apply existsb_exists. now exists r. }
      congruence. }
    rewrite E. exact Hk.
Qed.

(** X18. The scene ids stay pairwise distinct under every statement on
    [scenes]: an [INSERT] or an [UPDATE] that would repeat an id fails,
    and a [DELETE] only removes rows. *)
Theorem scene_ids_stay_unique d :
  NoDup (scene_ids d) ->
  (forall who r d', insert_scene who d r = Ok d' -> NoDup (scene_ids d'))
  /\ (forall who NOW cond set d',
        update_scenes who NOW d cond set = Ok d' -> NoDup (scene_ids d'))
  /\ (forall who cond d',
        delete_scenes who d cond = Ok d' -> NoDup (scene_ids d'))
  /\ (forall who r, In (scenes.id r) (scene_ids d) ->
        exists e, insert_scene who d r = Err e).
Proof.
  intros Hk. split; [|split; [|split]].
  - intros who r d' H. apply insert_scene_ok in H as (-> & Hfresh & _).
    apply existsb_eqb_not_In in Hfresh.
    unfold scene_ids, with_scenes. cbn [tbl_scenes]. rewrite map_app.
    apply NoDup_app; [exact Hk|repeat constructor; intros []|].
    intros x Hx [<-|[]]. contradiction.
  - intros who NOW cond set d' H. eapply update_scenes_keys; eauto.
  - intros who cond d' H. apply delete_scenes_ok in H as [-> _].
    unfold scene_ids, without_scenes. cbn [tbl_scenes].
    now apply NoDup_map_filter.
  - intros who r Hin.
    destruct (insert_scene who d r) as [d'|e] eqn:E; [|now exists e].
    apply insert_scene_ok in E as (_ & Hfresh & _).
    apply existsb_eqb_not_In in Hfresh. contradiction.
Qed.

Lemma scene_ids_stay_unique_witness :
  exists e,
    insert_scene service_role Samples.store_of_pending_user
      Samples.scene_of_pending_user = Err e.
Proof.
  destruct (scene_ids_stay_unique Samples.store_of_pending_user)
    as (_ & _ & _ & H).
  - repeat constructor. intros [].
  - apply H. left. reflexivity.
Defined.

(** X19. After a successful [UPDATE] on [scenes] the table holds as many
    rows as before: every row the statement did not select, as it was,
    and for every row it selected the row the [SET] list makes of it
    with [updated_at = NOW], put there by the trigger whatever the
    statement assigned to that column; it holds no other row. The other
    tables are untouched. *)
Theorem update_touches_selected_rows who NOW d cond set d' :
  update_scenes who NOW d cond set = Ok d' ->
  List.length (tbl_scenes d') = List.length (tbl_scenes d)
  /\ (forall r, In r (tbl_scenes d) -> cond r = false ->
        In r (tbl_scenes d'))
  /\ (forall r, In r (tbl_scenes d) -> cond r = true ->
        In (scenes.update_updated_at_column NOW (set r)) (tbl_scenes d')
        /\ scenes.updated_at (scenes.update_updated_at_column NOW (set r))
           = Some NOW
        /\ scenes.folder (scenes.update_updated_at_column NOW (set r))
           = scenes.folder (set r)
        /\ scenes.status (scenes.update_updated_at_column NOW (set r))
           = scenes.status (set r))
  /\ (forall r', In r' (tbl_scenes d') ->
        exists r, In r (tbl_scenes d)
                  /\ r' = if cond r
                          then scenes.update_updated_at_column NOW (set r)
                          else r)
  /\ tbl_profiles d' = tbl_profiles d
  /\ tbl_projects d' = tbl_projects d
  /\ tbl_shot_types d' = tbl_shot_types d
  /\ tbl_scene_versions d' = tbl_scene_versions d
  /\ (versions_have_scenes d -> versions_have_scenes d').
Proof.
  intros H. apply update_scenes_ok in H as (-> & _ & Hchecked).
  cbn [with_scenes tbl_scenes tbl_profiles tbl_projects tbl_shot_types
       tbl_scene_versions] in *.
  split; [apply length_map|].
  assert (Hstay : forall r, In r (tbl_scenes d) -> cond r = false ->
            In r (map (fun r => if cond r
                                then scenes.update_updated_at_column NOW
                                       (set r)
                                else r) (tbl_scenes d))).
  { intros r Hr Hs. apply in_map_iff. exists r. now rewrite Hs. }
  split; [exact Hstay|].
  split; [|split; [|split; [|split; [|split; [|split]]]]];
    try reflexivity.
  - intros r Hr Hs. split; [|repeat split].
    apply in_map_iff. exists r. now rewrite Hs.
  - intros r' Hr'. apply in_map_iff in Hr' as (r & <- & Hr).
    now exists r.
  - intros Hfk v Hv. specialize (Hfk v Hv).
    unfold scene_ids in *. cbn [with_scenes tbl_scenes].
    apply in_map_iff in Hfk as (r & Er & Hr).
    destruct (cond r) eqn:Hc.
    + destruct (Hchecked r Hr Hc) as (_ & _ & Hfollow).
      unfold versions_follow in Hfollow.
      assert (Href : existsb (fun v0 => N.eqb (scene_versions.scene_id v0)
                                              (scenes.id r))
                             (tbl_scene_versions d) = true).
      { apply existsb_exists. exists v. split; [exact Hv|].
        apply N.eqb_eq. now symmetry. }
      rewrite Href in Hfollow. cbn [negb orb] in Hfollow.
      apply existsb_eqb_In in Hfollow. now rewrite <- Er.
    + rewrite <- Er. apply in_map. now apply Hstay.
Qed.

Lemma update_touches_selected_rows_witness :
  exists d',
    update_scenes service_role 1700000000000099
      Samples2.store_with_two_versions
      (fun r => N.eqb (scenes.id r) 101%N) Samples2.set_folder = Ok d'
    /\ map (fun r => (scenes.id r, scenes.folder r, scenes.updated_at r))
           (tbl_scenes d')
       = [(101%N, "reshoot"%string, Some 1700000000000099)].
Proof.
  destruct (update_scenes service_role 1700000000000099
              Samples2.store_with_two_versions
              (fun r => N.eqb (scenes.id r) 101%N) Samples2.set_folder)
    as [d'|e] eqn:E; [|discriminate E].
  exists d'. split; [reflexivity|].
  destruct (update_touches_selected_rows _ _ _ _ _ _ E)
    as (Hlen & _ & Hhit & Hall & _).
  destruct (Hhit Samples.scene_with_two_versions) as (Hin & _);
    [left; reflexivity|reflexivity|].
  destruct (tbl_scenes d') as [|r1 [|r2 l]]; try discriminate Hlen.
  destruct Hin as [->|[]]. reflexivity.
Defined.

End SchemaMore.

(* ------------------------------------------------------------------ *)
(** ** The analytics hooks *)

Module AnalyticsFacts.
Import JS.
Import JSFacts.
Import Analytics.

Section Hooks.

Context {V : Values}.

Lemma get_set_same k v (o : object) : get k (set k v o) = Some v.
Proof.
  unfold get. induction o as [|[k' v'] o IH]; cbn [set find fst].
  - now rewrite strict_eq_refl.
  - destruct (strict_eq k' k) eqn:E; cbn [find fst]; rewrite E;
      [reflexivity|exact IH].
Qed.

Lemma get_set_other k k' v (o : object) :
  k' <> k -> get k (set k' v o) = get k o.
Proof.
  intros Hne. unfold get.
  induction o as [|[k1 v1] o IH]; cbn [set find fst].
  - apply strict_eq_false in Hne. now rewrite Hne.
  - destruct (strict_eq k1 k') eqn:E; cbn [find fst].
    + apply strict_eq_true in E. subst k1.
      apply strict_eq_false in Hne. now rewrite Hne.
    + destruct (strict_eq k1 k); [reflexivity|exact IH].
Qed.

Lemma get_absent k (o : object) :
  ~ In k (map fst o) -> get k o = None.
Proof.
  unfold get. induction o as [|[k1 v1] o IH]; cbn [map find fst];
    intros Hn; [reflexivity|].
  destruct (strict_eq k1 k) eqn:E.
  - apply strict_eq_true in E. elim Hn. now left.
  - apply IH. intros H. apply Hn. now right.
Qed.

Lemma get_cons k k1 v1 (o : object) :
  get k ((k1, v1) :: o) = if strict_eq k1 k then Some v1 else get k o.
Proof. unfold get. cbn [find fst]. now destruct (strict_eq k1 k). Qed.

(** A spread key takes the value of the spread object, any other key
    keeps the value it had. *)
Lemma get_spread k (src : option object) (dst : object) :
  well_formed src ->
  get k (spread src dst)
  = match src with
    | Some o => match get k o with
                | Some v => Some v
                | None => get k dst
                end
    | None => get k dst
    end.
Proof.
  destruct src as [o|]; [|reflexivity]. cbn [well_formed spread].
  revert dst. induction o as [|[k1 v1] o IH]; intros dst Hnd;
    [reflexivity|].
  cbn [map fst] in Hnd. inversion Hnd as [|? ? Hk1 Hrest]; subst.
  cbn [fold_left fst snd]. rewrite IH by exact Hrest.
  rewrite get_cons. destruct (strict_eq k1 k) eqn:E.
  - apply strict_eq_true in E. subst k1.
    now rewrite (get_absent k o Hk1), get_set_same.
  - apply strict_eq_false in E.
    now rewrite (get_set_other k k1 v1 dst E).
Qed.

Lemma track_get env name properties k :
  well_formed properties ->
  get k (event_properties (track env name properties))
  = if strict_eq k (lit "path") then Some (of_string (pathname env))
    else if strict_eq k (lit "timestamp")
         then Some (of_number (Date_now env))
         else match properties with
              | Some o => get k o
              | None => None
              end.
Proof.
  intros Hwf. cbn [track event_properties].
  destruct (strict_eq k (lit "path")) eqn:Ep.
  - apply strict_eq_true in Ep. subst k. apply get_set_same.
  - apply strict_eq_false in Ep.
    rewrite get_set_other by congruence.
    destruct (strict_eq k (lit "timestamp")) eqn:Et.
    + apply strict_eq_true in Et. subst k. apply get_set_same.
    + apply strict_eq_false in Et.
      rewrite get_set_other by congruence.
      rewrite get_spread by exact Hwf.
      destruct properties as [o|]; [|reflexivity].
      now destruct (get k o).
Qed.

(** X20. Every event [track] sends carries [timestamp = Date.now()]
    and [path = location.pathname], also when the caller's properties
    name these keys themselves: the caller's values are overwritten.
    Every other key of the properties reaches the event with the
    caller's value, and the event carries no further key. The event
    name is the one given. *)
Theorem track_stamps_every_event env name properties :
  well_formed properties ->
  event_name (track env name properties) = name
  /\ get (lit "timestamp") (event_properties (track env name properties))
     = Some (of_number (Date_now env))
  /\ get (lit "path") (event_properties (track env name properties))
     = Some (of_string (pathname env))
  /\ (forall k, k <> lit "timestamp" -> k <> lit "path" ->
        get k (event_properties (track env name properties))
        = match properties with
          | Some o => get k o
          | None => None
          end).
Proof.
  intros Hwf. split; [reflexivity|].
  split; [now rewrite track_get|]. split; [now rewrite track_get|].
  intros k Ht Hp. rewrite track_get by exact Hwf.
  apply strict_eq_false in Ht, Hp. now rewrite Hp, Ht.
Qed.

Lemma set_keys_nodup k v (o : object) :
  NoDup (map fst o) -> NoDup (map fst (set k v o)).
Proof.
  assert (Hin : forall o x, In x (map fst (set k v o)) ->
                            x = k \/ In x (map fst o)).
  { induction o0 as [|[k1 v1] o0 IH]; cbn [set map fst]; intros x.
    - intros [<-|[]]. now left.
    - destruct (strict_eq k1 k); cbn [map fst].
      + intros [<-|H]; right; [now left|now right].
      + intros [<-|H]; [right; now left|].
        destruct (IH x H); [now left|right; now right]. }
  induction o as [|[k1 v1] o IH]; cbn [set map fst]; intros Hnd.
  - repeat constructor. intros [].
  - inversion Hnd as [|? ? Hk1 Hrest]; subst.
    destruct (strict_eq k1 k) eqn:E; cbn [map fst].
    + now constructor.
    + constructor; [|now apply IH].
      intros H. destruct (Hin o k1 H) as [->|H']; [|contradiction].
      now rewrite strict_eq_refl in E.
Qed.

Lemma spread_well_formed (src : option object) (dst : object) :
  NoDup (map fst dst) -> well_formed (Some (spread src dst)).
Proof.
  destruct src as [o|]; cbn [spread well_formed]; [|auto].
  revert dst. induction o as [|[k1 v1] o IH]; intros dst Hnd;
    [exact Hnd|].
  cbn [fold_left fst snd]. apply IH. now apply set_keys_nodup.
Qed.

Lemma literal_well_formed k v (o : object) :
  NoDup (map fst o) -> NoDup (map fst (set k v o)).
Proof. apply set_keys_nodup. Qed.

Lemma get_overridden k v k' (details : option object) :
  well_formed details ->
  get k' (spread details (set k v []))
  = match details with
    | Some o => match get k' o with
                | Some v' => Some v'
                | None => if strict_eq k k' then Some v else None
                end
    | None => if strict_eq k k' then Some v else None
    end.
Proof.
  intros Hwf. rewrite get_spread by exact Hwf.
  cbn [set]. rewrite get_cons. unfold get. cbn [find option_map].
  reflexivity.
Qed.

(** X21. A user-action event is named 'user_action' and is stamped
    like every event. Its [action] is the one given, unless the
    details name a key [action] themselves: then the details' value
    replaces it. The same holds for the form hooks: the details of
    [trackFormError] can replace [action], [form] and [error], and a
    key [path] or [timestamp] in them is lost to the stamp. *)
Theorem user_action_can_be_overridden env action details :
  well_formed details ->
  event_name (trackUserAction env action details) = lit "user_action"
  /\ get (lit "action")
         (event_properties (trackUserAction env action details))
     = overridden (lit "action") (of_string action) details
  /\ get (lit "timestamp")
         (event_properties (trackUserAction env action details))
     = Some (of_number (Date_now env))
  /\ get (lit "path")
         (event_properties (trackUserAction env action details))
     = Some (of_string (pathname env))
  /\ (forall formName error,
        get (lit "action")
            (event_properties (trackFormError env formName error details))
        = overridden (lit "action") (of_string (lit "form_error")) details
        /\ get (lit "form")
               (event_properties
                  (trackFormError env formName error details))
           = overridden (lit "form") (of_string formName) details
        /\ get (lit "error")
               (event_properties
                  (trackFormError env formName error details))
           = overridden (lit "error") (of_string error) details
        /\ get (lit "path")
               (event_properties
                  (trackFormError env formName error details))
           = Some (of_string (pathname env))).
Proof.
  intros Hwf.
  assert (Hwf1 : forall a d, well_formed d ->
             well_formed (Some (spread d (set (lit "action")
                                              (of_string a) [])))).
  { intros a d _. apply spread_well_formed. repeat constructor.
    intros []. }
  split; [reflexivity|].
  unfold trackUserAction. split; [|split].
  - rewrite track_get by now apply Hwf1.
    change (strict_eq (lit "action") (lit "path")) with false.
    change (strict_eq (lit "action") (lit "timestamp")) with false.
    cbn iota. rewrite get_overridden by exact Hwf.
    rewrite strict_eq_refl. unfold overridden.
    destruct details as [o|]; reflexivity.
  - rewrite track_get by now apply Hwf1. reflexivity.
  - split; [rewrite track_get by (now apply Hwf1); reflexivity|].
    intros formName error. unfold trackFormError, trackUserAction.
    set (inner := spread details
                    (set (lit "error") (of_string error)
                       (set (lit "form") (of_string formName) []))).
    assert (Hinner : well_formed (Some inner)).
    { apply spread_well_formed. cbn.
      repeat constructor; cbn; intuition discriminate. }
    assert (Hget : forall k,
               get k inner
               = match details with
                 | Some o =>
                     match get k o with
                     | Some v => Some v
                     | None =>
                         get k (set (lit "error") (of_string error)
                                  (set (lit "form")
                                     (of_string formName) []))
                     end
                 | None =>
                     get k (set (lit "error") (of_string error)
                              (set (lit "form") (of_string formName) []))
                 end).
    { intros k. unfold inner. now rewrite get_spread. }
    rewrite !track_get by (apply spread_well_formed;
                           repeat constructor; intros []).
    change (strict_eq (lit "action") (lit "path")) with false.
    change (strict_eq (lit "action") (lit "timestamp")) with false.
    change (strict_eq (lit "form") (lit "path")) with false.
    change (strict_eq (lit "form") (lit "timestamp")) with false.
    change (strict_eq (lit "error") (lit "path")) with false.
    change (strict_eq (lit "error") (lit "timestamp")) with false.
    change (strict_eq (lit "path") (lit "path")) with true.
    cbn iota.
    rewrite !get_spread by exact Hinner.
    rewrite !Hget. unfold overridden.
    destruct details as [o|].
    + destruct (get (lit "action") o), (get (lit "form") o),
        (get (lit "error") o); repeat split; reflexivity.
    + repeat split; reflexivity.
Qed.

(** The file and scene hooks send a 'feature_usage' event whose
    [feature] is the hook's own name and whose arguments sit under
    their own keys; they take no details, so nothing can replace
    them, and the event is stamped like every other. *)
Theorem feature_hooks_report_their_arguments env :
  (forall shotType frameCount,
      let e := trackSceneGeneration env shotType frameCount in
      event_name e = lit "feature_usage"
      /\ get (lit "feature") (event_properties e)
         = Some (of_string (lit "scene_generation"))
      /\ get (lit "shotType") (event_properties e)
         = Some (of_string shotType)
      /\ get (lit "frameCount") (event_properties e)
         = Some (of_number frameCount)
      /\ get (lit "timestamp") (event_properties e)
         = Some (of_number (Date_now env))
      /\ get (lit "path") (event_properties e)
         = Some (of_string (pathname env)))
  /\ (forall sceneId reason,
        let e := trackSceneRegeneration env sceneId reason in
        get (lit "feature") (event_properties e)
        = Some (of_string (lit "scene_regeneration"))
        /\ get (lit "sceneId") (event_properties e)
           = Some (of_string sceneId)
        /\ get (lit "reason") (event_properties e)
           = Some (of_string reason))
  /\ (forall sceneCount format,
        let e := trackSceneExport env sceneCount format in
        get (lit "feature") (event_properties e)
        = Some (of_string (lit "scene_export"))
        /\ get (lit "sceneCount") (event_properties e)
           = Some (of_number sceneCount)
        /\ get (lit "format") (event_properties e)
           = Some (of_string format))
  /\ (forall fileCount totalSize fileTypes,
        let e := trackFileUpload env fileCount totalSize fileTypes in
        get (lit "feature") (event_properties e)
        = Some (of_string (lit "file_upload"))
        /\ get (lit "fileCount") (event_properties e)
           = Some (of_number fileCount)
        /\ get (lit "totalSize") (event_properties e)
           = Some (of_number totalSize)
        /\ get (lit "fileTypes") (event_properties e)
           = Some (of_strings fileTypes))
  /\ (forall fileCount totalSize,
        let e := trackFileDownload env fileCount totalSize in
        get (lit "feature") (event_properties e)
        = Some (of_string (lit "file_download"))
        /\ get (lit "fileCount") (event_properties e)
           = Some (of_number fileCount)
        /\ get (lit "totalSize") (event_properties e)
           = Some (of_number totalSize))
  /\ (forall fileCount,
        let e := trackFileDelete env fileCount in
        get (lit "feature") (event_properties e)
        = Some (of_string (lit "file_delete"))
        /\ get (lit "fileCount") (event_properties e)
           = Some (of_number fileCount)).
Proof.
  repeat split.
Qed.

End Hooks.

Lemma track_stamps_every_event_witness :
  get (lit "timestamp")
      (event_properties
         (track (V := sample_values) (@mkEnv sample_values 1700000000000 (lit "/admin"))
            (lit "page")
            (Some [(lit "timestamp", v_number 1); (lit "x", v_number 2)])))
  = Some (v_number 1700000000000).
Proof.
  destruct (track_stamps_every_event (V := sample_values)
              (@mkEnv sample_values 1700000000000 (lit "/admin")) (lit "page")
              (Some [(lit "timestamp", v_number 1); (lit "x", v_number 2)]))
    as (_ & H & _).
  - cbn. repeat constructor; cbn; intuition discriminate.
  - exact H.
Defined.

Lemma user_action_can_be_overridden_witness :
  get (lit "action")
      (event_properties
         (trackFormError (V := sample_values)
            (@mkEnv sample_values 1700000000000 (lit "/settings")) (lit "password")
            (lit "too short")
            (Some [(lit "action", v_string (lit "spoofed"))])))
  = Some (v_string (lit "spoofed")).
Proof.
  destruct (user_action_can_be_overridden (V := sample_values)
              (@mkEnv sample_values 1700000000000 (lit "/settings")) (lit "x")
              (Some [(lit "action", v_string (lit "spoofed"))]))
    as (_ & _ & _ & _ & H).
  - cbn. repeat constructor. intros [].
  - destruct (H (lit "password") (lit "too short")) as [Ha _].
    exact Ha.
Defined.

End AnalyticsFacts.

(* ------------------------------------------------------------------ *)
(** ** The provider's authentication check *)

Module AppProviderFacts.
Import JS.
Import AppContext.
Import AppProvider.

Lemma dispatch_cons clk a acts s :
  dispatch_all s ((clk, a) :: acts)
  = dispatch_all (appReducer clk s a) acts.
Proof. reflexivity. Qed.

Ltac clocked acts H :=
  repeat (destruct acts as [|[? ?] acts]; cbn [map snd] in H;
          try discriminate H);
  injection H as; subst.

(** X22. Whatever the authentication service and the store answer,
    [checkAuth] ends with [loading = false] and leaves theme, sidebar
    and preferences alone. The user is set exactly when there is a
    session, the profile exactly when it loaded. When the check goes
    through the notifications are untouched; otherwise one unread error
    notification is put in front of them. *)
Theorem check_auth_always_ends_loading getSession loadProfile s acts :
  map snd acts = checkAuth getSession loadProfile ->
  loading (dispatch_all s acts) = false
  /\ theme (dispatch_all s acts) = theme s
  /\ sidebarOpen (dispatch_all s acts) = sidebarOpen s
  /\ preferences (dispatch_all s acts) = preferences s
  /\ user (dispatch_all s acts)
     = match getSession with
       | resolves (Some u) => Some u
       | _ => user s
       end
  /\ profile (dispatch_all s acts)
     = match getSession with
       | resolves (Some u) =>
           match loadProfile u with
           | resolves (single_row p) => Some p
           | _ => profile s
           end
       | _ => profile s
       end
  /\ (went_through getSession loadProfile = true ->
      notifications (dispatch_all s acts) = notifications s)
  /\ (went_through getSession loadProfile = false ->
      exists n,
        notifications (dispatch_all s acts)
        = n :: firstn 49 (notifications s)
        /\ read n = false /\ type n = error).
Proof.
  intros H. unfold checkAuth, went_through in *.
  destruct getSession as [[u|]|].
  - destruct (loadProfile u) as [[p|]|]; cbn [app] in H;
      clocked acts H; rewrite !dispatch_cons;
      unfold dispatch_all; cbn [fold_left];
      cbn [appReducer set_notifications loading theme sidebarOpen
           preferences user profile notifications];
      repeat split; try discriminate;
      intros _; eexists; (split; [reflexivity|split; reflexivity]).
  - clocked acts H. rewrite !dispatch_cons.
    unfold dispatch_all; cbn [fold_left].
    cbn [appReducer set_notifications loading theme sidebarOpen
         preferences user profile notifications].
    repeat split; discriminate.
  - clocked acts H. rewrite !dispatch_cons.
    unfold dispatch_all; cbn [fold_left].
    cbn [appReducer set_notifications loading theme sidebarOpen
         preferences user profile notifications].
    repeat split; try discriminate.
    intros _. eexists. split; [reflexivity|split; reflexivity].
Qed.

Lemma check_auth_always_ends_loading_witness :
  loading
    (dispatch_all initialState
       [(mkClock 1 1, SET_USER (Some (mkUser (lit "u1") None)));
        (mkClock 2 2, ADD_NOTIFICATION profile_error_notification);
        (mkClock 3 3, SET_LOADING false)])
  = false.
Proof.
  destruct (check_auth_always_ends_loading
              (resolves (Some (mkUser (lit "u1") None)))
              (fun _ => resolves single_error) initialState
              [(mkClock 1 1, SET_USER (Some (mkUser (lit "u1") None)));
               (mkClock 2 2, ADD_NOTIFICATION profile_error_notification);
               (mkClock 3 3, SET_LOADING false)] eq_refl) as [H _].
  exact H.
Defined.

End AppProviderFacts.
